(** * QOI ("Quite OK Image") codec: a shallow embedding of [qoi.c]

    The encoder [qoi_encode], the decoder [qoi_decode] and the file functions
    [qoi_read] and [qoi_write] of [src/qoi.c], with [main] and [ends_with] of
    [src/main.c], are translated function by function.  C integers are [Z]
    with the wrap-around of their type written out ([u8], [u32], [s8],
    [s32]); byte buffers are [list Z] accessed by index, an access outside
    the buffer being the outcome [Fault]; the 64-entry colour table is a
    [list qoi_rgba_t]; the calls of the C library on files, and those of
    [stb_image], are answered by records of results, the former listed in a
    trace. *)

From Stdlib Require Import ZArith Lia Bool.
From stdpp Require Import base list strings.

Local Open Scope Z_scope.

(** ** Machine integers *)

Definition u8 (x : Z) : Z := x mod 256.
Definition u32 (x : Z) : Z := x mod 4294967296.
Definition s8 (x : Z) : Z := (x + 128) mod 256 - 128.
Definition s32 (x : Z) : Z := (x + 2147483648) mod 4294967296 - 2147483648.

(** ** Constants of [qoi.h] and [qoi.c] *)

Definition QOI_HEADER_SIZE : Z := 14.
Definition QOI_MAGIC : Z := 0x716f6966.
Definition QOI_MAXIMUM_PIXELS : Z := 400000000.
Definition QOI_MAXIMUM_RUN : Z := 62.

Definition QOI_OP_INDEX : Z := 0x00.
Definition QOI_OP_DIFF : Z := 0x40.
Definition QOI_OP_LUMA : Z := 0x80.
Definition QOI_OP_RUN : Z := 0xc0.
Definition QOI_OP_RGB : Z := 0xfe.
Definition QOI_OP_RGBA : Z := 0xff.

Definition QOI_OP_MASK : Z := 0xc0.
Definition QOI_RUN_MASK : Z := 0x3f.

Definition MEMORY_SIZE : Z := 64.

Definition qoi_padding : list Z := [0; 0; 0; 0; 0; 0; 0; 1].

(** ** Data *)

Record qoi_desc := Desc {
  width : Z;      (* uint32_t *)
  height : Z;     (* uint32_t *)
  channels : Z;   (* uint8_t *)
  colorspace : Z  (* uint8_t *)
}.

(** The union [qoi_rgba_t]: four bytes; its member [v] is the same four bytes
    read as one word, so [x.v == y.v] is equality of the four components. *)
Record qoi_rgba_t := RGBA {
  rgba_r : Z;
  rgba_g : Z;
  rgba_b : Z;
  rgba_a : Z
}.

Definition rgba_eqb (x y : qoi_rgba_t) : bool :=
  (rgba_r x =? rgba_r y) && (rgba_g x =? rgba_g y) &&
  (rgba_b x =? rgba_b y) && (rgba_a x =? rgba_a y).

#[global] Instance qoi_rgba_t_inhabited : Inhabited qoi_rgba_t :=
  populate (RGBA 0 0 0 0).

Inductive errno := EINVAL | ENOMEM.

(** What a call does: it returns, it fails with an [errno], it accesses a
    buffer outside its bounds (undefined behaviour in C), the loop of the
    model has no fuel left, or an [assert] fails and aborts the program. *)
Inductive outcome (A : Type) : Type :=
| Ret (x : A)
| Err (e : errno)
| Fault
| OutOfFuel
| Abort.
Arguments Ret {A} x.
Arguments Err {A} e.
Arguments Fault {A}.
Arguments OutOfFuel {A}.
Arguments Abort {A}.

#[global] Instance outcome_bind : MBind outcome := λ A B f m,
  match m with
  | Ret x => f x
  | Err e => Err e
  | Fault => Fault
  | OutOfFuel => OutOfFuel
  | Abort => Abort
  end.

(** [bytes[i]] as an rvalue. *)
Definition load (bytes : list Z) (i : Z) : outcome Z :=
  if 0 <=? i then
    match bytes !! Z.to_nat i with
    | Some v => Ret v
    | None => Fault
    end
  else Fault.

(** [bytes[i] = v] for a [uint8_t] buffer. *)
Definition store (bytes : list Z) (i : Z) (v : Z) : outcome (list Z) :=
  if (0 <=? i) && (i <? Z.of_nat (length bytes)) then
    Ret (<[Z.to_nat i := u8 v]> bytes)
  else Fault.

(** An output buffer with its write index: [bytes] and [idx] of the encoder. *)
Record cursor := Cursor {
  c_bytes : list Z;
  c_idx : Z
}.

(** [bytes[idx++] = v] *)
Definition put (v : Z) (c : cursor) : outcome cursor :=
  bytes ← store (c_bytes c) (c_idx c) v;
  Ret (Cursor bytes (u32 (c_idx c + 1))).

(** [bytes[idx++]] as an rvalue: the value read and the new index. *)
Definition get (bytes : list Z) (idx : Z) : outcome (Z * Z) :=
  v ← load bytes idx;
  Ret (v, u32 (idx + 1)).

(** ** Helper functions of [qoi.c] *)

Definition qoi_hash (color : qoi_rgba_t) : Z :=
  u8 ((rgba_r color * 3 + rgba_g color * 5 + rgba_b color * 7
       + rgba_a color * 11) mod MEMORY_SIZE).

Definition qoi_read_32 (bytes : list Z) (idx : Z) : outcome (Z * Z) :=
  '(a, idx) ← get bytes idx;
  '(b, idx) ← get bytes idx;
  '(c, idx) ← get bytes idx;
  '(d, idx) ← get bytes idx;
  Ret (u32 (Z.lor (Z.lor (Z.lor (u32 (Z.shiftl a 24)) (u32 (Z.shiftl b 16)))
                         (u32 (Z.shiftl c 8))) d), idx).

Definition qoi_write_32 (val : Z) (c : cursor) : outcome cursor :=
  c ← put (Z.shiftr (Z.land 0xff000000 val) 24) c;
  c ← put (Z.shiftr (Z.land 0x00ff0000 val) 16) c;
  c ← put (Z.shiftr (Z.land 0x0000ff00 val) 8) c;
  put (Z.land 0x000000ff val) c.

(** ** The encoder *)

Record enc_state := EncS {
  e_out : cursor;           (* bytes, idx *)
  e_mem : list qoi_rgba_t;  (* mem *)
  e_curr : qoi_rgba_t;      (* px_curr *)
  e_prev : qoi_rgba_t;      (* px_prev *)
  e_run : Z                 (* run *)
}.

(** The chunk written for a pixel that differs from its predecessor and from
    the table entry of its hash: DIFF, LUMA, RGB or RGBA. *)
Definition enc_new_pixel (px_curr px_prev : qoi_rgba_t) (out : cursor)
  : outcome cursor :=
  if rgba_a px_curr =? rgba_a px_prev then
    let dr := s8 (rgba_r px_curr - rgba_r px_prev) in
    let dg := s8 (rgba_g px_curr - rgba_g px_prev) in
    let db := s8 (rgba_b px_curr - rgba_b px_prev) in
    if ((-2 <=? dr) && (dr <=? 1)) && ((-2 <=? dg) && (dg <=? 1))
       && ((-2 <=? db) && (db <=? 1)) then
      put (Z.lor (Z.lor (Z.lor QOI_OP_DIFF (Z.shiftl (dr + 2) 4))
                        (Z.shiftl (dg + 2) 2)) (db + 2)) out
    else
      let dr_dg := s8 (dr - dg) in
      let db_dg := s8 (db - dg) in
      if ((-32 <=? dg) && (dg <=? 31)) && ((-8 <=? dr_dg) && (dr_dg <=? 7))
         && ((-8 <=? db_dg) && (db_dg <=? 7)) then
        out ← put (Z.lor QOI_OP_LUMA (dg + 32)) out;
        put (Z.lor (Z.shiftl (dr_dg + 8) 4) (db_dg + 8)) out
      else
        out ← put QOI_OP_RGB out;
        out ← put (rgba_r px_curr) out;
        out ← put (rgba_g px_curr) out;
        put (rgba_b px_curr) out
  else
    out ← put QOI_OP_RGBA out;
    out ← put (rgba_r px_curr) out;
    out ← put (rgba_g px_curr) out;
    out ← put (rgba_b px_curr) out;
    put (rgba_a px_curr) out.

(** The load at the head of the encoder's loop body.  With four channels
    the pixel is the four bytes at the address [px + px_pos]; with three, the
    bytes are indexed by [uint32_t] sums. *)
Definition enc_load (px : list Z) (channels px_pos : Z) (px_curr : qoi_rgba_t)
  : outcome qoi_rgba_t :=
  if channels =? 4 then
    r ← load px px_pos;
    g ← load px (px_pos + 1);
    b ← load px (px_pos + 2);
    a ← load px (px_pos + 3);
    Ret (RGBA r g b a)
  else
    r ← load px (u32 (px_pos + 0));
    g ← load px (u32 (px_pos + 1));
    b ← load px (u32 (px_pos + 2));
    Ret (RGBA r g b (rgba_a px_curr)).

(** One iteration of the loop of [qoi_encode]. *)
Definition enc_iter (px : list Z) (channels px_end px_pos : Z) (s : enc_state)
  : outcome enc_state :=
  let '(EncS out mem px_curr px_prev run) := s in
  px_curr ← enc_load px channels px_pos px_curr;
  '(out, mem, run) ←
    (if rgba_eqb px_curr px_prev then
       let run := u8 (run + 1) in
       if (run =? QOI_MAXIMUM_RUN) || (px_pos =? px_end) then
         out ← put (Z.lor QOI_OP_RUN (run - 1)) out;
         Ret (out, mem, 0)
       else Ret (out, mem, run)
     else
       '(out, run) ←
         (if 0 <? run then
            out ← put (Z.lor QOI_OP_RUN (run - 1)) out;
            Ret (out, 0)
          else Ret (out, run));
       let mem_pos := qoi_hash px_curr in
       if rgba_eqb px_curr (mem !!! Z.to_nat mem_pos) then
         out ← put (Z.lor QOI_OP_INDEX mem_pos) out;
         Ret (out, mem, run)
       else
         let mem := <[Z.to_nat mem_pos := px_curr]> mem in
         out ← enc_new_pixel px_curr px_prev out;
         Ret (out, mem, run));
  Ret (EncS out mem px_curr px_curr run).

(** [for (px_pos = ...; px_pos < px_len; px_pos += channels)] *)
Fixpoint enc_loop (fuel : nat) (px : list Z) (channels px_len px_end : Z)
    (px_pos : Z) (s : enc_state) : outcome enc_state :=
  if px_pos <? px_len then
    match fuel with
    | O => OutOfFuel
    | S fuel =>
        s ← enc_iter px channels px_end px_pos s;
        enc_loop fuel px channels px_len px_end (u32 (px_pos + channels)) s
    end
  else Ret s.

(** [for (i = 0; i < sizeof(qoi_padding); i += 1)
      bytes[idx++] = qoi_padding[i]] *)
Fixpoint put_all (vs : list Z) (c : cursor) : outcome cursor :=
  match vs with
  | [] => Ret c
  | v :: vs => c ← put v c; put_all vs c
  end.

(** The size of the allocation made by [qoi_encode]. *)
Definition enc_capacity (desc : qoi_desc) : Z :=
  u32 (u32 (u32 (u32 (width desc * height desc) * (channels desc + 1))
            + QOI_HEADER_SIZE) + 8).

(** The conditions asserted at the head of [qoi_encode], for non-null
    pointers.  An [assert] is compiled out when [NDEBUG] is defined; otherwise
    a false condition aborts the program. *)
Definition enc_asserts (desc : qoi_desc) : bool :=
  (0 <? width desc) && (0 <? height desc)
  && ((channels desc =? 3) || (channels desc =? 4))
  && (colorspace desc <=? 1)
  && (height desc <? QOI_MAXIMUM_PIXELS / width desc).

Definition enc_invalid (desc : qoi_desc) : bool :=
  (width desc =? 0) || (height desc =? 0)
  || (negb (channels desc =? 3) && negb (channels desc =? 4))
  || (1 <? colorspace desc)
  || (QOI_MAXIMUM_PIXELS / width desc <=? height desc).

(** The prologue of [qoi_encode], for non-null [data], [desc] and [size]:
    the assertions, the guard, the allocation and the header, up to the
    initial state of the loop.  [ndebug] tells whether [NDEBUG] is defined
    (the Makefile of the project defines it); [malloc n] tells whether an
    allocation of [n] bytes succeeds; the fresh buffer, of indeterminate
    content in C, is zero-filled here. *)
Definition enc_start (ndebug : bool) (malloc : Z → bool) (desc : qoi_desc)
  : outcome enc_state :=
  if negb ndebug && negb (enc_asserts desc) then Abort
  else if enc_invalid desc then Err EINVAL
  else
    let sz := enc_capacity desc in
    if negb (malloc sz) then Err ENOMEM
    else
      let out := Cursor (replicate (Z.to_nat sz) 0) 0 in
      out ← qoi_write_32 QOI_MAGIC out;
      out ← qoi_write_32 (width desc) out;
      out ← qoi_write_32 (height desc) out;
      out ← put (channels desc) out;
      out ← put (colorspace desc) out;
      let px_prev := RGBA 0 0 0 255 in
      let px_curr := px_prev in
      let mem := replicate (Z.to_nat MEMORY_SIZE) (RGBA 0 0 0 0) in
      Ret (EncS out mem px_curr px_prev 0).

Definition enc_px_len (desc : qoi_desc) : Z :=
  u32 (u32 (width desc * height desc) * channels desc).

Definition enc_px_end (desc : qoi_desc) : Z :=
  u32 (enc_px_len desc - channels desc).

(** [qoi_encode]: the result is the buffer and the value stored in [*size]. *)
Definition qoi_encode (ndebug : bool) (malloc : Z → bool) (data : list Z)
    (desc : qoi_desc) : outcome (list Z * Z) :=
  s ← enc_start ndebug malloc desc;
  let px_len := enc_px_len desc in
  let px_end := enc_px_end desc in
  s ← enc_loop (Z.to_nat px_len) data (channels desc) px_len px_end 0 s;
  out ← put_all qoi_padding (e_out s);
  Ret (c_bytes out, s32 (c_idx out)).

(** The state of [qoi_encode] when its loop has consumed [n] pixels
    ([px_pos = n * channels]). *)
Definition enc_upto (ndebug : bool) (malloc : Z → bool) (data : list Z)
    (desc : qoi_desc) (n : Z) : outcome enc_state :=
  s ← enc_start ndebug malloc desc;
  let bound := Z.min (enc_px_len desc) (n * channels desc) in
  enc_loop (Z.to_nat bound) data (channels desc) bound (enc_px_end desc) 0 s.

(** ** The decoder *)

Record dec_state := DecS {
  d_idx : Z;                (* idx *)
  d_mem : list qoi_rgba_t;  (* mem *)
  d_px : list Z;            (* px *)
  d_curr : qoi_rgba_t;      (* px_curr *)
  d_run : Z                 (* run *)
}.

(** The chain of tests on [byte1]: the new [idx], [px_curr] and [run]. *)
Definition dec_opcode (bytes : list Z) (byte1 idx : Z) (mem : list qoi_rgba_t)
    (px_curr : qoi_rgba_t) (run : Z) : outcome (Z * qoi_rgba_t * Z) :=
  if byte1 =? QOI_OP_RGBA then
    '(r, idx) ← get bytes idx;
    '(g, idx) ← get bytes idx;
    '(b, idx) ← get bytes idx;
    '(a, idx) ← get bytes idx;
    Ret (idx, RGBA r g b a, run)
  else if byte1 =? QOI_OP_RGB then
    '(r, idx) ← get bytes idx;
    '(g, idx) ← get bytes idx;
    '(b, idx) ← get bytes idx;
    Ret (idx, RGBA r g b (rgba_a px_curr), run)
  else if Z.land byte1 QOI_OP_MASK =? QOI_OP_LUMA then
    '(byte2, idx) ← get bytes idx;
    let dg := s8 (Z.land byte1 0x3f - 32) in
    Ret (idx,
         RGBA (u8 (rgba_r px_curr + (dg + Z.land (Z.shiftr byte2 4) 0x0f - 8)))
              (u8 (rgba_g px_curr + dg))
              (u8 (rgba_b px_curr + (dg + Z.land byte2 0x0f - 8)))
              (rgba_a px_curr),
         run)
  else if Z.land byte1 QOI_OP_MASK =? QOI_OP_DIFF then
    Ret (idx,
         RGBA (u8 (rgba_r px_curr + (Z.land (Z.shiftr byte1 4) 0x03 - 2)))
              (u8 (rgba_g px_curr + (Z.land (Z.shiftr byte1 2) 0x03 - 2)))
              (u8 (rgba_b px_curr + (Z.land byte1 0x03 - 2)))
              (rgba_a px_curr),
         run)
  else if Z.land byte1 QOI_OP_MASK =? QOI_OP_INDEX then
    Ret (idx, mem !!! Z.to_nat byte1, run)
  else if Z.land byte1 QOI_OP_MASK =? QOI_OP_RUN then
    Ret (idx, px_curr, Z.land byte1 QOI_RUN_MASK)
  else Ret (idx, px_curr, run).

(** The first half of the loop body of [qoi_decode]: replay a run, or read
    one chunk and update the table, or (chunks exhausted) do nothing. *)
Definition dec_chunk (bytes : list Z) (px_chunks : Z) (s : dec_state)
  : outcome dec_state :=
  let '(DecS idx mem px px_curr run) := s in
  if 0 <? run then Ret (DecS idx mem px px_curr (u8 (run - 1)))
  else if idx <? px_chunks then
    '(byte1, idx) ← get bytes idx;
    '(idx, px_curr, run) ← dec_opcode bytes byte1 idx mem px_curr run;
    let mem := <[Z.to_nat (qoi_hash px_curr) := px_curr]> mem in
    Ret (DecS idx mem px px_curr run)
  else Ret s.

(** The second half: write out the decoded pixel. *)
Definition dec_emit (channels px_pos : Z) (s : dec_state) : outcome dec_state :=
  let '(DecS idx mem px px_curr run) := s in
  if channels =? 4 then
    px ← store px px_pos (rgba_r px_curr);
    px ← store px (px_pos + 1) (rgba_g px_curr);
    px ← store px (px_pos + 2) (rgba_b px_curr);
    px ← store px (px_pos + 3) (rgba_a px_curr);
    Ret (DecS idx mem px px_curr run)
  else
    px ← store px (u32 (px_pos + 0)) (rgba_r px_curr);
    px ← store px (u32 (px_pos + 1)) (rgba_g px_curr);
    px ← store px (u32 (px_pos + 2)) (rgba_b px_curr);
    Ret (DecS idx mem px px_curr run).

Definition dec_iter (bytes : list Z) (px_chunks channels px_pos : Z)
    (s : dec_state) : outcome dec_state :=
  s ← dec_chunk bytes px_chunks s;
  dec_emit channels px_pos s.

Fixpoint dec_loop (fuel : nat) (bytes : list Z) (px_chunks channels px_len : Z)
    (px_pos : Z) (s : dec_state) : outcome dec_state :=
  if px_pos <? px_len then
    match fuel with
    | O => OutOfFuel
    | S fuel =>
        s ← dec_iter bytes px_chunks channels px_pos s;
        dec_loop fuel bytes px_chunks channels px_len
          (u32 (px_pos + channels)) s
    end
  else Ret s.

(** The header as [qoi_decode] reads it: magic and the four descriptor
    fields. *)
Definition dec_header (bytes : list Z) : outcome (Z * qoi_desc * Z) :=
  '(magic, idx) ← qoi_read_32 bytes 0;
  '(w, idx) ← qoi_read_32 bytes idx;
  '(h, idx) ← qoi_read_32 bytes idx;
  '(c, idx) ← get bytes idx;
  '(cs, idx) ← get bytes idx;
  Ret (magic, Desc w h c cs, idx).

Definition dec_invalid (magic : Z) (desc : qoi_desc) : bool :=
  (width desc =? 0) || (height desc =? 0) || (channels desc <? 3)
  || (4 <? channels desc) || (1 <? colorspace desc)
  || negb (magic =? QOI_MAGIC)
  || (QOI_MAXIMUM_PIXELS / width desc <=? height desc).

(** The conditions asserted at the head of [qoi_decode], for non-null
    pointers. *)
Definition dec_asserts (size target_channels : Z) : bool :=
  ((target_channels =? 0) || (target_channels =? 3) || (target_channels =? 4))
  && (QOI_HEADER_SIZE + 8 <=? size).

(** The prologue of [qoi_decode], for non-null [data] and [desc]: the
    assertions, the guard, the header and the allocation, up to the initial
    state of the loop, with the number of channels to decode into and
    [px_len].  The second component is the content of [*desc] from then on;
    the parameter [channels] of the C function is [target_channels] here. *)
Definition dec_start (ndebug : bool) (malloc : Z → bool) (data : list Z)
    (size : Z) (desc : qoi_desc) (target_channels : Z)
  : outcome (Z * Z * dec_state) * qoi_desc :=
  if negb ndebug && negb (dec_asserts size target_channels) then (Abort, desc)
  else if (negb (target_channels =? 0) && negb (target_channels =? 3)
           && negb (target_channels =? 4))
          || (size <? QOI_HEADER_SIZE + 8) then (Err EINVAL, desc)
  else
    match dec_header data with
    | Ret (magic, desc, idx) =>
        if dec_invalid magic desc then (Err EINVAL, desc)
        else
          let channels :=
            if target_channels =? 0 then channels desc else target_channels in
          let px_len := u32 (u32 (width desc * height desc) * channels) in
          if negb (malloc px_len) then (Err ENOMEM, desc)
          else
            let px := replicate (Z.to_nat px_len) 0 in
            let px_curr := RGBA 0 0 0 255 in
            let mem := replicate (Z.to_nat MEMORY_SIZE) (RGBA 0 0 0 0) in
            (Ret (channels, px_len, DecS idx mem px px_curr 0), desc)
    | Err e => (Err e, desc)
    | Fault => (Fault, desc)
    | OutOfFuel => (OutOfFuel, desc)
    | Abort => (Abort, desc)
    end.

(** The state of [qoi_decode] when its loop has produced [n] pixels
    ([px_pos = n * channels]). *)
Definition dec_upto (ndebug : bool) (malloc : Z → bool) (data : list Z)
    (size : Z) (desc : qoi_desc) (target_channels : Z) (n : Z)
  : outcome dec_state :=
  '(channels, px_len, s) ←
    (dec_start ndebug malloc data size desc target_channels).1;
  let bound := Z.min px_len (n * channels) in
  dec_loop (Z.to_nat bound) data (u32 (size - 8)) channels bound 0 s.

(** [qoi_decode]: the pixels, and the content of [*desc] when the call ends. *)
Definition qoi_decode (ndebug : bool) (malloc : Z → bool) (data : list Z)
    (size : Z) (desc : qoi_desc) (target_channels : Z)
  : outcome (list Z) * qoi_desc :=
  let '(start, desc) :=
    dec_start ndebug malloc data size desc target_channels in
  ('(channels, px_len, s) ← start;
   s ← dec_loop (Z.to_nat px_len) data (u32 (size - 8)) channels px_len 0 s;
   Ret (d_px s), desc).

(** ** Files: [qoi_read] and [qoi_write] *)

Inductive whence := SEEK_SET | SEEK_END.

(** What the C library answers to the calls of [qoi_read] and [qoi_write]:
    whether [fopen(filename, mode)] returns a stream, the results of
    [fseek(f, offset, whence)], [ftell(f)] and [fclose(f)], the bytes
    [fread(data, 1, n, f)] stores, the result of [fwrite(p, 1, sz, f)] for
    the [sz] bytes at [p], and whether [malloc(n)] succeeds. *)
Record libc := Libc {
  libc_fopen : string → string → bool;
  libc_fseek : Z → whence → Z;
  libc_ftell : Z;
  libc_fread : Z → list Z;
  libc_fwrite : list Z → Z;
  libc_fclose : Z;
  libc_malloc : Z → bool
}.

(** The calls made on streams, in order, with their results. *)
Inductive event :=
| Fopen (filename mode : string) (ok : bool)
| Fseek (offset : Z) (w : whence) (rc : Z)
| Ftell (pos : Z)
| Fread (n : Z) (bytes : list Z)
| Fwrite (bytes : list Z) (rc : Z)
| Fclose (rc : Z).

(** [rc = fclose(f); assert(rc == 0); if (rc != 0) return fail; return r;] *)
Definition close_and_return {A} (ndebug : bool) (os : libc) (tr : list event)
    (fail r : outcome A) : list event * outcome A :=
  let rc := libc_fclose os in
  let tr := tr ++ [Fclose rc] in
  if negb ndebug && negb (rc =? 0) then (tr, Abort)
  else if negb (rc =? 0) then (tr, fail)
  else (tr, r).

(** [qoi_write], for non-null arguments: the calls on the stream and the
    value returned. *)
Definition qoi_write (ndebug : bool) (os : libc) (filename : string)
    (data : list Z) (desc : qoi_desc) : list event * outcome Z :=
  let f := libc_fopen os filename "wb" in
  let tr := [Fopen filename "wb" f] in
  if negb f then (tr, Ret 0)
  else
    match qoi_encode ndebug (libc_malloc os) data desc with
    | Ret (p, sz) =>
        let rc := libc_fwrite os (take (Z.to_nat sz) p) in
        let tr := tr ++ [Fwrite (take (Z.to_nat sz) p) rc] in
        if negb ndebug && negb (rc =? sz) then (tr, Abort)
        else if negb (rc =? sz) then (tr, Ret 0)
        else close_and_return ndebug os tr (Ret 0) (Ret sz)
    | Err _ => close_and_return ndebug os tr (Ret 0) (Ret 0)
    | Fault => (tr, Fault)
    | OutOfFuel => (tr, OutOfFuel)
    | Abort => (tr, Abort)
    end.

(** [qoi_read], for non-null arguments: the calls on the stream, the result
    and the content of [*desc] when the call ends.  The result [Ret None] is
    the [NULL] of the function's own checks, [Err e] the [NULL] of
    [qoi_decode], which sets [errno] to [e].  The buffer [data] comes from
    [malloc] and is zero-filled here beyond the bytes [fread] stores; the
    parameter [channels] of the C function is [target_channels] here. *)
Definition qoi_read (ndebug : bool) (os : libc) (filename : string)
    (desc : qoi_desc) (target_channels : Z)
  : list event * outcome (option (list Z)) * qoi_desc :=
  if negb ndebug
     && negb ((target_channels =? 0) || (target_channels =? 3)
             || (target_channels =? 4))
  then ([], Abort, desc)
  else if negb (target_channels =? 0) && negb (target_channels =? 3)
          && negb (target_channels =? 4)
  then ([], Ret None, desc)
  else
    let f := libc_fopen os filename "rb" in
    let tr := [Fopen filename "rb" f] in
    if negb f then (tr, Ret None, desc)
    else
      let rc := libc_fseek os 0 SEEK_END in
      let tr := tr ++ [Fseek 0 SEEK_END rc] in
      if negb ndebug && negb (rc =? 0) then (tr, Abort, desc)
      else if negb (rc =? 0) then (tr, Ret None, desc)
      else
        let sz := libc_ftell os in
        let tr := tr ++ [Ftell sz] in
        if sz <=? 0 then
          (close_and_return ndebug os tr (Ret None) (Ret None), desc)
        else
          let rc := libc_fseek os 0 SEEK_SET in
          let tr := tr ++ [Fseek 0 SEEK_SET rc] in
          if negb ndebug && negb (rc =? 0) then (tr, Abort, desc)
          else if negb (rc =? 0) then (tr, Ret None, desc)
          else if negb (libc_malloc os sz) then
            (close_and_return ndebug os tr (Ret None) (Ret None), desc)
          else
            let got := take (Z.to_nat sz) (libc_fread os sz) in
            let data := got ++ replicate (Z.to_nat sz - length got) 0 in
            let bytes_read := s32 (Z.of_nat (length got)) in
            let tr := tr ++ [Fread sz got] in
            let rc := libc_fclose os in
            let tr := tr ++ [Fclose rc] in
            if negb ndebug && negb (rc =? 0) then (tr, Abort, desc)
            else if negb (rc =? 0) then (tr, Ret None, desc)
            else
              let '(p, desc) :=
                qoi_decode ndebug (libc_malloc os) data bytes_read desc
                  target_channels in
              (tr, px ← p; Ret (Some px), desc).

(** ** Strings of [main.c] *)

(** A C string is represented by its characters before the terminating NUL;
    [size_t] lengths are [nat]. *)
Definition strlen (s : string) : nat := String.length s.

(** [strncmp(s1, s2, n)]: the difference of the first two characters that
    differ among the first [n], the end of a string counting as the
    character 0. *)
Fixpoint strncmp (s1 s2 : string) (n : nat) : Z :=
  match n with
  | O => 0
  | S n =>
      match s1, s2 with
      | EmptyString, EmptyString => 0
      | EmptyString, String c _ => - Z.of_nat (Ascii.nat_of_ascii c)
      | String c _, EmptyString => Z.of_nat (Ascii.nat_of_ascii c)
      | String c1 s1, String c2 s2 =>
          if Ascii.eqb c1 c2 then strncmp s1 s2 n
          else Z.of_nat (Ascii.nat_of_ascii c1)
               - Z.of_nat (Ascii.nat_of_ascii c2)
      end
  end.

(** The string at [s + n]. *)
Fixpoint str_offset (n : nat) (s : string) : string :=
  match n, s with
  | O, _ => s
  | S n, String _ s => str_offset n s
  | S _, EmptyString => EmptyString
  end.

(** [ends_with] of [main.c], for non-null [str] and [suffix]. *)
Definition ends_with (ndebug : bool) (str suffix : string) : outcome Z :=
  if negb ndebug && negb (strlen suffix <=? strlen str)%nat then Abort
  else
    let len_str := strlen str in
    let len_suffix := strlen suffix in
    if (len_str <? len_suffix)%nat then Ret (-1)
    else
      Ret (if strncmp (str_offset (len_str - len_suffix) str) suffix
                len_suffix =? 0
           then 1 else 0).

(** ** The program: [main] of [main.c] *)

(** What [stb_image] answers: the width, height and channels
    [stbi_info(filename, &width, &height, &channels)] stores when it succeeds;
    the pixels [stbi_load(filename, &width, &height, NULL, channels)] returns
    with the width and height it stores; the result of
    [stbi_write_png(filename, width, height, channels, pixels, 0)]. *)
Record stb := Stb {
  stbi_info : string → option (Z * Z * Z);
  stbi_load : string → Z → option (list Z * Z * Z);
  stbi_write_png : string → Z → Z → Z → list Z → Z
}.

(** The enumeration [QOI_COLORSPACE] of [qoi.h]. *)
Definition QOI_SRGB : Z := 0.
Definition QOI_LINEAR : Z := 1.

(** The argument of [exit]. *)
Inductive status := EXIT_SUCCESS | EXIT_FAILURE | EXIT_errno (e : errno).

(** What a run of [main] does: the lines it [puts], the calls on streams it
    makes through [qoi_read] and [qoi_write], and how it ends. *)
Definition main_run : Type := list string * list event * outcome status.

(** The end of [main], from [if (!encoded)]. *)
Definition main_end (lines : list string) (tr : list event) (encoded : Z)
  : main_run :=
  if encoded =? 0 then
    (lines ++ ["ERROR: Could not write/encode."], tr, Ret EXIT_FAILURE)
  else (lines, tr, Ret EXIT_SUCCESS).

(** The second half of [main]: the pixels are written out.  When [argv[2]]
    ends with neither suffix, [encoded] is read without ever having been
    written, which is undefined: the outcome is [Fault]. *)
Definition main_write (ndebug : bool) (os : libc) (im : stb) (out : string)
    (tr : list event) (pixels : list Z) (width height channels : Z)
  : main_run :=
  match ends_with ndebug out ".png" with
  | Ret v =>
      if negb (v =? 0) then
        main_end [] tr (stbi_write_png im out width height channels pixels)
      else
        match ends_with ndebug out ".qoi" with
        | Ret v =>
            if negb (v =? 0) then
              let '(tr', r) :=
                qoi_write ndebug os out pixels
                  (Desc (u32 width) (u32 height) (u8 channels) QOI_SRGB) in
              match r with
              | Ret encoded => main_end [] (tr ++ tr') encoded
              | Err e => ([], tr ++ tr', Err e)
              | Fault => ([], tr ++ tr', Fault)
              | OutOfFuel => ([], tr ++ tr', OutOfFuel)
              | Abort => ([], tr ++ tr', Abort)
              end
            else ([], tr, Fault)
        | Err e => ([], tr, Err e)
        | Fault => ([], tr, Fault)
        | OutOfFuel => ([], tr, OutOfFuel)
        | Abort => ([], tr, Abort)
        end
  | Err e => ([], tr, Err e)
  | Fault => ([], tr, Fault)
  | OutOfFuel => ([], tr, OutOfFuel)
  | Abort => ([], tr, Abort)
  end.

(** The first half of [main], for [argc == 3]: the pixels are read in.
    [channels0] is the value of the variable [channels], which is not
    initialised, when it is passed to [qoi_read]. *)
Definition main_read (ndebug : bool) (os : libc) (im : stb) (inp out : string)
    (channels0 : Z) : main_run :=
  match ends_with ndebug inp ".png" with
  | Ret v =>
      if negb (v =? 0) then
        match stbi_info im inp with
        | None => (["ERROR: Could not read PNG header."], [], Ret EXIT_FAILURE)
        | Some (_, _, channels) =>
            let channels := if negb (channels =? 3) then 4 else channels in
            match stbi_load im inp channels with
            | None => (["ERROR: Could not load/decode."], [], Ret EXIT_FAILURE)
            | Some (pixels, width, height) =>
                main_write ndebug os im out [] pixels width height channels
            end
        end
      else
        match ends_with ndebug inp ".qoi" with
        | Ret v =>
            if negb (v =? 0) then
              let '(tr, r, desc) :=
                qoi_read ndebug os inp (Desc 0 0 0 0) channels0 in
              match r with
              | Ret (Some pixels) =>
                  main_write ndebug os im out tr pixels (s32 (width desc))
                    (s32 (height desc)) (channels desc)
              | Ret None | Err _ =>
                  (["ERROR: Could not load/decode."], tr, Ret EXIT_FAILURE)
              | Fault => ([], tr, Fault)
              | OutOfFuel => ([], tr, OutOfFuel)
              | Abort => ([], tr, Abort)
              end
            else
              (["ERROR: Can only convert between .png and .qoi."], [],
               Ret (EXIT_errno EINVAL))
        | Err e => ([], [], Err e)
        | Fault => ([], [], Fault)
        | OutOfFuel => ([], [], OutOfFuel)
        | Abort => ([], [], Abort)
        end
  | Err e => ([], [], Err e)
  | Fault => ([], [], Fault)
  | OutOfFuel => ([], [], OutOfFuel)
  | Abort => ([], [], Abort)
  end.

(** The assertion on [argv[1]] at the head of [main]. *)
Definition main_assert (inp : string) : bool :=
  match ends_with false inp ".png" with
  | Ret v =>
      if negb (v =? 0) then true
      else
        match ends_with false inp ".qoi" with
        | Ret v => negb (v =? 0)
        | _ => false
        end
  | _ => false
  end.

(** [main]: [argv] holds the [argc] arguments. *)
Definition main (ndebug : bool) (os : libc) (im : stb) (argv : list string)
    (channels0 : Z) : main_run :=
  match argv with
  | [_; inp; out] =>
      if negb ndebug && negb (main_assert inp) then ([], [], Abort)
      else main_read ndebug os im inp out channels0
  | _ =>
      if negb ndebug then ([], [], Abort)
      else
        (["Usage: qoi <infile> <outfile>"; "Examples:";
          "  qoi input.png output.qoi"; "  qoi input.qoi output.png"],
         [], Ret (EXIT_errno EINVAL))
  end.

(** * Definitions for the specification *)

(** [m] does not end with an [errno]. *)
Definition no_err {A} (m : outcome A) : Prop := ∀ e, m ≠ Err e.

(** The part of the buffer below the write index. *)
Definition written (c : cursor) : list Z :=
  take (Z.to_nat (c_idx c)) (c_bytes c).

Definition cursor_ok (c : cursor) : Prop :=
  0 ≤ c_idx c ≤ Z.of_nat (length (c_bytes c))
  ∧ Z.of_nat (length (c_bytes c)) < 4294967296.

(** The bytes [enc_new_pixel] writes. *)
Definition new_pixel_bytes (px_curr px_prev : qoi_rgba_t) : list Z :=
  if rgba_a px_curr =? rgba_a px_prev then
    let dr := s8 (rgba_r px_curr - rgba_r px_prev) in
    let dg := s8 (rgba_g px_curr - rgba_g px_prev) in
    let db := s8 (rgba_b px_curr - rgba_b px_prev) in
    if ((-2 <=? dr) && (dr <=? 1)) && ((-2 <=? dg) && (dg <=? 1))
       && ((-2 <=? db) && (db <=? 1)) then
      [Z.lor (Z.lor (Z.lor QOI_OP_DIFF (Z.shiftl (dr + 2) 4))
                    (Z.shiftl (dg + 2) 2)) (db + 2)]
    else
      let dr_dg := s8 (dr - dg) in
      let db_dg := s8 (db - dg) in
      if ((-32 <=? dg) && (dg <=? 31)) && ((-8 <=? dr_dg) && (dr_dg <=? 7))
         && ((-8 <=? db_dg) && (db_dg <=? 7)) then
        [Z.lor QOI_OP_LUMA (dg + 32);
         Z.lor (Z.shiftl (dr_dg + 8) 4) (db_dg + 8)]
      else [QOI_OP_RGB; rgba_r px_curr; rgba_g px_curr; rgba_b px_curr]
  else [QOI_OP_RGBA; rgba_r px_curr; rgba_g px_curr; rgba_b px_curr;
        rgba_a px_curr].

(** The bytes one iteration of the encoder writes for the pixel [px_curr],
    with the table and the run counter it leaves; [last] is the test
    [px_pos == px_end]. *)
Definition enc_chunk (mem : list qoi_rgba_t) (px_prev : qoi_rgba_t) (run : Z)
    (px_curr : qoi_rgba_t) (last : bool) : list Z * list qoi_rgba_t * Z :=
  if rgba_eqb px_curr px_prev then
    let run := u8 (run + 1) in
    if (run =? QOI_MAXIMUM_RUN) || last then
      ([Z.lor QOI_OP_RUN (run - 1)], mem, 0)
    else ([], mem, run)
  else
    let flush := if 0 <? run then [Z.lor QOI_OP_RUN (run - 1)] else [] in
    let run := if 0 <? run then 0 else run in
    let mem_pos := qoi_hash px_curr in
    if rgba_eqb px_curr (mem !!! Z.to_nat mem_pos) then
      (flush ++ [Z.lor QOI_OP_INDEX mem_pos], mem, run)
    else
      (flush ++ new_pixel_bytes px_curr px_prev,
       <[Z.to_nat mem_pos := px_curr]> mem, run).

(** The bytes the encoder writes for the pixels [ps] when the pixels [more]
    follow them in the image, with the table, the previous pixel and the run
    counter it is left with. *)
Fixpoint enc_run (mem : list qoi_rgba_t) (px_prev : qoi_rgba_t) (run : Z)
    (ps more : list qoi_rgba_t) : list Z * list qoi_rgba_t * qoi_rgba_t * Z :=
  match ps with
  | [] => ([], mem, px_prev, run)
  | p :: rest =>
      let '(chunk, mem, run) :=
        enc_chunk mem px_prev run p (bool_decide (rest ++ more = [])) in
      let '(bytes, mem, px_prev, run) := enc_run mem p run rest more in
      (chunk ++ bytes, mem, px_prev, run)
  end.

Definition diff_byte (x y z : Z) : Z :=
  Z.lor (Z.lor (Z.lor QOI_OP_DIFF (Z.shiftl x 4)) (Z.shiftl y 2)) z.

Definition px_valid (p : qoi_rgba_t) : Prop :=
  0 ≤ rgba_r p < 256 ∧ 0 ≤ rgba_g p < 256
  ∧ 0 ≤ rgba_b p < 256 ∧ 0 ≤ rgba_a p < 256.

(** The bytes of one pixel in a buffer of [ch] channels. *)
Definition px_bytes (ch : Z) (p : qoi_rgba_t) : list Z :=
  if ch =? 4 then [rgba_r p; rgba_g p; rgba_b p; rgba_a p]
  else [rgba_r p; rgba_g p; rgba_b p].

(** The buffer of a sequence of pixels. *)
Fixpoint flat (ch : Z) (ps : list qoi_rgba_t) : list Z :=
  match ps with
  | [] => []
  | p :: ps => px_bytes ch p ++ flat ch ps
  end.

(** What a buffer of [ch] channels holds for the encoder: with three
    channels every pixel has the alpha of the start pixel, 255. *)
Definition px_ok (ch : Z) (p : qoi_rgba_t) : Prop :=
  px_valid p ∧ (ch = 3 → rgba_a p = 255).

Definition is_byte (b : Z) : Prop := 0 ≤ b < 256.

(** The four bytes of a 32-bit value, most significant first. *)
Definition be32 (v : Z) : list Z :=
  [v / 16777216 mod 256; v / 65536 mod 256; v / 256 mod 256; v mod 256].

(** The fields of a descriptor are in the range of their C types. *)
Definition desc_wf (desc : qoi_desc) : Prop :=
  0 ≤ width desc < 4294967296 ∧ 0 ≤ height desc < 4294967296
  ∧ 0 ≤ channels desc < 256 ∧ 0 ≤ colorspace desc < 256.

(** A pixel buffer with a descriptor [qoi_encode] accepts. *)
Definition valid_image (data : list Z) (desc : qoi_desc) : Prop :=
  desc_wf desc ∧ enc_invalid desc = false ∧ Forall is_byte data
  ∧ Z.of_nat (length data) = width desc * height desc * channels desc.

(** The header [qoi_encode] writes. *)
Definition header_bytes (desc : qoi_desc) : list Z :=
  [0x71; 0x6f; 0x69; 0x66] ++ be32 (width desc) ++ be32 (height desc)
  ++ [channels desc; colorspace desc].

(** The initial previous pixel and the initial table. *)
Definition start_px : qoi_rgba_t := RGBA 0 0 0 255.
Definition start_mem : list qoi_rgba_t :=
  replicate (Z.to_nat MEMORY_SIZE) (RGBA 0 0 0 0).

(** The pixels of a buffer of [n] pixels. *)
Fixpoint to_pixels (ch : Z) (n : nat) (data : list Z) : list qoi_rgba_t :=
  match n with
  | O => []
  | S n =>
      RGBA (data !!! 0%nat) (data !!! 1%nat) (data !!! 2%nat)
           (if ch =? 4 then data !!! 3%nat else 255)
      :: to_pixels ch n (drop (Z.to_nat ch) data)
  end.

(** The chunk stream of an image. *)
Definition chunks_of (ps : list qoi_rgba_t) : list Z :=
  (enc_run start_mem start_px 0 ps []).1.1.1.

(** The pixels of the image [data] described by [desc]. *)
Definition pixels_of (data : list Z) (desc : qoi_desc) : list qoi_rgba_t :=
  to_pixels (channels desc) (Z.to_nat (width desc * height desc)) data.

(** [chunk] is in [bytes] at index [idx]. *)
Definition bytes_at (bytes : list Z) (idx : Z) (chunk : list Z) : Prop :=
  ∀ (k : nat) b, chunk !! k = Some b →
    ∀ i, i = idx + Z.of_nat k → bytes !! Z.to_nat i = Some b.

(** The decoder's table [md] agrees with the encoder's table [me], except
    that slot 53, the hash of the start pixel, may hold the start pixel in
    the decoder while the encoder still has the initial zero there. *)
Definition tables_agree (me md : list qoi_rgba_t) : Prop :=
  ∀ h : nat, (h < 64)%nat →
    md !!! h = me !!! h
    ∨ (h = 53%nat ∧ me !!! h = RGBA 0 0 0 0 ∧ md !!! h = start_px).

(** The encoder's table holds the previous pixel at its hash, unless the
    previous pixel is still the start pixel. *)
Definition prev_in_table (me : list qoi_rgba_t) (prev : qoi_rgba_t) : Prop :=
  me !!! Z.to_nat (qoi_hash prev) = prev
  ∨ (prev = start_px ∧ me !!! 53%nat = RGBA 0 0 0 0).

(** How far the decoder is ahead of the encoder: when the encoder has [run]
    pixels of a run pending and its write index is [w], the decoder has
    already read the RUN chunk the encoder will write at [w], and has
    [rund] pixels of it left to replay. *)
Definition run_link (bytes : list Z) (run w idx rund : Z) : Prop :=
  if run =? 0 then idx = w ∧ rund = 0
  else idx = w + 1 ∧ 0 ≤ rund ∧ run + rund ≤ 62
       ∧ bytes !! Z.to_nat w = Some (Z.lor QOI_OP_RUN (run + rund - 1)).

(** Encoder and decoder in lockstep on the stream [bytes], whose chunks
    end at [px_chunks], for an image of [ch] channels.  The encoder, with
    table [me], previous pixel [prev], [run] pending pixels and write index
    [w], still has the pixels [rest] to encode; the decoder, in state [ds],
    reads the stream the encoder ends up writing and has produced the bytes
    [done]. *)
Record lockstep (bytes : list Z) (px_chunks ch : Z)
    (me : list qoi_rgba_t) (prev : qoi_rgba_t) (run w : Z)
    (rest : list qoi_rgba_t) (done : list Z) (ds : dec_state) : Prop := {
  ls_prev : px_ok ch prev;
  ls_run : 0 ≤ run < 62;
  ls_me : length me = 64%nat;
  ls_table : prev_in_table me prev;
  ls_rest : Forall (px_ok ch) rest;
  ls_last : rest = [] → run = 0;
  ls_w : 0 ≤ w;
  ls_stream : bytes_at bytes w (enc_run me prev run rest []).1.1.1;
  ls_chunks :
    px_chunks = w + Z.of_nat (length (enc_run me prev run rest []).1.1.1);
  ls_curr : d_curr ds = prev;
  ls_md : length (d_mem ds) = 64%nat;
  ls_agree : tables_agree me (d_mem ds);
  ls_px_len :
    Z.of_nat (length (d_px ds))
    = Z.of_nat (length done) + ch * Z.of_nat (length rest);
  ls_px_lt : Z.of_nat (length (d_px ds)) < 4294967296;
  ls_done : take (length done) (d_px ds) = done;
  ls_link : run_link bytes run w (d_idx ds) (d_run ds)
}.

Definition always (_ : Z) : bool := true.

(** The test at the head of [qoi_decode]. *)
Definition dec_bad_args (size target_channels : Z) : bool :=
  (negb (target_channels =? 0) && negb (target_channels =? 3)
   && negb (target_channels =? 4))
  || (size <? QOI_HEADER_SIZE + 8).

(** A malformed descriptor the way the specification words it: "zero
    dimension, channels not in {3,4}, colorspace > 1, or [height * width]
    exceeds the pixel cap". *)
Definition spec_malformed (desc : qoi_desc) : Prop :=
  width desc = 0 ∨ height desc = 0
  ∨ (channels desc ≠ 3 ∧ channels desc ≠ 4)
  ∨ 1 < colorspace desc
  ∨ QOI_MAXIMUM_PIXELS < height desc * width desc.

(** The RUN chunks of [m] pixels that repeat the previous one: a byte 0xFD
    for every 62 of them, and a last chunk for what is left. *)
Definition run_chunks (m : Z) : list Z :=
  replicate (Z.to_nat (m / 62)) 0xFD
  ++ (if m mod 62 =? 0 then [] else [0xBF + m mod 62]).

(** A table of 64 entries, each of them still the initial zero or a pixel
    at the index of its hash. *)
Definition table_ok (mem : list qoi_rgba_t) : Prop :=
  length mem = 64%nat
  ∧ ∀ (i : nat) p, mem !! i = Some p →
      p = RGBA 0 0 0 0 ∨ Z.to_nat (qoi_hash p) = i.

(** [str] ends with [suffix]. *)
Definition str_suffix (suffix str : string) : Prop :=
  ∃ pre, str = pre +:+ suffix.

(** * Basic facts *)

Section Outcome.
Context {A B : Type}.

Lemma bind_Ret (x : A) (f : A → outcome B) : Ret x ≫= f = f x.
Proof. reflexivity. Qed.

Lemma bind_Ret_r (m : outcome A) : m ≫= Ret = m.
Proof. by destruct m. Qed.

Lemma bind_inv (m : outcome A) (f : A → outcome B) (y : B) :
  m ≫= f = Ret y → ∃ x, m = Ret x ∧ f x = Ret y.
Proof. destruct m; [eauto | done..]. Qed.

Lemma bind_assoc {C} (m : outcome A) (f : A → outcome B) (g : B → outcome C) :
  (m ≫= f) ≫= g = m ≫= (λ x, f x ≫= g).
Proof. by destruct m. Qed.
End Outcome.

Lemma no_err_bind {A B} (m : outcome A) (f : A → outcome B) :
  no_err m → (∀ x, no_err (f x)) → no_err (m ≫= f).
Proof.
  intros Hm Hf e. destruct m as [x|e'| | |]; simpl; try done.
  - apply Hf.
  - destruct (Hm e'). done.
Qed.

Lemma no_err_Ret {A} (x : A) : no_err (Ret x).
Proof. done. Qed.

Lemma no_err_Fault {A} : no_err (@Fault A).
Proof. done. Qed.

Lemma no_err_OutOfFuel {A} : no_err (@OutOfFuel A).
Proof. done. Qed.

Lemma no_err_Abort {A} : no_err (@Abort A).
Proof. done. Qed.

Create HintDb noerr.
#[global] Hint Resolve no_err_Ret no_err_Fault no_err_OutOfFuel no_err_Abort
  : noerr.

Ltac no_err_tac :=
  repeat first
    [ apply no_err_Ret | apply no_err_Fault | apply no_err_OutOfFuel
    | apply no_err_Abort
    | apply no_err_bind; [| intros ?]
    | match goal with
      | |- no_err (if ?b then _ else _) => destruct b
      | |- no_err (match ?x with Some _ => _ | None => _ end) => destruct x
      | |- no_err (match ?x with (_, _) => _ end) => destruct x
      | |- no_err (let '(_, _) := ?x in _) => destruct x
      end
    | solve [auto with noerr] ].

Lemma no_err_load bytes i : no_err (load bytes i).
Proof. unfold load. no_err_tac. Qed.

Lemma no_err_store bytes i v : no_err (store bytes i v).
Proof. unfold store. no_err_tac. Qed.

#[global] Hint Resolve no_err_load no_err_store : noerr.

Lemma no_err_put v c : no_err (put v c).
Proof. unfold put. no_err_tac. Qed.

Lemma no_err_get bytes i : no_err (get bytes i).
Proof. unfold get. no_err_tac. Qed.

#[global] Hint Resolve no_err_put no_err_get : noerr.

Lemma no_err_qoi_write_32 v c : no_err (qoi_write_32 v c).
Proof. unfold qoi_write_32. no_err_tac. Qed.

Lemma no_err_put_all vs c : no_err (put_all vs c).
Proof. revert c. induction vs; intros c; simpl; no_err_tac. Qed.

Lemma no_err_enc_new_pixel c p out : no_err (enc_new_pixel c p out).
Proof. unfold enc_new_pixel. no_err_tac. Qed.

Lemma no_err_enc_load px ch pos c : no_err (enc_load px ch pos c).
Proof. unfold enc_load. no_err_tac. Qed.

#[global] Hint Resolve no_err_qoi_write_32 no_err_put_all no_err_enc_new_pixel
  no_err_enc_load : noerr.

Lemma no_err_enc_iter px ch px_end pos s : no_err (enc_iter px ch px_end pos s).
Proof. unfold enc_iter. destruct s. no_err_tac. Qed.

Lemma no_err_enc_loop fuel px ch px_len px_end pos s :
  no_err (enc_loop fuel px ch px_len px_end pos s).
Proof.
  revert pos s. induction fuel; intros pos s; simpl; no_err_tac.
  apply no_err_enc_iter.
Qed.

(** A descriptor that passes the assertions passes the guard. *)
Lemma enc_asserts_valid desc :
  enc_asserts desc = true → enc_invalid desc = false.
Proof.
  unfold enc_asserts, enc_invalid. intros H.
  apply not_true_is_false. intros Hi.
  set (q := QOI_MAXIMUM_PIXELS / width desc) in *. clearbody q.
  rewrite !andb_true_iff, !orb_true_iff, !Z.ltb_lt, Z.leb_le, !Z.eqb_eq in H.
  rewrite !orb_true_iff, !andb_true_iff, !negb_true_iff, !Z.eqb_eq,
    !Z.eqb_neq, Z.ltb_lt, Z.leb_le in Hi.
  lia.
Qed.

(** [qoi_encode] reports [EINVAL] exactly when the assertions are compiled
    out and its guard fires. *)
Lemma qoi_encode_EINVAL ndebug malloc data desc :
  qoi_encode ndebug malloc data desc = Err EINVAL
  ↔ ndebug = true ∧ enc_invalid desc = true.
Proof.
  unfold qoi_encode, enc_start.
  destruct ndebug; simpl.
  - destruct (enc_invalid desc); [done |].
    split; [| by intros [_ ?]]. destruct (negb _); [done |].
    intros H. exfalso. revert H. generalize EINVAL.
    fold (no_err (A:=list Z * Z)).
    no_err_tac. apply no_err_enc_loop.
  - split; [| by intros [? _]].
    destruct (enc_asserts desc) eqn:Ha; [| done]. simpl.
    rewrite (enc_asserts_valid _ Ha). destruct (negb _); [done |].
    intros H. exfalso. revert H. generalize EINVAL.
    fold (no_err (A:=list Z * Z)).
    no_err_tac. apply no_err_enc_loop.
Qed.

(** ** Buffers and cursors *)

Lemma u32_small x : 0 ≤ x < 4294967296 → u32 x = x.
Proof. intros. unfold u32. by apply Z.mod_small. Qed.

Lemma u8_small x : 0 ≤ x < 256 → u8 x = x.
Proof. intros. unfold u8. by apply Z.mod_small. Qed.

Lemma u8_range x : 0 ≤ u8 x < 256.
Proof. unfold u8. by apply Z.mod_pos_bound. Qed.

Lemma load_Some bytes i v :
  0 ≤ i → bytes !! Z.to_nat i = Some v → load bytes i = Ret v.
Proof.
  intros Hi Hv. unfold load. rewrite Hv.
  by destruct (Z.leb_spec 0 i); [| lia].
Qed.

Lemma load_Ret_inv bytes i v :
  load bytes i = Ret v →
  0 ≤ i < Z.of_nat (length bytes) ∧ bytes !! Z.to_nat i = Some v.
Proof.
  unfold load. destruct (Z.leb_spec 0 i); [| done].
  destruct (bytes !! Z.to_nat i) eqn:E; [| done].
  intros [= ->]. apply lookup_lt_Some in E as Hlt. split; [lia | done].
Qed.

Lemma get_Some bytes i v :
  0 ≤ i < 4294967295 → bytes !! Z.to_nat i = Some v →
  get bytes i = Ret (v, i + 1).
Proof.
  intros Hi Hv. unfold get. rewrite (load_Some _ _ v) by (done || lia).
  simpl. by rewrite u32_small by lia.
Qed.

Lemma length_written c :
  cursor_ok c → Z.of_nat (length (written c)) = c_idx c.
Proof. intros [? ?]. unfold written. rewrite length_take. lia. Qed.

Lemma put_ok v c :
  cursor_ok c → c_idx c < Z.of_nat (length (c_bytes c)) →
  ∃ c', put v c = Ret c' ∧ cursor_ok c' ∧ c_idx c' = c_idx c + 1
        ∧ length (c_bytes c') = length (c_bytes c)
        ∧ written c' = written c ++ [u8 v].
Proof.
  intros [Hi Hl] Hlt. unfold put, store.
  destruct (Z.leb_spec 0 (c_idx c)); [| lia].
  destruct (Z.ltb_spec (c_idx c) (Z.of_nat (length (c_bytes c)))); [| lia].
  simpl. eexists. split; [done |].
  rewrite u32_small by lia. unfold cursor_ok, written. simpl.
  rewrite length_insert. repeat split; try lia.
  replace (Z.to_nat (c_idx c + 1)) with (S (Z.to_nat (c_idx c))) by lia.
  rewrite (take_S_r _ _ (u8 v)).
  - by rewrite take_insert_ge by lia.
  - apply list_lookup_insert_eq. lia.
Qed.

Lemma put_full v c :
  ¬ c_idx c < Z.of_nat (length (c_bytes c)) → put v c = Fault.
Proof.
  intros Hge. unfold put, store.
  destruct (Z.ltb_spec (c_idx c) (Z.of_nat (length (c_bytes c)))); [lia |].
  by rewrite andb_false_r.
Qed.

Lemma put_all_ok vs c :
  cursor_ok c →
  c_idx c + Z.of_nat (length vs) ≤ Z.of_nat (length (c_bytes c)) →
  ∃ c', put_all vs c = Ret c' ∧ cursor_ok c'
        ∧ c_idx c' = c_idx c + Z.of_nat (length vs)
        ∧ length (c_bytes c') = length (c_bytes c)
        ∧ written c' = written c ++ (u8 <$> vs).
Proof.
  revert c. induction vs as [| v vs IH]; intros c Hok Hroom; simpl in *.
  - exists c. rewrite app_nil_r. split_and!; try done; lia.
  - destruct (put_ok v c) as (c1 & -> & Hok1 & Hi1 & Hl1 & Hw1); [done | lia |].
    simpl.
    destruct (IH c1) as (c2 & -> & Hok2 & Hi2 & Hl2 & Hw2); [done | lia |].
    exists c2. rewrite Hw2, Hw1, <- app_assoc. simpl.
    split_and!; try done; try lia; congruence.
Qed.

Lemma put_all_app vs ws c :
  put_all (vs ++ ws) c = put_all vs c ≫= put_all ws.
Proof.
  revert c. induction vs as [| v vs IH]; intros c; simpl; [done |].
  destruct (put v c); simpl; [apply IH | done..].
Qed.

(** ** The chunk of one pixel as a list of bytes *)

Ltac destruct_puts :=
  repeat match goal with
    | |- context [put ?v ?c] => destruct (put v c); simpl; try done
    end.

Lemma enc_new_pixel_bytes c p out :
  enc_new_pixel c p out = put_all (new_pixel_bytes c p) out.
Proof.
  unfold enc_new_pixel, new_pixel_bytes.
  repeat match goal with
    | |- context [if ?b then _ else _] => destruct b
    end; simpl; destruct_puts.
Qed.

Lemma enc_iter_chunk px ch px_end pos out mem c0 prev run curr :
  enc_load px ch pos c0 = Ret curr →
  enc_iter px ch px_end pos (EncS out mem c0 prev run) =
    let '(chunk, mem', run') := enc_chunk mem prev run curr (pos =? px_end) in
    out' ← put_all chunk out; Ret (EncS out' mem' curr curr run').
Proof.
  intros Hload. unfold enc_iter, enc_chunk. rewrite Hload, bind_Ret.
  destruct (rgba_eqb curr prev).
  - destruct (_ || _); simpl; [| done]. destruct_puts.
  - destruct (rgba_eqb curr _).
    + destruct (0 <? run); simpl; destruct_puts.
    + destruct (0 <? run); cbn [mbind outcome_bind].
      * rewrite put_all_app. simpl put_all.
        destruct (put _ out); cbn [mbind outcome_bind]; try done.
        rewrite enc_new_pixel_bytes.
        by destruct (put_all _ _).
      * rewrite enc_new_pixel_bytes. by destruct (put_all _ _).
Qed.

(** ** Bit patterns of the chunks *)

Ltac by_enumeration :=
  eapply (bool_decide_unpack _); vm_compute; exact I.

Lemma run_byte_spec k :
  0 ≤ k < 62 →
  192 ≤ Z.lor QOI_OP_RUN k < 254
  ∧ Z.land (Z.lor QOI_OP_RUN k) QOI_OP_MASK = QOI_OP_RUN
  ∧ Z.land (Z.lor QOI_OP_RUN k) QOI_RUN_MASK = k.
Proof.
  revert k. apply (Forall_seqZ _ 0 62). by_enumeration.
Qed.

Lemma index_byte_spec h :
  0 ≤ h < 64 →
  Z.lor QOI_OP_INDEX h = h ∧ Z.land h QOI_OP_MASK = QOI_OP_INDEX.
Proof.
  revert h. apply (Forall_seqZ _ 0 64). by_enumeration.
Qed.

Lemma diff_byte_spec x y z :
  0 ≤ x < 4 → 0 ≤ y < 4 → 0 ≤ z < 4 →
  64 ≤ diff_byte x y z < 128
  ∧ Z.land (diff_byte x y z) QOI_OP_MASK = QOI_OP_DIFF
  ∧ Z.land (Z.shiftr (diff_byte x y z) 4) 0x03 = x
  ∧ Z.land (Z.shiftr (diff_byte x y z) 2) 0x03 = y
  ∧ Z.land (diff_byte x y z) 0x03 = z.
Proof.
  intros Hx Hy Hz. revert z Hz. revert y Hy. revert x Hx.
  apply (Forall_seqZ (λ x, ∀ y, 0 ≤ y < 4 → ∀ z, 0 ≤ z < 4 → _) 0 4).
  eapply Forall_impl.
  2:{ intros x H. apply (Forall_seqZ (λ y, ∀ z, 0 ≤ z < 4 → _) 0 4).
      eapply Forall_impl; [apply H |].
      intros y H'. apply (Forall_seqZ _ 0 4). apply H'. }
  by_enumeration.
Qed.

Lemma luma_byte1_spec x :
  0 ≤ x < 64 →
  128 ≤ Z.lor QOI_OP_LUMA x < 192
  ∧ Z.land (Z.lor QOI_OP_LUMA x) QOI_OP_MASK = QOI_OP_LUMA
  ∧ Z.land (Z.lor QOI_OP_LUMA x) 0x3f = x.
Proof.
  revert x. apply (Forall_seqZ _ 0 64). by_enumeration.
Qed.

Lemma luma_byte2_spec x y :
  0 ≤ x < 16 → 0 ≤ y < 16 →
  0 ≤ Z.lor (Z.shiftl x 4) y < 256
  ∧ Z.land (Z.shiftr (Z.lor (Z.shiftl x 4) y) 4) 0x0f = x
  ∧ Z.land (Z.lor (Z.shiftl x 4) y) 0x0f = y.
Proof.
  intros Hx Hy. revert y Hy. revert x Hx.
  apply (Forall_seqZ (λ x, ∀ y, 0 ≤ y < 16 → _) 0 16).
  eapply Forall_impl.
  2:{ intros x H. apply (Forall_seqZ _ 0 16). apply H. }
  by_enumeration.
Qed.

(** ** Arithmetic of the differences *)

Ltac mod_lia :=
  unfold u8, s8, u32, s32 in *; Z.to_euclidean_division_equations; lia.

Lemma s8_range x : -128 ≤ s8 x < 128.
Proof. mod_lia. Qed.

Lemma s8_small x : -128 ≤ x < 128 → s8 x = x.
Proof. mod_lia. Qed.

Lemma u8_add_s8 c p :
  0 ≤ c < 256 → 0 ≤ p < 256 → u8 (p + s8 (c - p)) = c.
Proof. mod_lia. Qed.

Lemma u8_add_luma c p dg :
  0 ≤ c < 256 → 0 ≤ p < 256 →
  u8 (p + (dg + (s8 (s8 (c - p) - dg) + 8) - 8)) = c.
Proof. mod_lia. Qed.

(** ** Pixels and pixel buffers *)

Lemma rgba_eqb_eq x y : rgba_eqb x y = true ↔ x = y.
Proof.
  unfold rgba_eqb. destruct x, y; simpl.
  rewrite !andb_true_iff, !Z.eqb_eq. split.
  - intros [[[-> ->] ->] ->]. done.
  - intros [= -> -> -> ->]. done.
Qed.

Lemma rgba_eqb_neq x y : rgba_eqb x y = false ↔ x ≠ y.
Proof.
  rewrite <- rgba_eqb_eq. destruct (rgba_eqb x y); split; congruence.
Qed.

Lemma length_px_bytes ch p :
  ch = 3 ∨ ch = 4 → Z.of_nat (length (px_bytes ch p)) = ch.
Proof. intros [-> | ->]; reflexivity. Qed.

Lemma length_flat ch ps :
  ch = 3 ∨ ch = 4 →
  Z.of_nat (length (flat ch ps)) = ch * Z.of_nat (length ps).
Proof.
  intros Hch. induction ps as [| p ps IH]; simpl; [lia |].
  rewrite length_app, Nat2Z.inj_add, IH, length_px_bytes by done. lia.
Qed.

Lemma flat_app ch ps qs : flat ch (ps ++ qs) = flat ch ps ++ flat ch qs.
Proof.
  induction ps as [| p ps IH]; simpl; [done |]. by rewrite IH, app_assoc.
Qed.

Lemma qoi_hash_range c : 0 ≤ qoi_hash c < 64.
Proof. unfold qoi_hash, MEMORY_SIZE. mod_lia. Qed.

Lemma load_app_r pre l (k : nat) v :
  l !! k = Some v →
  load (pre ++ l) (Z.of_nat (length pre) + Z.of_nat k) = Ret v.
Proof.
  intros Hk. apply load_Some; [lia |].
  replace (Z.to_nat _) with (length pre + k)%nat by lia.
  by rewrite lookup_app_r, Nat.add_sub' by lia.
Qed.

Lemma enc_load_flat pre p post ch c0 :
  ch = 3 ∨ ch = 4 →
  Z.of_nat (length pre) + 4 < 4294967296 →
  (ch = 3 → rgba_a c0 = rgba_a p) →
  enc_load (pre ++ px_bytes ch p ++ post) ch (Z.of_nat (length pre)) c0 = Ret p.
Proof.
  intros Hch Hlt Ha. unfold enc_load, px_bytes.
  rewrite !u32_small by lia.
  destruct Hch as [-> | ->]; simpl.
  - rewrite (load_app_r _ _ 0 (rgba_r p)), (load_app_r _ _ 1 (rgba_g p)),
      (load_app_r _ _ 2 (rgba_b p)) by done.
    simpl. rewrite Ha by done. by destruct p.
  - rewrite <- (Z.add_0_r (Z.of_nat (length pre))) at 1.
    rewrite (load_app_r _ _ 0 (rgba_r p)), (load_app_r _ _ 1 (rgba_g p)),
      (load_app_r _ _ 2 (rgba_b p)), (load_app_r _ _ 3 (rgba_a p)) by done.
    simpl. by destruct p.
Qed.

(** ** Properties of the chunks *)

Ltac bool_hyps :=
  repeat match goal with
    | H : _ && _ = true |- _ => apply andb_true_iff in H; destruct H
    | H : _ || _ = false |- _ => apply orb_false_iff in H; destruct H
    | H : (_ <=? _) = true |- _ => apply Z.leb_le in H
    | H : (_ <? _) = true |- _ => apply Z.ltb_lt in H
    | H : (_ =? _) = true |- _ => apply Z.eqb_eq in H
    | H : (_ <=? _) = false |- _ => apply Z.leb_gt in H
    | H : (_ <? _) = false |- _ => apply Z.ltb_ge in H
    | H : (_ =? _) = false |- _ => apply Z.eqb_neq in H
    | H : bool_decide _ = true |- _ => apply bool_decide_eq_true in H
    | H : bool_decide _ = false |- _ => apply bool_decide_eq_false in H
    end.

Ltac case_if :=
  lazymatch goal with
  | |- context [if ?b then _ else _] => destruct b eqn:?
  end.

Lemma new_pixel_bytes_range c p :
  px_valid c → px_valid p → Forall is_byte (new_pixel_bytes c p).
Proof.
  intros (? & ? & ? & ?) (? & ? & ? & ?). unfold new_pixel_bytes.
  case_if; [| repeat constructor; unfold is_byte, QOI_OP_RGBA; lia].
  case_if; bool_hyps.
  - constructor; [| done].
    destruct (diff_byte_spec
      (s8 (rgba_r c - rgba_r p) + 2) (s8 (rgba_g c - rgba_g p) + 2)
      (s8 (rgba_b c - rgba_b p) + 2)) as [Hb _]; try lia.
    unfold diff_byte in Hb. unfold is_byte. lia.
  - case_if; bool_hyps.
    + constructor; [| constructor; [| done]].
      * destruct (luma_byte1_spec (s8 (rgba_g c - rgba_g p) + 32)) as [Hb _];
          [lia |]. unfold is_byte. lia.
      * match goal with
        | |- is_byte (Z.lor (Z.shiftl ?x 4) ?y) =>
            destruct (luma_byte2_spec x y) as [Hb _]; [lia | lia |]
        end. done.
    + repeat constructor; unfold is_byte, QOI_OP_RGB; lia.
Qed.

Lemma new_pixel_bytes_length c p :
  (1 ≤ length (new_pixel_bytes c p) ≤ 5)%nat
  ∧ (rgba_a c = rgba_a p → (length (new_pixel_bytes c p) ≤ 4)%nat).
Proof.
  unfold new_pixel_bytes.
  destruct (Z.eqb_spec (rgba_a c) (rgba_a p)); [| simpl; lia].
  repeat match goal with
    | |- context [if ?b then _ else _] => destruct b
    end; simpl; lia.
Qed.

Lemma enc_chunk_props mem prev run p last chunk mem' run' :
  px_valid p → px_valid prev → 0 ≤ run < 62 →
  enc_chunk mem prev run p last = (chunk, mem', run') →
  Forall is_byte chunk ∧ 0 ≤ run' < 62 ∧ (last = true → run' = 0)
  ∧ length mem' = length mem.
Proof.
  intros Hp Hprev Hrun. unfold enc_chunk, QOI_MAXIMUM_RUN.
  rewrite (u8_small (run + 1)) by lia.
  destruct (rgba_eqb p prev).
  - destruct (_ || _) eqn:Hflush; intros [= <- <- <-].
    + split_and!; try done; try lia. constructor; [| done].
      destruct (run_byte_spec (run + 1 - 1)) as [Hb _]; [lia |].
      unfold is_byte. lia.
    + bool_hyps. split_and!; try done; try lia; congruence.
  - assert (Forall is_byte
              (if 0 <? run then [Z.lor QOI_OP_RUN (run - 1)] else [])).
    { destruct (Z.ltb_spec 0 run); [| done]. constructor; [| done].
      destruct (run_byte_spec (run - 1)) as [Hb _]; [lia |].
      unfold is_byte. lia. }
    assert ((if 0 <? run then 0 else run) = 0) as ->.
    { destruct (Z.ltb_spec 0 run); lia. }
    pose proof (qoi_hash_range p).
    destruct (rgba_eqb p _); intros [= <- <- <-].
    + split_and!; try done. apply Forall_app. split; [done |].
      constructor; [| done].
      destruct (index_byte_spec (qoi_hash p)) as [-> _]; [done |].
      unfold is_byte. lia.
    + split_and!; try done.
      * apply Forall_app. split; [done |]. by apply new_pixel_bytes_range.
      * by rewrite length_insert.
Qed.

Lemma enc_chunk_length ch mem prev run p last chunk mem' run' :
  ch = 3 ∨ ch = 4 → px_ok ch prev → px_ok ch p → 0 ≤ run →
  enc_chunk mem prev run p last = (chunk, mem', run') →
  Z.of_nat (length chunk) + (if 0 <? run' then 1 else 0)
  ≤ ch + 1 + (if 0 <? run then 1 else 0).
Proof.
  intros Hch [_ Hprev] [_ Hp] Hrun. unfold enc_chunk.
  destruct (rgba_eqb p prev).
  - destruct (_ || _); intros [= <- <- <-]; simpl.
    + destruct (0 <? run); lia.
    + destruct (0 <? u8 _), (0 <? run); lia.
  - destruct (new_pixel_bytes_length p prev) as [[_ H5] H4].
    destruct (rgba_eqb p _); intros [= <- <- <-];
      rewrite length_app, Nat2Z.inj_add.
    + destruct (Z.ltb_spec 0 run); simpl; [| destruct (Z.ltb_spec 0 run)]; lia.
    + destruct Hch as [-> | ->].
      * specialize (H4 ltac:(rewrite Hprev, Hp; done)).
        destruct (Z.ltb_spec 0 run); simpl; [| destruct (Z.ltb_spec 0 run)];
          lia.
      * destruct (Z.ltb_spec 0 run); simpl; [| destruct (Z.ltb_spec 0 run)];
          lia.
Qed.

Lemma enc_run_app mem prev run ps1 ps2 more :
  enc_run mem prev run (ps1 ++ ps2) more =
    let '(b1, mem1, prev1, run1) := enc_run mem prev run ps1 (ps2 ++ more) in
    let '(b2, mem2, prev2, run2) := enc_run mem1 prev1 run1 ps2 more in
    (b1 ++ b2, mem2, prev2, run2).
Proof.
  revert mem prev run.
  induction ps1 as [| p ps1 IH]; intros mem prev run; simpl.
  - by destruct (enc_run _ _ _ _ _) as [[[? ?] ?] ?].
  - rewrite <- app_assoc.
    destruct (enc_chunk _ _ _ _ _) as [[chunk mem'] run'].
    rewrite IH.
    destruct (enc_run mem' _ _ _ _) as [[[b1 mem1] prev1] run1].
    destruct (enc_run mem1 _ _ _ _) as [[[b2 mem2] prev2] run2].
    by rewrite app_assoc.
Qed.

Lemma enc_run_props mem prev run ps more bs mem' prev' run' :
  px_valid prev → Forall px_valid ps → 0 ≤ run < 62 →
  enc_run mem prev run ps more = (bs, mem', prev', run') →
  Forall is_byte bs ∧ 0 ≤ run' < 62 ∧ px_valid prev'
  ∧ length mem' = length mem
  ∧ (more = [] → ps ≠ [] → run' = 0).
Proof.
  revert mem prev run bs.
  induction ps as [| p ps IH]; intros mem prev run bs Hprev Hps Hrun; simpl.
  - intros [= <- <- <- <-]. done.
  - apply Forall_cons in Hps as [Hp Hps].
    destruct (enc_chunk _ _ _ _ _) as [[chunk mem1] run1] eqn:E.
    apply enc_chunk_props in E as (? & ? & Hlast & ?); try done.
    destruct (enc_run mem1 _ _ _ _) as [[[b2 mem2] prev2] run2] eqn:E2.
    intros [= <- <- <- <-].
    destruct (IH _ _ _ _ Hp Hps ltac:(done) E2) as (? & ? & ? & ? & Hfin).
    split_and!; try done; try lia; try congruence.
    + by apply Forall_app.
    + intros -> _. destruct ps as [| q ps].
      * simpl in E2. injection E2 as <- <- <- <-.
        apply Hlast. by apply bool_decide_eq_true.
      * by apply Hfin.
Qed.

Lemma enc_run_length ch mem prev run ps more bs mem' prev' run' :
  ch = 3 ∨ ch = 4 → px_ok ch prev → Forall (px_ok ch) ps → 0 ≤ run < 62 →
  enc_run mem prev run ps more = (bs, mem', prev', run') →
  Z.of_nat (length bs) + (if 0 <? run' then 1 else 0)
  ≤ (ch + 1) * Z.of_nat (length ps) + (if 0 <? run then 1 else 0).
Proof.
  intros Hch. revert mem prev run bs.
  induction ps as [| p ps IH]; intros mem prev run bs Hprev Hps Hrun; simpl.
  - intros [= <- <- <- <-]. simpl. lia.
  - apply Forall_cons in Hps as [Hp Hps].
    destruct (enc_chunk _ _ _ _ _) as [[chunk mem1] run1] eqn:E.
    pose proof E as E'.
    apply (enc_chunk_length ch) in E; try done; [| lia].
    apply enc_chunk_props in E' as (? & ? & ? & ?);
      [| apply Hp | apply Hprev | done].
    destruct (enc_run mem1 _ _ _ _) as [[[b2 mem2] prev2] run2] eqn:E2.
    intros [= <- <- <- <-].
    specialize (IH _ _ _ _ Hp Hps ltac:(done) E2).
    rewrite length_app, Nat2Z.inj_add. lia.
Qed.

(** ** The encoder's loop writes [enc_run] *)

Lemma fmap_u8_bytes bs : Forall is_byte bs → u8 <$> bs = bs.
Proof.
  induction 1 as [| b bs Hb _ IH]; [done |].
  by rewrite fmap_cons, IH, u8_small.
Qed.

Lemma enc_iter_ok pre p post ch px_end out mem c0 prev run chunk mem' run' :
  ch = 3 ∨ ch = 4 → cursor_ok out →
  Z.of_nat (length pre) + 4 < 4294967296 →
  (ch = 3 → rgba_a c0 = rgba_a p) →
  enc_chunk mem prev run p (Z.of_nat (length pre) =? px_end)
    = (chunk, mem', run') →
  Forall is_byte chunk →
  c_idx out + Z.of_nat (length chunk) ≤ Z.of_nat (length (c_bytes out)) →
  ∃ out',
    enc_iter (pre ++ px_bytes ch p ++ post) ch px_end (Z.of_nat (length pre))
      (EncS out mem c0 prev run) = Ret (EncS out' mem' p p run')
    ∧ cursor_ok out' ∧ c_idx out' = c_idx out + Z.of_nat (length chunk)
    ∧ length (c_bytes out') = length (c_bytes out)
    ∧ written out' = written out ++ chunk.
Proof.
  intros Hch Hok Hpre Ha Hchunk Hbytes Hroom.
  rewrite (enc_iter_chunk _ _ _ _ _ _ _ _ _ p) by by apply enc_load_flat.
  rewrite Hchunk.
  destruct (put_all_ok chunk out) as (out' & -> & ? & ? & ? & Hw); [done.. |].
  exists out'. rewrite fmap_u8_bytes in Hw by done. done.
Qed.

Lemma enc_loop_done fuel px ch bound px_end pos s :
  bound ≤ pos → enc_loop fuel px ch bound px_end pos s = Ret s.
Proof.
  intros. destruct fuel; simpl; by rewrite (proj2 (Z.ltb_ge _ _)) by done.
Qed.

Lemma enc_loop_step fuel px ch bound px_end pos s :
  pos < bound →
  enc_loop (S fuel) px ch bound px_end pos s =
    enc_iter px ch px_end pos s
    ≫= enc_loop fuel px ch bound px_end (u32 (pos + ch)).
Proof. intros. simpl. by rewrite (proj2 (Z.ltb_lt _ _)) by done. Qed.

Lemma dec_loop_done fuel bytes px_chunks ch bound pos s :
  bound ≤ pos → dec_loop fuel bytes px_chunks ch bound pos s = Ret s.
Proof.
  intros. destruct fuel; simpl; by rewrite (proj2 (Z.ltb_ge _ _)) by done.
Qed.

Lemma dec_loop_step fuel bytes px_chunks ch bound pos s :
  pos < bound →
  dec_loop (S fuel) bytes px_chunks ch bound pos s =
    dec_iter bytes px_chunks ch pos s
    ≫= dec_loop fuel bytes px_chunks ch bound (u32 (pos + ch)).
Proof. intros. simpl. by rewrite (proj2 (Z.ltb_lt _ _)) by done. Qed.

#[global] Arguments enc_loop : simpl never.
#[global] Arguments dec_loop : simpl never.

Lemma enc_loop_ok ch ps : ∀ more pre fuel bound px_end out mem prev run
    bs mem' prev' run',
  ch = 3 ∨ ch = 4 → cursor_ok out →
  Z.of_nat (length (pre ++ flat ch ps ++ flat ch more)) + 4 < 4294967296 →
  bound = Z.of_nat (length pre) + ch * Z.of_nat (length ps) →
  px_end = bound + ch * Z.of_nat (length more) - ch →
  (length ps ≤ fuel)%nat →
  px_ok ch prev → Forall (px_ok ch) ps → 0 ≤ run < 62 →
  enc_run mem prev run ps more = (bs, mem', prev', run') →
  c_idx out + Z.of_nat (length bs) ≤ Z.of_nat (length (c_bytes out)) →
  ∃ out',
    enc_loop fuel (pre ++ flat ch ps ++ flat ch more) ch bound px_end
      (Z.of_nat (length pre)) (EncS out mem prev prev run)
      = Ret (EncS out' mem' prev' prev' run')
    ∧ cursor_ok out' ∧ c_idx out' = c_idx out + Z.of_nat (length bs)
    ∧ length (c_bytes out') = length (c_bytes out)
    ∧ written out' = written out ++ bs.
Proof.
  induction ps as [| p ps IH];
    intros more pre fuel bound px_end out mem prev run bs mem' prev' run'
      Hch Hok Hlen -> -> Hfuel Hprev Hps Hrun Hrun_eq Hroom.
  - simpl in Hrun_eq. injection Hrun_eq as <- <- <- <-.
    exists out. rewrite app_nil_r, enc_loop_done by (simpl; lia).
    simpl. split_and!; [done | done | lia | done | done].
  - apply Forall_cons in Hps as [Hp Hps].
    simpl in Hrun_eq.
    destruct (enc_chunk _ _ _ _ _) as [[chunk mem1] run1] eqn:E.
    destruct (enc_run mem1 _ _ _ _) as [[[b2 mem2] prev2] run2] eqn:E2.
    injection Hrun_eq as <- <- <- <-.
    pose proof E as E'.
    apply enc_chunk_props in E' as (Hchunk & Hrun1 & _ & _);
      [| apply Hp | apply Hprev | done].
    rewrite length_app, Nat2Z.inj_add in Hroom.
    rewrite !length_app, !Nat2Z.inj_add, !length_flat in Hlen by done.
    simpl length in Hlen.
    destruct fuel as [| fuel]; [simpl in Hfuel; lia |].
    rewrite enc_loop_step by (simpl length; lia).
    simpl flat. simpl length. rewrite <- (app_assoc (px_bytes ch p)).
    destruct (enc_iter_ok pre p (flat ch ps ++ flat ch more) ch
      (Z.of_nat (length pre) + ch * Z.of_nat (S (length ps))
       + ch * Z.of_nat (length more) - ch)
      out mem prev prev run chunk mem1 run1)
      as (out1 & -> & Hok1 & Hidx1 & Hlen1 & Hw1); try done; try lia.
    { intros ->. destruct Hprev as [_ Ha1], Hp as [_ Ha2].
      by rewrite Ha1, Ha2. }
    { rewrite <- E. f_equal.
      destruct (bool_decide_reflect (ps ++ more = [])) as [Hnil | Hnil].
      - apply app_eq_nil in Hnil as [-> ->]. simpl. apply Z.eqb_eq. lia.
      - apply Z.eqb_neq. assert (0 < length (ps ++ more))%nat as Hpos.
        { destruct (ps ++ more); [done | simpl; lia]. }
        rewrite length_app in Hpos. nia. }
    rewrite bind_Ret. rewrite u32_small by lia.
    replace (Z.of_nat (length pre) + ch)
      with (Z.of_nat (length (pre ++ px_bytes ch p)))
      by (rewrite length_app, Nat2Z.inj_add, length_px_bytes by done; lia).
    rewrite (app_assoc pre).
    destruct (IH more (pre ++ px_bytes ch p) fuel
      (Z.of_nat (length pre) + ch * Z.of_nat (S (length ps)))
      (Z.of_nat (length pre) + ch * Z.of_nat (S (length ps))
       + ch * Z.of_nat (length more) - ch)
      out1 mem1 p run1 b2 mem2 prev2 run2)
      as (out2 & -> & Hok2 & Hidx2 & Hlen2 & Hw2); try done; try lia.
    { rewrite !length_app, !Nat2Z.inj_add, !length_flat, length_px_bytes
        by done.
      lia. }
    { rewrite length_app, Nat2Z.inj_add, length_px_bytes by done. lia. }
    { simpl in Hfuel. lia. }
    exists out2. rewrite Hw2, Hw1, <- app_assoc.
    split_and!; try done; try congruence.
    rewrite length_app, Nat2Z.inj_add. lia.
Qed.

(** ** Big-endian words and the header *)

Lemma mask_byte v n m :
  0 ≤ n → Z.shiftr m n = 255 →
  Z.shiftr (Z.land m v) n = (v / 2 ^ n) mod 256.
Proof.
  intros Hn Hm. rewrite Z.shiftr_land, Hm.
  change 255 with (Z.ones 8).
  rewrite Z.land_comm, Z.land_ones, Z.shiftr_div_pow2 by lia. done.
Qed.

Lemma qoi_write_32_ok v c :
  cursor_ok c → c_idx c + 4 ≤ Z.of_nat (length (c_bytes c)) →
  ∃ c', qoi_write_32 v c = Ret c' ∧ cursor_ok c' ∧ c_idx c' = c_idx c + 4
        ∧ length (c_bytes c') = length (c_bytes c)
        ∧ written c' = written c ++ be32 v.
Proof.
  intros Hok Hroom. unfold qoi_write_32.
  destruct (put_ok (Z.shiftr (Z.land 0xff000000 v) 24) c)
    as (c1 & -> & Hok1 & Hi1 & Hl1 & Hw1); [done | lia |].
  rewrite bind_Ret.
  destruct (put_ok (Z.shiftr (Z.land 0x00ff0000 v) 16) c1)
    as (c2 & -> & Hok2 & Hi2 & Hl2 & Hw2); [done | lia |].
  rewrite bind_Ret.
  destruct (put_ok (Z.shiftr (Z.land 0x0000ff00 v) 8) c2)
    as (c3 & -> & Hok3 & Hi3 & Hl3 & Hw3); [done | lia |].
  rewrite bind_Ret.
  destruct (put_ok (Z.land 0x000000ff v) c3)
    as (c4 & -> & Hok4 & Hi4 & Hl4 & Hw4); [done | lia |].
  exists c4. split_and!; try done; try lia; try congruence.
  rewrite Hw4, Hw3, Hw2, Hw1, <- !app_assoc. simpl. unfold be32.
  rewrite (mask_byte v 24), (mask_byte v 16), (mask_byte v 8) by done.
  change 255 with (Z.ones 8).
  rewrite Z.land_comm, Z.land_ones by lia.
  change (2 ^ 24) with 16777216. change (2 ^ 16) with 65536.
  change (2 ^ 8) with 256.
  by rewrite !u8_small by (apply Z.mod_pos_bound; lia).
Qed.

Lemma lor_low x d n m :
  0 ≤ n → m = 2 ^ n → 0 ≤ d < m → Z.lor (x * m) d = x * m + d.
Proof.
  intros Hn -> Hd. symmetry. apply Z.add_nocarry_lor.
  apply Z.bits_inj'. intros i Hi.
  rewrite Z.land_spec, Z.bits_0.
  destruct (Z.lt_ge_cases i n).
  - by rewrite Z.mul_pow2_bits_low.
  - destruct (Z.eq_dec d 0) as [-> | Hd0].
    + by rewrite Z.bits_0, andb_false_r.
    + rewrite (Z.bits_above_log2 d i), andb_false_r; [done | lia |].
      apply Z.log2_lt_pow2; [lia |].
      eapply Z.lt_le_trans; [apply Hd |]. apply Z.pow_le_mono_r; lia.
Qed.

Lemma read_be32 a b c d :
  is_byte a → is_byte b → is_byte c → is_byte d →
  u32 (Z.lor (Z.lor (Z.lor (u32 (Z.shiftl a 24)) (u32 (Z.shiftl b 16)))
                    (u32 (Z.shiftl c 8))) d)
  = a * 16777216 + b * 65536 + c * 256 + d.
Proof.
  unfold is_byte. intros Ha Hb Hc Hd.
  rewrite !Z.shiftl_mul_pow2 by lia.
  change (2 ^ 24) with 16777216. change (2 ^ 16) with 65536.
  change (2 ^ 8) with 256.
  rewrite (u32_small (a * _)), (u32_small (b * _)), (u32_small (c * _)) by lia.
  rewrite (lor_low a (b * 65536) 24) by (done || lia).
  replace (a * 16777216 + b * 65536) with ((a * 256 + b) * 65536) by lia.
  rewrite (lor_low _ (c * 256) 16) by (done || lia).
  replace ((a * 256 + b) * 65536 + c * 256)
    with ((a * 65536 + b * 256 + c) * 256) by lia.
  rewrite (lor_low _ d 8) by (done || lia).
  rewrite u32_small by lia. lia.
Qed.

Lemma be32_value v :
  0 ≤ v < 4294967296 →
  v / 16777216 mod 256 * 16777216 + v / 65536 mod 256 * 65536
  + v / 256 mod 256 * 256 + v mod 256 = v.
Proof. intros. Z.to_euclidean_division_equations. lia. Qed.

(** ** Valid input of the encoder *)

Lemma enc_valid_bounds desc :
  desc_wf desc → enc_invalid desc = false →
  0 < width desc ∧ 0 < height desc ∧ width desc * height desc < 400000000
  ∧ (channels desc = 3 ∨ channels desc = 4) ∧ 0 ≤ colorspace desc ≤ 1.
Proof.
  intros (Hw & Hh & Hc & Hs). unfold enc_invalid, QOI_MAXIMUM_PIXELS.
  intros H. repeat (apply orb_false_iff in H as [H ?]). bool_hyps.
  assert (channels desc = 3 ∨ channels desc = 4) as Hch.
  { match goal with H : negb _ && negb _ = false |- _ =>
      apply andb_false_iff in H as [H | H]; apply negb_false_iff in H
    end; bool_hyps; auto. }
  split_and!; try lia; try done.
  assert (0 < width desc) by lia.
  assert (height desc + 1 ≤ 400000000 / width desc) as Hle by lia.
  pose proof (Z.mul_div_le 400000000 (width desc) ltac:(done)).
  nia.
Qed.

(** A descriptor that passes the guard passes the assertions. *)
Lemma enc_asserts_ok desc :
  desc_wf desc → enc_invalid desc = false → enc_asserts desc = true.
Proof.
  intros Hwf Hv.
  destruct (enc_valid_bounds desc Hwf Hv) as (? & ? & _ & Hch & ?).
  unfold enc_invalid in Hv. apply orb_false_iff in Hv as [_ Hv].
  apply Z.leb_gt in Hv. unfold enc_asserts.
  rewrite !andb_true_iff, orb_true_iff, !Z.ltb_lt, Z.leb_le, !Z.eqb_eq.
  split_and!; try done; lia.
Qed.

Lemma enc_sizes desc :
  desc_wf desc → enc_invalid desc = false →
  enc_capacity desc = width desc * height desc * (channels desc + 1) + 22
  ∧ enc_px_len desc = width desc * height desc * channels desc
  ∧ enc_px_end desc = width desc * height desc * channels desc - channels desc.
Proof.
  intros Hwf Hv. destruct (enc_valid_bounds desc) as (? & ? & ? & Hch & ?);
    [done.. |].
  unfold enc_capacity, enc_px_end, enc_px_len, QOI_HEADER_SIZE.
  assert (0 < width desc * height desc) by nia.
  rewrite (u32_small (width desc * height desc)) by lia.
  rewrite !(u32_small (width desc * height desc * _)) by (destruct Hch; lia).
  rewrite (u32_small (_ + 14)) by (destruct Hch; lia).
  rewrite (u32_small (_ + 8)), (u32_small (_ - _)) by (destruct Hch; lia).
  lia.
Qed.

Lemma enc_start_ok ndebug malloc desc :
  desc_wf desc → enc_invalid desc = false → malloc (enc_capacity desc) = true →
  ∃ out,
    enc_start ndebug malloc desc = Ret (EncS out start_mem start_px start_px 0)
    ∧ cursor_ok out ∧ c_idx out = 14
    ∧ Z.of_nat (length (c_bytes out)) = enc_capacity desc
    ∧ written out = header_bytes desc.
Proof.
  intros Hwf Hv Hm. unfold enc_start.
  rewrite (enc_asserts_ok desc Hwf Hv), andb_false_r, Hv, Hm.
  simpl negb. cbv iota.
  destruct (enc_valid_bounds desc) as (? & ? & ? & Hch & ?); [done.. |].
  destruct (enc_sizes desc) as (Hcap & _); [done.. |].
  assert (22 < enc_capacity desc < 4294967296) as H3 by (destruct Hch; nia).
  set (out0 := Cursor _ 0).
  assert (cursor_ok out0 ∧ Z.of_nat (length (c_bytes out0)) = enc_capacity desc
          ∧ c_idx out0 = 0 ∧ written out0 = []) as (Hok0 & Hl0 & Hi0 & Hw0).
  { unfold cursor_ok, out0. cbn [c_bytes c_idx]. rewrite length_replicate.
    split_and!; try done; lia. }
  clearbody out0.
  destruct (qoi_write_32_ok QOI_MAGIC out0)
    as (c1 & -> & Hok1 & Hi1 & Hl1 & Hw1); [done | lia |].
  rewrite bind_Ret.
  destruct (qoi_write_32_ok (width desc) c1)
    as (c2 & -> & Hok2 & Hi2 & Hl2 & Hw2); [done | lia |].
  rewrite bind_Ret.
  destruct (qoi_write_32_ok (height desc) c2)
    as (c3 & -> & Hok3 & Hi3 & Hl3 & Hw3); [done | lia |].
  rewrite bind_Ret.
  destruct (put_ok (channels desc) c3)
    as (c4 & -> & Hok4 & Hi4 & Hl4 & Hw4); [done | lia |].
  rewrite bind_Ret.
  destruct (put_ok (colorspace desc) c4)
    as (c5 & -> & Hok5 & Hi5 & Hl5 & Hw5); [done | lia |].
  rewrite bind_Ret. exists c5.
  split_and!; [done | done | lia | congruence |].
  rewrite Hw5, Hw4, Hw3, Hw2, Hw1, Hw0. unfold header_bytes.
  rewrite !u8_small by (destruct Hch; lia).
  by rewrite <- !app_assoc.
Qed.

(** When [qoi_encode] returns, its allocation has succeeded. *)
Lemma qoi_encode_Ret_malloc ndebug malloc data desc bytes size :
  desc_wf desc → enc_invalid desc = false →
  qoi_encode ndebug malloc data desc = Ret (bytes, size) →
  malloc (enc_capacity desc) = true.
Proof.
  intros Hwf Hv. unfold qoi_encode, enc_start.
  rewrite (enc_asserts_ok desc Hwf Hv), andb_false_r, Hv.
  by destruct (malloc _).
Qed.

Lemma length_to_pixels ch n data : length (to_pixels ch n data) = n.
Proof. revert data. induction n; intros; simpl; [done | by rewrite IHn]. Qed.

Lemma to_pixels_spec ch n data :
  ch = 3 ∨ ch = 4 → Forall is_byte data →
  Z.of_nat (length data) = Z.of_nat n * ch →
  flat ch (to_pixels ch n data) = data
  ∧ Forall (px_ok ch) (to_pixels ch n data).
Proof.
  intros Hch. revert data. induction n as [| n IH]; intros data Hb Hlen.
  - destruct data; [done | simpl in Hlen; lia].
  - simpl to_pixels. simpl flat.
    destruct (IH (drop (Z.to_nat ch) data)) as [IH1 IH2].
    { by apply Forall_drop. }
    { rewrite length_drop. lia. }
    rewrite IH1. split.
    + rewrite <- (take_drop (Z.to_nat ch) data) at 5. f_equal.
      destruct Hch as [-> | ->]; unfold px_bytes; simpl.
      * destruct data as [| a [| b [| c data]]]; simpl in Hlen; try lia. done.
      * destruct data as [| a [| b [| c [| d data]]]]; simpl in Hlen; try lia.
        done.
    + constructor; [| done]. unfold px_ok, px_valid; simpl.
      destruct Hch as [-> | ->]; simpl.
      * destruct data as [| a [| b [| c data]]]; simpl in Hlen; try lia.
        repeat (apply Forall_cons in Hb as [? Hb]). simpl.
        unfold is_byte in *. split_and!; try done; lia.
      * destruct data as [| a [| b [| c [| d data]]]]; simpl in Hlen; try lia.
        repeat (apply Forall_cons in Hb as [? Hb]). simpl.
        unfold is_byte in *. split_and!; try done; lia.
Qed.

(** ** The output of [qoi_encode] *)

Lemma start_px_ok ch : px_ok ch start_px.
Proof. unfold px_ok, px_valid, start_px. simpl. split_and!; (done || lia). Qed.

Lemma chunks_of_length ch ps :
  ch = 3 ∨ ch = 4 → Forall (px_ok ch) ps →
  Z.of_nat (length (chunks_of ps)) ≤ (ch + 1) * Z.of_nat (length ps).
Proof.
  intros Hch Hps. unfold chunks_of.
  destruct (enc_run _ _ _ _ _) as [[[bs mem'] prev'] run'] eqn:E.
  pose proof (enc_run_length ch _ _ 0 _ _ _ _ _ _ Hch (start_px_ok ch) Hps
    ltac:(lia) E) as Hlen.
  simpl in *. destruct (0 <? run'); lia.
Qed.

Lemma pixels_of_spec data desc :
  valid_image data desc →
  flat (channels desc) (pixels_of data desc) = data
  ∧ Forall (px_ok (channels desc)) (pixels_of data desc)
  ∧ Z.of_nat (length (pixels_of data desc)) = width desc * height desc.
Proof.
  intros (Hwf & Hv & Hbytes & Hlen).
  destruct (enc_valid_bounds desc) as (Hw & Hh & Hwh & Hch & Hcs); [done.. |].
  unfold pixels_of. rewrite length_to_pixels.
  destruct (to_pixels_spec (channels desc)
    (Z.to_nat (width desc * height desc)) data) as [Hflat Hps];
    [done | done | lia |].
  split_and!; [done | done | lia].
Qed.

Lemma qoi_encode_ok ndebug malloc data desc :
  valid_image data desc → malloc (enc_capacity desc) = true →
  ∃ bytes size,
    qoi_encode ndebug malloc data desc = Ret (bytes, size)
    ∧ Z.of_nat (length bytes) = enc_capacity desc
    ∧ size = 14 + Z.of_nat (length (chunks_of (pixels_of data desc))) + 8
    ∧ size ≤ enc_capacity desc
    ∧ take (Z.to_nat size) bytes
      = header_bytes desc ++ chunks_of (pixels_of data desc) ++ qoi_padding.
Proof.
  intros Hvalid.
  destruct (pixels_of_spec data desc Hvalid) as (Hflat & Hps & Hn).
  revert Hvalid. unfold pixels_of in *.
  intros (Hwf & Hv & Hbytes & Hlen) Hm.
  destruct (enc_valid_bounds desc) as (Hw & Hh & Hwh & Hch & Hcs); [done.. |].
  destruct (enc_sizes desc) as (Hcap & Hpx_len & Hpx_end); [done.. |].
  set (ch := channels desc) in *.
  set (n := Z.to_nat (width desc * height desc)) in *.
  set (ps := to_pixels ch n data) in *.
  pose proof (chunks_of_length ch ps Hch Hps) as Hchunks.
  unfold chunks_of in *.
  destruct (enc_run _ _ _ ps []) as [[[bs mem'] prev'] run'] eqn:E.
  cbn [fst] in Hchunks.
  unfold qoi_encode.
  destruct (enc_start_ok ndebug malloc desc)
    as (out0 & -> & Hok0 & Hi0 & Hl0 & Hw0); [done.. |].
  rewrite bind_Ret. cbv zeta.
  destruct (enc_loop_ok ch ps [] [] (Z.to_nat (enc_px_len desc))
    (enc_px_len desc) (enc_px_end desc) out0 start_mem start_px 0
    bs mem' prev' run')
    as (out1 & Hloop & Hok1 & Hi1 & Hl1 & Hw1).
  { done. }
  { done. }
  { simpl. rewrite app_nil_r, Hflat. destruct Hch; lia. }
  { simpl. lia. }
  { simpl. lia. }
  { lia. }
  { apply start_px_ok. }
  { done. }
  { lia. }
  { done. }
  { destruct Hch; lia. }
  simpl in Hloop. rewrite app_nil_r, Hflat in Hloop. fold ch.
  change (Z.of_nat 0) with 0 in Hloop.
  rewrite Hloop, bind_Ret. cbn [e_out].
  destruct (put_all_ok qoi_padding out1)
    as (out2 & -> & Hok2 & Hi2 & Hl2 & Hw2);
    [done | simpl; destruct Hch; lia |].
  rewrite bind_Ret. simpl length in Hi2.
  assert (s32 (c_idx out2) = c_idx out2) as ->.
  { unfold s32. destruct Hch; mod_lia. }
  exists (c_bytes out2), (c_idx out2). cbn [fst].
  split_and!; try done; try lia; try (destruct Hch; lia).
  fold (written out2). rewrite Hw2, Hw1, Hw0, <- app_assoc. done.
Qed.

(** ** One iteration of the decoder *)

Lemma store_ok bytes i v :
  0 ≤ i < Z.of_nat (length bytes) →
  store bytes i v = Ret (<[Z.to_nat i := u8 v]> bytes).
Proof.
  intros Hi. unfold store.
  by rewrite (proj2 (Z.leb_le _ _)), (proj2 (Z.ltb_lt _ _)) by lia.
Qed.

Lemma take_insert_snoc (l : list Z) (i : nat) v :
  (i < length l)%nat → take (S i) (<[i := v]> l) = take i l ++ [v].
Proof.
  intros Hi. rewrite (take_S_r _ _ v).
  - by rewrite take_insert_ge by lia.
  - by apply list_lookup_insert_eq.
Qed.

Lemma dec_emit_ok ch pos idx mem px p run :
  ch = 3 ∨ ch = 4 → 0 ≤ pos →
  pos + ch ≤ Z.of_nat (length px) → Z.of_nat (length px) < 4294967296 →
  ∃ px',
    dec_emit ch pos (DecS idx mem px p run) = Ret (DecS idx mem px' p run)
    ∧ length px' = length px
    ∧ take (Z.to_nat (pos + ch)) px'
      = take (Z.to_nat pos) px ++ (u8 <$> px_bytes ch p)
    ∧ drop (Z.to_nat (pos + ch)) px' = drop (Z.to_nat (pos + ch)) px.
Proof.
  intros Hch Hpos Hlen Hlt. unfold dec_emit, px_bytes.
  rewrite !u32_small by lia. rewrite Z.add_0_r.
  destruct Hch as [-> | ->]; simpl Z.eqb; cbv iota.
  - rewrite store_ok by lia. rewrite bind_Ret.
    rewrite store_ok by (rewrite !length_insert; lia). rewrite bind_Ret.
    rewrite store_ok by (rewrite !length_insert; lia). rewrite bind_Ret.
    eexists. split; [done |]. rewrite !length_insert.
    split_and!; [done | |].
    + replace (Z.to_nat (pos + 3)) with (S (S (S (Z.to_nat pos)))) by lia.
      replace (Z.to_nat (pos + 2)) with (S (S (Z.to_nat pos))) by lia.
      replace (Z.to_nat (pos + 1)) with (S (Z.to_nat pos)) by lia.
      rewrite take_insert_snoc by (rewrite !length_insert; lia).
      rewrite take_insert_snoc by (rewrite !length_insert; lia).
      rewrite take_insert_snoc by lia.
      by rewrite <- !app_assoc.
    + rewrite !drop_insert_lt by lia. done.
  - rewrite store_ok by lia. rewrite bind_Ret.
    rewrite store_ok by (rewrite !length_insert; lia). rewrite bind_Ret.
    rewrite store_ok by (rewrite !length_insert; lia). rewrite bind_Ret.
    rewrite store_ok by (rewrite !length_insert; lia). rewrite bind_Ret.
    eexists. split; [done |]. rewrite !length_insert.
    split_and!; [done | |].
    + replace (Z.to_nat (pos + 4)) with (S (S (S (S (Z.to_nat pos))))) by lia.
      replace (Z.to_nat (pos + 3)) with (S (S (S (Z.to_nat pos)))) by lia.
      replace (Z.to_nat (pos + 2)) with (S (S (Z.to_nat pos))) by lia.
      replace (Z.to_nat (pos + 1)) with (S (Z.to_nat pos)) by lia.
      rewrite take_insert_snoc by (rewrite !length_insert; lia).
      rewrite take_insert_snoc by (rewrite !length_insert; lia).
      rewrite take_insert_snoc by (rewrite !length_insert; lia).
      rewrite take_insert_snoc by lia.
      by rewrite <- !app_assoc.
    + rewrite !drop_insert_lt by lia. done.
Qed.

Lemma px_bytes_valid ch p : px_valid p → Forall is_byte (px_bytes ch p).
Proof.
  intros (? & ? & ? & ?). unfold px_bytes.
  destruct (ch =? 4); repeat (apply Forall_cons; split; [done |]); done.
Qed.

Lemma dec_chunk_replay bytes px_chunks idx mem px curr run :
  0 < run < 256 →
  dec_chunk bytes px_chunks (DecS idx mem px curr run)
    = Ret (DecS idx mem px curr (run - 1)).
Proof.
  intros Hrun. unfold dec_chunk.
  rewrite (proj2 (Z.ltb_lt _ _)) by lia. by rewrite u8_small by lia.
Qed.

Lemma dec_chunk_exhausted bytes px_chunks s :
  d_run s ≤ 0 → px_chunks ≤ d_idx s → dec_chunk bytes px_chunks s = Ret s.
Proof.
  destruct s as [idx mem px curr run]. simpl. intros Hrun Hidx.
  unfold dec_chunk.
  by rewrite (proj2 (Z.ltb_ge _ _)), (proj2 (Z.ltb_ge _ _)) by lia.
Qed.

Lemma dec_chunk_run bytes px_chunks idx mem px curr k :
  0 ≤ idx < px_chunks → idx < 4294967295 → 0 ≤ k < 62 →
  bytes !! Z.to_nat idx = Some (Z.lor QOI_OP_RUN k) →
  dec_chunk bytes px_chunks (DecS idx mem px curr 0)
    = Ret (DecS (idx + 1) (<[Z.to_nat (qoi_hash curr) := curr]> mem) px curr k).
Proof.
  intros Hidx Hlt Hk Hb. unfold dec_chunk.
  change (0 <? 0) with false. cbv iota.
  rewrite (proj2 (Z.ltb_lt idx px_chunks)) by lia.
  rewrite (get_Some bytes idx _ ltac:(lia) Hb), bind_Ret.
  destruct (run_byte_spec k Hk) as (Hr & Hmask & Hlow).
  unfold dec_opcode.
  rewrite (proj2 (Z.eqb_neq _ QOI_OP_RGBA)) by (unfold QOI_OP_RGBA; lia).
  rewrite (proj2 (Z.eqb_neq _ QOI_OP_RGB)) by (unfold QOI_OP_RGB; lia).
  rewrite Hmask, Hlow. done.
Qed.

Lemma dec_chunk_index bytes px_chunks idx mem px curr h :
  0 ≤ idx < px_chunks → idx < 4294967295 → 0 ≤ h < 64 →
  bytes !! Z.to_nat idx = Some h →
  dec_chunk bytes px_chunks (DecS idx mem px curr 0)
    = Ret (DecS (idx + 1)
             (<[Z.to_nat (qoi_hash (mem !!! Z.to_nat h)) := mem !!! Z.to_nat h]> mem)
             px (mem !!! Z.to_nat h) 0).
Proof.
  intros Hidx Hlt Hh Hb. unfold dec_chunk.
  change (0 <? 0) with false. cbv iota.
  rewrite (proj2 (Z.ltb_lt idx px_chunks)) by lia.
  rewrite (get_Some bytes idx _ ltac:(lia) Hb), bind_Ret.
  destruct (index_byte_spec h Hh) as (_ & Hmask).
  unfold dec_opcode.
  rewrite (proj2 (Z.eqb_neq _ QOI_OP_RGBA)) by (unfold QOI_OP_RGBA; lia).
  rewrite (proj2 (Z.eqb_neq _ QOI_OP_RGB)) by (unfold QOI_OP_RGB; lia).
  rewrite Hmask. done.
Qed.

Lemma bytes_at_app pre chunk post :
  bytes_at (pre ++ chunk ++ post) (Z.of_nat (length pre)) chunk.
Proof.
  intros k b Hk i ->.
  replace (Z.to_nat _) with (length pre + k)%nat by lia.
  rewrite lookup_app_r, Nat.add_sub' by lia. by apply lookup_app_l_Some.
Qed.

Lemma bytes_at_app_l bytes idx c1 c2 :
  bytes_at bytes idx (c1 ++ c2) → bytes_at bytes idx c1.
Proof. intros H k b Hk. apply H. by apply lookup_app_l_Some. Qed.

Lemma bytes_at_app_r bytes idx c1 c2 :
  bytes_at bytes idx (c1 ++ c2) →
  bytes_at bytes (idx + Z.of_nat (length c1)) c2.
Proof.
  intros H k b Hk i ->. apply (H (length c1 + k)%nat); [| lia].
  by rewrite lookup_app_r, Nat.add_sub' by lia.
Qed.

Ltac read_byte Hat n :=
  match goal with
  | |- context [get ?bytes ?i] =>
      rewrite (get_Some bytes i _ ltac:(lia) (Hat n _ eq_refl i ltac:(lia))),
        bind_Ret
  end.

Lemma dec_chunk_new bytes px_chunks idx mem px prev p :
  px_valid p → px_valid prev → 0 ≤ idx < px_chunks → idx + 5 < 4294967296 →
  bytes_at bytes idx (new_pixel_bytes p prev) →
  dec_chunk bytes px_chunks (DecS idx mem px prev 0)
    = Ret (DecS (idx + Z.of_nat (length (new_pixel_bytes p prev)))
             (<[Z.to_nat (qoi_hash p) := p]> mem) px p 0).
Proof.
  intros (? & ? & ? & ?) (? & ? & ? & ?) Hidx Hlt Hat. unfold dec_chunk.
  change (0 <? 0) with false. cbv iota.
  rewrite (proj2 (Z.ltb_lt idx px_chunks)) by lia.
  unfold new_pixel_bytes in *.
  destruct (Z.eqb_spec (rgba_a p) (rgba_a prev)) as [Ha | Ha].
  - lazymatch type of Hat with
    | context [if ?b then _ else _] => destruct b eqn:Ediff
    end; bool_hyps.
    + (* DIFF *)
      set (x := s8 (rgba_r p - rgba_r prev) + 2) in *.
      set (y := s8 (rgba_g p - rgba_g prev) + 2) in *.
      set (z := s8 (rgba_b p - rgba_b prev) + 2) in *.
      fold (diff_byte x y z) in Hat |- *.
      destruct (diff_byte_spec x y z) as (Hr & Hmask & Hx & Hy & Hz);
        [lia.. |].
      read_byte Hat 0%nat. unfold dec_opcode.
      rewrite (proj2 (Z.eqb_neq _ QOI_OP_RGBA)) by (unfold QOI_OP_RGBA; lia).
      rewrite (proj2 (Z.eqb_neq _ QOI_OP_RGB)) by (unfold QOI_OP_RGB; lia).
      rewrite Hmask, Hx, Hy, Hz. simpl. rewrite <- Ha.
      assert (u8 (rgba_r prev + (x - 2)) = rgba_r p) as ->
        by (subst x; mod_lia).
      assert (u8 (rgba_g prev + (y - 2)) = rgba_g p) as ->
        by (subst y; mod_lia).
      assert (u8 (rgba_b prev + (z - 2)) = rgba_b p) as ->
        by (subst z; mod_lia).
      by destruct p.
    + lazymatch type of Hat with
      | context [if ?b then _ else _] => destruct b eqn:Eluma
      end; bool_hyps.
      * (* LUMA *)
        set (dg := s8 (rgba_g p - rgba_g prev)) in *.
        destruct (luma_byte1_spec (dg + 32)) as (Hr & Hmask & Hlow); [lia |].
        match type of Hat with
        | context [Z.lor (Z.shiftl ?x 4) ?y] =>
            destruct (luma_byte2_spec x y) as (Hr2 & Hhi & Hlo); [lia | lia |]
        end.
        read_byte Hat 0%nat. unfold dec_opcode.
        rewrite (proj2 (Z.eqb_neq _ QOI_OP_RGBA)) by (unfold QOI_OP_RGBA; lia).
        rewrite (proj2 (Z.eqb_neq _ QOI_OP_RGB)) by (unfold QOI_OP_RGB; lia).
        rewrite Hmask. simpl Z.eqb. cbv iota.
        read_byte Hat 1%nat.
        rewrite Hlow, Hhi, Hlo. simpl length.
        replace (dg + 32 - 32) with dg by lia.
        rewrite (s8_small dg) by lia.
        rewrite !u8_add_luma by done.
        unfold dg. rewrite u8_add_s8 by done. rewrite <- Ha.
        replace (idx + 1 + 1) with (idx + Z.of_nat 2) by lia.
        by destruct p.
      * (* RGB *)
        read_byte Hat 0%nat. unfold dec_opcode. simpl Z.eqb. cbv iota.
        read_byte Hat 1%nat. read_byte Hat 2%nat. read_byte Hat 3%nat.
        rewrite <- Ha. simpl length.
        replace (idx + 1 + 1 + 1 + 1) with (idx + Z.of_nat 4) by lia.
        by destruct p.
  - (* RGBA *)
    read_byte Hat 0%nat. unfold dec_opcode. simpl Z.eqb. cbv iota.
    read_byte Hat 1%nat. read_byte Hat 2%nat. read_byte Hat 3%nat.
    read_byte Hat 4%nat. simpl length.
    replace (idx + 1 + 1 + 1 + 1 + 1) with (idx + Z.of_nat 5) by lia.
    by destruct p.
Qed.

(** ** The two tables *)

Lemma hash_nat_lt p : (Z.to_nat (qoi_hash p) < 64)%nat.
Proof. pose proof (qoi_hash_range p). lia. Qed.

Lemma tables_agree_run me md prev :
  length md = 64%nat → tables_agree me md → prev_in_table me prev →
  tables_agree me (<[Z.to_nat (qoi_hash prev) := prev]> md).
Proof.
  intros Hmd Hag HJ h Hh.
  destruct (decide (Z.to_nat (qoi_hash prev) = h)) as [<- | Hne].
  - rewrite list_lookup_total_insert_eq by (rewrite Hmd; apply hash_nat_lt).
    destruct HJ as [-> | [-> Hz]]; [by left |].
    right. done.
  - rewrite list_lookup_total_insert_ne by done. by apply Hag.
Qed.

Lemma tables_agree_new me md p :
  length me = 64%nat → length md = 64%nat → tables_agree me md →
  tables_agree (<[Z.to_nat (qoi_hash p) := p]> me)
               (<[Z.to_nat (qoi_hash p) := p]> md).
Proof.
  intros Hme Hmd Hag h Hh.
  destruct (decide (Z.to_nat (qoi_hash p) = h)) as [<- | Hne].
  - left. by rewrite !list_lookup_total_insert_eq
      by (rewrite ?Hme, ?Hmd; apply hash_nat_lt).
  - rewrite !list_lookup_total_insert_ne by done. by apply Hag.
Qed.

Lemma tables_agree_index me md p :
  tables_agree me md → me !!! Z.to_nat (qoi_hash p) = p →
  md !!! Z.to_nat (qoi_hash p) = p.
Proof.
  intros Hag Hp.
  destruct (Hag _ (hash_nat_lt p)) as [-> | (H53 & Hz & _)]; [done |].
  rewrite Hp in Hz. subst p. vm_compute in H53. done.
Qed.

Lemma tables_agree_start : tables_agree start_mem start_mem.
Proof. intros h _. by left. Qed.

Lemma prev_in_table_start : prev_in_table start_mem start_px.
Proof. right. done. Qed.

(** A pending run announces itself: the next byte of the stream is the RUN
    chunk that will close it. *)
Lemma pending_head rest : ∀ me prev run,
  0 < run < 62 → rest ≠ [] →
  ∃ L tl, (enc_run me prev run rest []).1.1.1 = Z.lor QOI_OP_RUN (L - 1) :: tl
          ∧ run ≤ L ≤ 62.
Proof.
  induction rest as [| p rest IH]; intros me prev run Hrun Hne; [done |].
  simpl. unfold enc_chunk, QOI_MAXIMUM_RUN.
  rewrite (u8_small (run + 1)) by lia. rewrite app_nil_r.
  destruct (rgba_eqb p prev).
  - destruct (_ || _) eqn:Hflush.
    + destruct (enc_run me p 0 rest []) as [[[bs m'] p'] r'].
      exists (run + 1), bs. simpl. split; [done | lia].
    + bool_hyps.
      destruct (IH me p (run + 1)) as (L & tl & Heq & HL); [lia | done |].
      destruct (enc_run me p (run + 1) rest []) as [[[bs m'] p'] r'].
      simpl in *. exists L, tl. split; [done | lia].
  - rewrite (proj2 (Z.ltb_lt 0 run)) by lia.
    destruct (rgba_eqb p _).
    + destruct (enc_run me p 0 rest []) as [[[bs m'] p'] r'].
      exists run, ([Z.lor QOI_OP_INDEX (qoi_hash p)] ++ bs). simpl.
      split; [done | lia].
    + destruct (enc_run _ p 0 rest []) as [[[bs m'] p'] r'].
      exists run, (new_pixel_bytes p prev ++ bs). simpl.
      split; [done | lia].
Qed.

Lemma run_byte_inj j k :
  0 ≤ j < 62 → 0 ≤ k < 62 → Z.lor QOI_OP_RUN j = Z.lor QOI_OP_RUN k → j = k.
Proof.
  intros Hj Hk Heq.
  destruct (run_byte_spec j Hj) as (_ & _ & <-).
  destruct (run_byte_spec k Hk) as (_ & _ & <-). by rewrite Heq.
Qed.

(** ** Encoder and decoder in lockstep *)

Lemma bytes_at_head bytes w b tl :
  0 ≤ w → bytes_at bytes w (b :: tl) → bytes !! Z.to_nat w = Some b.
Proof. intros Hw Hat. apply (Hat 0%nat); [done | lia]. Qed.

Lemma lockstep_chunk bytes px_chunks me md prev run w p rest idx rund px
    chunk me' run' fut :
  px_valid prev → px_valid p → 0 ≤ run < 62 →
  length me = 64%nat → length md = 64%nat →
  prev_in_table me prev → tables_agree me md → 0 ≤ w →
  enc_chunk me prev run p (bool_decide (rest = [])) = (chunk, me', run') →
  fut = (enc_run me' p run' rest []).1.1.1 →
  bytes_at bytes w (chunk ++ fut) →
  px_chunks = w + Z.of_nat (length chunk) + Z.of_nat (length fut) →
  px_chunks + 5 < 4294967296 →
  run_link bytes run w idx rund →
  ∃ idx' md' rund',
    dec_chunk bytes px_chunks (DecS idx md px prev rund)
      = Ret (DecS idx' md' px p rund')
    ∧ length md' = 64%nat ∧ tables_agree me' md' ∧ prev_in_table me' p
    ∧ run_link bytes run' (w + Z.of_nat (length chunk)) idx' rund'.
Proof.
  intros Hprev Hp Hrun Hme Hmd HJ Hag Hw Hchunk -> Hat -> Hsize Hlink.
  unfold enc_chunk, QOI_MAXIMUM_RUN in Hchunk.
  rewrite (u8_small (run + 1)) in Hchunk by lia.
  unfold run_link in Hlink.
  destruct (rgba_eqb p prev) eqn:Heq.
  - apply rgba_eqb_eq in Heq as ->.
    destruct (_ || _) eqn:Hflush; injection Hchunk as <- <- <-.
    + (* the run is closed by this pixel *)
      pose proof (bytes_at_head _ _ _ _ Hw Hat) as Hb.
      simpl length in *.
      destruct (Z.eqb_spec run 0) as [-> | Hne].
      * destruct Hlink as [-> ->].
        exists (w + 1), (<[Z.to_nat (qoi_hash prev) := prev]> md), 0.
        rewrite (dec_chunk_run _ _ _ _ _ _ 0) by (done || lia).
        split_and!; try done.
        -- by rewrite length_insert.
        -- by apply tables_agree_run.
      * destruct Hlink as (-> & Hr0 & Hr1 & Hb').
        rewrite Hb in Hb'. injection Hb' as Hb'.
        apply run_byte_inj in Hb'; [| lia..].
        assert (rund = 1) as -> by lia.
        exists (w + 1), md, 0.
        rewrite dec_chunk_replay by lia. done.
    + (* the run goes on *)
      bool_hyps. simpl app in Hat. simpl length in *.
      destruct (pending_head rest me prev (run + 1)) as (L & tl & Hfut & HL);
        [lia | done |].
      rewrite Hfut in *. simpl length in *.
      pose proof (bytes_at_head _ _ _ _ Hw Hat) as Hb.
      destruct (Z.eqb_spec run 0) as [-> | Hne].
      * destruct Hlink as [-> ->].
        exists (w + 1), (<[Z.to_nat (qoi_hash prev) := prev]> md), (L - 1).
        rewrite (dec_chunk_run _ _ _ _ _ _ (L - 1)) by (done || lia).
        split_and!; try done.
        -- by rewrite length_insert.
        -- by apply tables_agree_run.
        -- unfold run_link. simpl Z.eqb. cbv iota.
           replace (0 + 1 + (L - 1) - 1) with (L - 1) by lia.
           rewrite Z.add_0_r. split_and!; (done || lia).
      * destruct Hlink as (-> & Hr0 & Hr1 & Hb').
        rewrite Hb in Hb'. injection Hb' as Hb'.
        apply run_byte_inj in Hb'; [| lia..].
        exists (w + 1), md, (rund - 1).
        rewrite dec_chunk_replay by lia.
        split_and!; try done.
        unfold run_link. rewrite (proj2 (Z.eqb_neq (run + 1) 0)) by lia.
        rewrite Z.add_0_r.
        replace (run + 1 + (rund - 1) - 1) with (L - 1) by lia.
        split_and!; (done || lia).
  - apply rgba_eqb_neq in Heq.
    assert ((if 0 <? run then 0 else run) = 0) as Hrun0.
    { destruct (Z.ltb_spec 0 run); lia. }
    rewrite Hrun0 in Hchunk.
    set (flush := if 0 <? run then [Z.lor QOI_OP_RUN (run - 1)] else [])
      in Hchunk.
    assert (idx = w + Z.of_nat (length flush) ∧ rund = 0) as [-> ->].
    { subst flush. destruct (Z.eqb_spec run 0) as [-> | Hne].
      - simpl. lia.
      - rewrite (proj2 (Z.ltb_lt 0 run)) in Hchunk |- * by lia.
        destruct Hlink as (-> & Hr0 & Hr1 & Hb'). simpl length.
        assert (bytes !! Z.to_nat w = Some (Z.lor QOI_OP_RUN (run - 1))) as Hb.
        { destruct (rgba_eqb p _); injection Hchunk as <- <- <-;
            by apply (bytes_at_head _ _ _ _ Hw Hat). }
        rewrite Hb in Hb'. injection Hb' as Hb'.
        apply run_byte_inj in Hb'; lia. }
    pose proof (qoi_hash_range p) as Hh.
    destruct (rgba_eqb p _) eqn:Hidx; injection Hchunk as <- <- <-.
    + (* INDEX *)
      apply rgba_eqb_eq in Hidx. symmetry in Hidx.
      pose proof (tables_agree_index _ _ _ Hag Hidx) as Hd.
      rewrite <- app_assoc in Hat. apply bytes_at_app_r in Hat.
      destruct (index_byte_spec _ Hh) as [Hbyte _]. rewrite Hbyte in *.
      pose proof (bytes_at_head bytes (w + Z.of_nat (length flush)) _ _
        ltac:(lia) Hat) as Hb.
      rewrite !length_app in *. simpl length in *.
      exists (w + Z.of_nat (length flush) + 1), md, 0.
      rewrite (dec_chunk_index _ _ _ _ _ _ (qoi_hash p)) by (done || lia).
      rewrite Hd. rewrite (list_insert_id md).
      2:{ rewrite list_lookup_lookup_total_lt
            by (rewrite Hmd; apply hash_nat_lt).
          by rewrite Hd. }
      split_and!; try done.
      * by left.
      * unfold run_link. simpl. lia.
    + (* DIFF, LUMA, RGB or RGBA *)
      rewrite <- app_assoc in Hat. apply bytes_at_app_r in Hat.
      apply bytes_at_app_l in Hat.
      destruct (new_pixel_bytes_length p prev) as [[Hl1 Hl5] _].
      rewrite !length_app in *.
      eexists _, _, 0.
      rewrite (dec_chunk_new _ _ _ _ _ prev p) by (done || lia).
      split_and!; [done | | | |].
      * by rewrite length_insert.
      * by apply tables_agree_new.
      * left. apply list_lookup_total_insert_eq. rewrite Hme.
        apply hash_nat_lt.
      * unfold run_link. simpl. lia.
Qed.

Section Lockstep.
Variables (bytes : list Z) (px_chunks ch : Z).
Hypothesis Hch : ch = 3 ∨ ch = 4.
Hypothesis Hsize : px_chunks + 5 < 4294967296.

Lemma lockstep_step me prev run w p rest done ds chunk me' run' :
  lockstep bytes px_chunks ch me prev run w (p :: rest) done ds →
  enc_chunk me prev run p (bool_decide (rest = [])) = (chunk, me', run') →
  ∃ ds',
    dec_iter bytes px_chunks ch (Z.of_nat (length done)) ds = Ret ds'
    ∧ lockstep bytes px_chunks ch me' p run' (w + Z.of_nat (length chunk)) rest
        (done ++ px_bytes ch p) ds'.
Proof using Hch Hsize.
  intros [Hprev Hrun Hme HJ Hrest Hlast Hw Hat Hchunks Hcurr Hmd Hag
          Hlen Hlt Hdone Hlink] Hchunk.
  destruct ds as [idx md px curr rund]. simpl in *. subst curr.
  apply Forall_cons in Hrest as [Hp Hrest].
  rewrite app_nil_r, Hchunk in Hat, Hchunks.
  destruct (enc_run me' p run' rest []) as [[[fut me2] prev2] run2] eqn:Efut.
  simpl in Hat, Hchunks.
  pose proof Hchunk as Hprops.
  apply enc_chunk_props in Hprops as (Hbytes & Hrun' & Hlast' & Hme');
    [| apply Hp | apply Hprev | done].
  destruct (lockstep_chunk bytes px_chunks me md prev run w p rest idx rund
    px chunk me' run' fut)
    as (idx' & md' & rund' & Hdec & Hmd' & Hag' & HJ' & Hlink');
    [apply Hprev | apply Hp | done.. | by rewrite Efut | done | | done | done
    |].
  { rewrite length_app, Nat2Z.inj_add in Hchunks. lia. }
  unfold dec_iter. rewrite Hdec, bind_Ret.
  destruct (dec_emit_ok ch (Z.of_nat (length done)) idx' md' px p rund')
    as (px' & -> & Hlpx & Htake & _); [done | lia | lia | done |].
  exists (DecS idx' md' px' p rund').
  split; [done |].
  rewrite fmap_u8_bytes in Htake by (apply px_bytes_valid, Hp).
  split; simpl; try done.
  - congruence.
  - intros ->. apply Hlast'. by apply bool_decide_eq_true.
  - lia.
  - rewrite Efut. simpl. by apply bytes_at_app_r in Hat.
  - rewrite Efut. simpl. rewrite length_app, Nat2Z.inj_add in Hchunks. lia.
  - rewrite Hlpx, length_app, Nat2Z.inj_add, length_px_bytes by done. lia.
  - by rewrite Hlpx.
  - rewrite length_app.
    replace (length done + length (px_bytes ch p))%nat
      with (Z.to_nat (Z.of_nat (length done) + ch))
      by (pose proof (length_px_bytes ch p Hch); lia).
    rewrite Htake, Nat2Z.id, Hdone. done.
Qed.

Lemma lockstep_loop ps1 : ∀ ps2 me prev run w done ds fuel bs me' prev' run',
  lockstep bytes px_chunks ch me prev run w (ps1 ++ ps2) done ds →
  (length ps1 ≤ fuel)%nat →
  enc_run me prev run ps1 ps2 = (bs, me', prev', run') →
  ∃ ds',
    dec_loop fuel bytes px_chunks ch
      (Z.of_nat (length done) + ch * Z.of_nat (length ps1))
      (Z.of_nat (length done)) ds = Ret ds'
    ∧ lockstep bytes px_chunks ch me' prev' run' (w + Z.of_nat (length bs)) ps2
        (done ++ flat ch ps1) ds'.
Proof using Hch Hsize.
  induction ps1 as [| p ps1 IH];
    intros ps2 me prev run w done ds fuel bs me' prev' run' Hls Hfuel Hrun.
  - simpl in Hrun. injection Hrun as <- <- <- <-.
    exists ds. rewrite dec_loop_done by (simpl; lia).
    simpl. by rewrite Z.add_0_r, app_nil_r.
  - simpl in Hrun.
    destruct (enc_chunk _ _ _ _ _) as [[chunk me1] run1] eqn:E.
    destruct (enc_run me1 _ _ _ _) as [[[b2 me2] prev2] run2] eqn:E2.
    injection Hrun as <- <- <- <-.
    destruct (lockstep_step me prev run w p (ps1 ++ ps2) done ds
      chunk me1 run1 Hls E) as (ds1 & Hiter & Hls1).
    destruct fuel as [| fuel]; [simpl in Hfuel; lia |].
    pose proof (ls_px_len _ _ _ _ _ _ _ _ _ _ Hls) as Hlen.
    pose proof (ls_px_lt _ _ _ _ _ _ _ _ _ _ Hls) as Hlt.
    simpl length in *. rewrite length_app in Hlen.
    rewrite dec_loop_step by (destruct Hch; lia).
    rewrite Hiter, bind_Ret. rewrite u32_small by (destruct Hch; lia).
    destruct (IH ps2 me1 p run1 (w + Z.of_nat (length chunk))
      (done ++ px_bytes ch p) ds1 fuel b2 me2 prev2 run2 Hls1
      ltac:(lia) E2) as (ds2 & Hloop & Hls2).
    exists ds2. split.
    + rewrite <- Hloop. f_equal.
      * rewrite length_app, Nat2Z.inj_add, length_px_bytes by done. lia.
      * rewrite length_app, Nat2Z.inj_add, length_px_bytes by done. lia.
    + simpl flat. rewrite length_app, Nat2Z.inj_add, app_assoc.
      by rewrite Z.add_assoc.
Qed.
End Lockstep.

(** ** The prologue of the decoder on a well-formed header *)

Lemma qoi_read_32_ok bytes idx a b c d :
  0 ≤ idx → idx + 4 < 4294967296 →
  is_byte a → is_byte b → is_byte c → is_byte d →
  bytes_at bytes idx [a; b; c; d] →
  qoi_read_32 bytes idx
    = Ret (a * 16777216 + b * 65536 + c * 256 + d, idx + 4).
Proof.
  intros Hidx Hlt Ha Hb Hc Hd Hat. unfold qoi_read_32.
  read_byte Hat 0%nat. read_byte Hat 1%nat. read_byte Hat 2%nat.
  read_byte Hat 3%nat. rewrite read_be32 by done.
  do 2 f_equal. lia.
Qed.

Lemma be32_bytes v : Forall is_byte (be32 v).
Proof.
  unfold be32, is_byte. repeat (apply Forall_cons; split);
    try (apply Z.mod_pos_bound; lia). done.
Qed.

Lemma qoi_read_32_be bytes idx v :
  0 ≤ idx → idx + 4 < 4294967296 → 0 ≤ v < 4294967296 →
  bytes_at bytes idx (be32 v) →
  qoi_read_32 bytes idx = Ret (v, idx + 4).
Proof.
  intros Hidx Hlt Hv Hat.
  pose proof (be32_bytes v) as Hb. unfold be32 in *.
  repeat (apply Forall_cons in Hb as [? Hb]).
  rewrite (qoi_read_32_ok bytes idx (v / 16777216 mod 256) (v / 65536 mod 256)
    (v / 256 mod 256) (v mod 256) Hidx Hlt) by done.
  by rewrite be32_value.
Qed.

Lemma dec_header_ok bytes desc :
  desc_wf desc →
  bytes_at bytes 0 (header_bytes desc) →
  dec_header bytes = Ret (QOI_MAGIC, desc, 14).
Proof.
  intros (Hw & Hh & Hc & Hs) Hat. unfold dec_header, header_bytes in *.
  change [113; 111; 105; 102] with (be32 QOI_MAGIC) in Hat.
  rewrite (qoi_read_32_be bytes 0 QOI_MAGIC);
    [| lia | lia | unfold QOI_MAGIC; lia | by apply bytes_at_app_l in Hat].
  rewrite bind_Ret. apply bytes_at_app_r in Hat.
  rewrite (qoi_read_32_be bytes (0 + 4) (width desc));
    [| lia | lia | done | by apply bytes_at_app_l in Hat].
  rewrite bind_Ret. apply bytes_at_app_r in Hat.
  rewrite (qoi_read_32_be bytes (0 + 4 + 4) (height desc));
    [| lia | lia | done | by apply bytes_at_app_l in Hat].
  rewrite bind_Ret. apply bytes_at_app_r in Hat.
  rewrite (get_Some bytes (0 + 4 + 4 + 4) (channels desc));
    [| lia | by apply (Hat 0%nat)].
  rewrite bind_Ret.
  rewrite (get_Some bytes (0 + 4 + 4 + 4 + 1) (colorspace desc));
    [| lia | by apply (Hat 1%nat)].
  rewrite bind_Ret. by destruct desc.
Qed.

Lemma dec_invalid_false desc :
  desc_wf desc → enc_invalid desc = false → dec_invalid QOI_MAGIC desc = false.
Proof.
  intros Hwf Hv.
  destruct (enc_valid_bounds desc Hwf Hv) as (Hw & Hh & Hwh & Hch & Hcs).
  unfold enc_invalid in Hv. repeat (apply orb_false_iff in Hv as [Hv ?]).
  unfold dec_invalid.
  rewrite (proj2 (Z.eqb_neq (width desc) 0)) by lia.
  rewrite (proj2 (Z.eqb_neq (height desc) 0)) by lia.
  rewrite (proj2 (Z.ltb_ge (channels desc) 3)) by lia.
  rewrite (proj2 (Z.ltb_ge 4 (channels desc))) by lia.
  rewrite (proj2 (Z.ltb_ge 1 (colorspace desc))) by lia.
  rewrite Z.eqb_refl. simpl. done.
Qed.

Lemma dec_start_ok ndebug malloc bytes size desc desc0 :
  desc_wf desc → enc_invalid desc = false →
  bytes_at bytes 0 (header_bytes desc) → 22 ≤ size →
  malloc (enc_px_len desc) = true →
  dec_start ndebug malloc bytes size desc0 (channels desc)
    = (Ret (channels desc, enc_px_len desc,
            DecS 14 start_mem (replicate (Z.to_nat (enc_px_len desc)) 0)
              start_px 0), desc).
Proof.
  intros Hwf Hv Hat Hsize Hm.
  destruct (enc_valid_bounds desc Hwf Hv) as (Hw & Hh & Hwh & Hch & Hcs).
  unfold dec_start.
  assert (dec_asserts size (channels desc) = true) as ->.
  { unfold dec_asserts, QOI_HEADER_SIZE.
    rewrite (proj2 (Z.leb_le (14 + 8) size)) by lia.
    destruct Hch as [-> | ->]; done. }
  rewrite andb_false_r. unfold QOI_HEADER_SIZE.
  rewrite (proj2 (Z.ltb_ge size (14 + 8))) by lia.
  assert (negb (channels desc =? 0) && negb (channels desc =? 3)
          && negb (channels desc =? 4) = false) as ->.
  { destruct Hch as [-> | ->]; done. }
  simpl orb. cbv iota.
  rewrite (dec_header_ok bytes desc) by done.
  rewrite dec_invalid_false by done.
  rewrite (proj2 (Z.eqb_neq (channels desc) 0)) by lia.
  fold (enc_px_len desc). rewrite Hm. done.
Qed.

(** ** Encoder and decoder on the same image *)

Lemma enc_upto_ok ndebug malloc data desc (k : nat) bs me prev run :
  valid_image data desc → malloc (enc_capacity desc) = true →
  (k ≤ length (pixels_of data desc))%nat →
  enc_run start_mem start_px 0 (take k (pixels_of data desc))
    (drop k (pixels_of data desc)) = (bs, me, prev, run) →
  ∃ out,
    enc_upto ndebug malloc data desc (Z.of_nat k)
      = Ret (EncS out me prev prev run).
Proof.
  intros Hvalid Hm Hk Hrun.
  destruct (pixels_of_spec data desc Hvalid) as (Hflat & Hps & Hn).
  destruct Hvalid as (Hwf & Hv & Hbytes & Hlen).
  destruct (enc_valid_bounds desc) as (Hw & Hh & Hwh & Hch & Hcs); [done.. |].
  destruct (enc_sizes desc) as (Hcap & Hpx_len & Hpx_end); [done.. |].
  set (ps := pixels_of data desc) in *. set (ch := channels desc) in *.
  unfold enc_upto.
  destruct (enc_start_ok ndebug malloc desc)
    as (out0 & -> & Hok0 & Hi0 & Hl0 & Hw0); [done.. |].
  rewrite bind_Ret. cbv zeta. fold ch.
  assert (Z.min (enc_px_len desc) (Z.of_nat k * ch) = ch * Z.of_nat k) as ->
    by (destruct Hch; nia).
  apply Forall_take with (n := k) in Hps as Hps1.
  pose proof (enc_run_length ch _ _ 0 _ _ _ _ _ _ Hch (start_px_ok ch) Hps1
    ltac:(lia) Hrun) as Hbs.
  rewrite length_take, Nat.min_l in Hbs by done.
  destruct (enc_loop_ok ch (take k ps) (drop k ps) []
    (Z.to_nat (ch * Z.of_nat k)) (ch * Z.of_nat k) (enc_px_end desc)
    out0 start_mem start_px 0 bs me prev run)
    as (out1 & Hloop & _).
  { done. }
  { done. }
  { simpl. rewrite <- flat_app, take_drop, Hflat. destruct Hch; lia. }
  { simpl. rewrite length_take, Nat.min_l by done. lia. }
  { rewrite length_drop. destruct Hch; nia. }
  { rewrite length_take, Nat.min_l by done.
    clearbody ch. clear - Hch. destruct Hch as [-> | ->]; lia. }
  { apply start_px_ok. }
  { done. }
  { lia. }
  { done. }
  { assert (Z.of_nat k ≤ width desc * height desc) by lia.
    clearbody ch.
    destruct (0 <? run); destruct Hch as [-> | ->]; simpl in Hbs; lia. }
  simpl in Hloop. rewrite <- flat_app, take_drop, Hflat in Hloop.
  change (Z.of_nat 0) with 0 in Hloop. eauto.
Qed.

Lemma length_header_bytes desc : length (header_bytes desc) = 14%nat.
Proof. reflexivity. Qed.

Lemma dec_lockstep ndebug malloc data desc bytes size (k fuel : nat) bs me prev
    run :
  valid_image data desc →
  qoi_encode ndebug malloc data desc = Ret (bytes, size) →
  (k ≤ length (pixels_of data desc))%nat → (k ≤ fuel)%nat →
  enc_run start_mem start_px 0 (take k (pixels_of data desc))
    (drop k (pixels_of data desc)) = (bs, me, prev, run) →
  22 ≤ size
  ∧ bytes_at bytes 0 (header_bytes desc)
  ∧ ∃ ds,
      dec_loop fuel bytes (u32 (size - 8)) (channels desc)
        (channels desc * Z.of_nat k) 0
        (DecS 14 start_mem (replicate (Z.to_nat (enc_px_len desc)) 0)
           start_px 0) = Ret ds
      ∧ lockstep bytes (size - 8) (channels desc) me prev run
          (14 + Z.of_nat (length bs)) (drop k (pixels_of data desc))
          (flat (channels desc) (take k (pixels_of data desc))) ds.
Proof.
  intros Hvalid Henc Hk Hfuel Hrun.
  destruct (pixels_of_spec data desc Hvalid) as (Hflat & Hps & Hn).
  pose proof Hvalid as (Hwf & Hv & Hbytes & Hlen).
  destruct (enc_valid_bounds desc) as (Hw & Hh & Hwh & Hch & Hcs); [done.. |].
  destruct (enc_sizes desc) as (Hcap & Hpx_len & Hpx_end); [done.. |].
  pose proof (qoi_encode_Ret_malloc _ _ _ _ _ _ Hwf Hv Henc) as Hm.
  destruct (qoi_encode_ok ndebug malloc data desc Hvalid Hm)
    as (bytes' & size' & Henc' & Hlb & Hsz & Hle & Htake).
  rewrite Henc in Henc'. injection Henc' as <- <-.
  set (ps := pixels_of data desc) in *. set (ch := channels desc) in *.
  assert (bytes = header_bytes desc ++ chunks_of ps
                  ++ (qoi_padding ++ drop (Z.to_nat size) bytes)) as Hbytes_eq.
  { rewrite <- (take_drop (Z.to_nat size) bytes) at 1.
    by rewrite Htake, <- !app_assoc. }
  assert (size - 8 + 5 < 4294967296) as Hsize by (destruct Hch; lia).
  split; [lia |]. split.
  { rewrite Hbytes_eq. apply (bytes_at_app []). }
  rewrite u32_small by lia.
  assert (lockstep bytes (size - 8) ch start_mem start_px 0 14
    (take k ps ++ drop k ps) []
    (DecS 14 start_mem (replicate (Z.to_nat (enc_px_len desc)) 0) start_px 0))
    as Hls.
  { rewrite take_drop. split; simpl; try done.
    - apply prev_in_table_start.
    - fold (chunks_of ps). rewrite Hbytes_eq.
      change 14 with (Z.of_nat (length (header_bytes desc))).
      apply bytes_at_app.
    - fold (chunks_of ps). lia.
    - apply tables_agree_start.
    - rewrite length_replicate. lia.
    - rewrite length_replicate. destruct Hch; lia. }
  destruct (lockstep_loop bytes (size - 8) ch Hch Hsize (take k ps) (drop k ps)
    start_mem start_px 0 14 [] _ fuel bs me prev run Hls)
    as (ds & Hloop & Hls').
  { rewrite length_take. lia. }
  { done. }
  exists ds. split; [| done].
  rewrite <- Hloop. simpl. rewrite length_take, Nat.min_l by done. done.
Qed.

(** ** The decoder updates its table after every chunk *)

Lemma dec_chunk_updates bytes px_chunks s s' :
  d_run s ≤ 0 → d_idx s < px_chunks →
  dec_chunk bytes px_chunks s = Ret s' →
  d_mem s' = <[Z.to_nat (qoi_hash (d_curr s')) := d_curr s']> (d_mem s).
Proof.
  destruct s as [idx mem px curr run]. simpl. intros Hrun Hidx.
  unfold dec_chunk.
  rewrite (proj2 (Z.ltb_ge 0 run)), (proj2 (Z.ltb_lt idx px_chunks)) by lia.
  intros H. apply bind_inv in H as ([byte1 idx1] & _ & H).
  apply bind_inv in H as ([[idx2 curr2] run2] & _ & H).
  by injection H as <-.
Qed.

(** ** The decoder on an arbitrary stream *)

Lemma no_err_dec_opcode bytes byte1 idx mem curr run :
  no_err (dec_opcode bytes byte1 idx mem curr run).
Proof. unfold dec_opcode. no_err_tac. Qed.

Lemma no_err_dec_chunk bytes px_chunks s : no_err (dec_chunk bytes px_chunks s).
Proof.
  unfold dec_chunk. destruct s. no_err_tac. apply no_err_dec_opcode.
Qed.

Lemma no_err_dec_emit ch pos s : no_err (dec_emit ch pos s).
Proof. unfold dec_emit. destruct s. no_err_tac. Qed.

Lemma no_err_dec_loop fuel bytes px_chunks ch bound pos s :
  no_err (dec_loop fuel bytes px_chunks ch bound pos s).
Proof.
  revert pos s. induction fuel as [| fuel IH]; intros pos s;
    unfold dec_loop; fold dec_loop; no_err_tac.
  unfold dec_iter. no_err_tac.
  - apply no_err_dec_chunk.
  - apply no_err_dec_emit.
Qed.

Lemma get_ok bytes i :
  0 ≤ i < Z.of_nat (length bytes) → i < 4294967295 →
  ∃ v, get bytes i = Ret (v, i + 1).
Proof.
  intros Hi Hlt.
  destruct (lookup_lt_is_Some_2 bytes (Z.to_nat i)) as [v Hv]; [lia |].
  exists v. apply get_Some; [lia | done].
Qed.

Ltac get_next :=
  match goal with
  | |- context [get ?bytes ?i] =>
      let v := fresh "v" in
      let H := fresh "Hget" in
      destruct (get_ok bytes i) as [v H]; [lia | lia |];
      rewrite H, bind_Ret; clear H
  end.

Lemma qoi_read_32_total bytes idx :
  0 ≤ idx → idx + 4 ≤ Z.of_nat (length bytes) → idx + 4 < 4294967296 →
  ∃ v, qoi_read_32 bytes idx = Ret (v, idx + 4) ∧ 0 ≤ v < 4294967296.
Proof.
  intros Hidx Hlen Hlt. unfold qoi_read_32. do 4 get_next.
  eexists. split.
  - do 2 f_equal. lia.
  - unfold u32. apply Z.mod_pos_bound. lia.
Qed.

Lemma dec_opcode_total bytes byte1 idx mem curr run :
  0 ≤ idx → idx + 4 ≤ Z.of_nat (length bytes) → idx + 4 < 4294967296 →
  ∃ idx' curr' run',
    dec_opcode bytes byte1 idx mem curr run = Ret (idx', curr', run')
    ∧ idx ≤ idx' ≤ idx + 4.
Proof.
  intros Hidx Hlen Hlt. unfold dec_opcode.
  repeat case_if.
  - do 4 get_next. eexists _, _, _. split; [done | lia].
  - do 3 get_next. eexists _, _, _. split; [done | lia].
  - get_next. eexists _, _, _. split; [done | lia].
  - eexists _, _, _. split; [done | lia].
  - eexists _, _, _. split; [done | lia].
  - eexists _, _, _. split; [done | lia].
  - eexists _, _, _. split; [done | lia].
Qed.

Lemma dec_chunk_total bytes px_chunks s :
  0 ≤ d_idx s → px_chunks + 4 ≤ Z.of_nat (length bytes) →
  px_chunks + 4 < 4294967296 →
  ∃ s', dec_chunk bytes px_chunks s = Ret s'
        ∧ 0 ≤ d_idx s' ∧ d_px s' = d_px s.
Proof.
  destruct s as [idx mem px curr run]. simpl. intros Hidx Hlen Hlt.
  unfold dec_chunk. destruct (0 <? run); [by eexists |].
  destruct (Z.ltb_spec idx px_chunks); [| by eexists].
  get_next.
  destruct (dec_opcode_total bytes v (idx + 1) mem curr run)
    as (idx' & curr' & run' & -> & Hidx'); [lia.. |].
  rewrite bind_Ret. eexists. split; [done |]. simpl. split; [lia | done].
Qed.

Lemma dec_loop_total bytes px_chunks ch (m : nat) : ∀ pos s fuel,
  ch = 3 ∨ ch = 4 →
  px_chunks + 4 ≤ Z.of_nat (length bytes) → px_chunks + 4 < 4294967296 →
  0 ≤ d_idx s → 0 ≤ pos →
  pos + ch * Z.of_nat m ≤ Z.of_nat (length (d_px s)) →
  Z.of_nat (length (d_px s)) < 4294967296 →
  (m ≤ fuel)%nat →
  ∃ s', dec_loop fuel bytes px_chunks ch (pos + ch * Z.of_nat m) pos s = Ret s'
        ∧ length (d_px s') = length (d_px s) ∧ 0 ≤ d_idx s'.
Proof.
  induction m as [| m IH];
    intros pos s fuel Hch Hlen Hlt Hidx Hpos Hpx Hpxlt Hfuel.
  - exists s. rewrite dec_loop_done by lia. done.
  - destruct fuel as [| fuel]; [lia |].
    rewrite dec_loop_step by (destruct Hch; lia).
    unfold dec_iter.
    destruct (dec_chunk_total bytes px_chunks s)
      as (s1 & -> & Hidx1 & Hpx1); [done.. |].
    rewrite bind_Ret. destruct s1 as [idx1 mem1 px1 curr1 run1].
    simpl in Hidx1, Hpx1. subst px1.
    destruct (dec_emit_ok ch pos idx1 mem1 (d_px s) curr1 run1)
      as (px' & -> & Hlpx & _); [done | lia | destruct Hch; lia | done |].
    rewrite bind_Ret, u32_small by (destruct Hch; lia).
    destruct (IH (pos + ch) (DecS idx1 mem1 px' curr1 run1) fuel)
      as (s' & Hloop & Hl' & Hi'); try done; simpl;
      try (rewrite ?Hlpx; destruct Hch; lia).
    exists s'. replace (pos + ch * Z.of_nat (S m))
      with (pos + ch + ch * Z.of_nat m) by lia.
    split; [done |]. simpl in Hl'. split; [congruence | done].
Qed.

Lemma get_inv bytes i v j :
  get bytes i = Ret (v, j) → j = u32 (i + 1) ∧ 0 ≤ i < Z.of_nat (length bytes).
Proof.
  unfold get. intros H. apply bind_inv in H as (v' & Hload & H).
  injection H as -> <-. apply load_Ret_inv in Hload as [? _]. done.
Qed.

Lemma qoi_read_32_inv bytes i v j :
  qoi_read_32 bytes i = Ret (v, j) →
  j = u32 (u32 (u32 (u32 (i + 1) + 1) + 1) + 1) ∧ 0 ≤ v < 4294967296
  ∧ 0 ≤ u32 (u32 (u32 (i + 1) + 1) + 1) < Z.of_nat (length bytes).
Proof.
  unfold qoi_read_32. intros H.
  apply bind_inv in H as ([a i1] & Ha & H). apply get_inv in Ha as [-> _].
  apply bind_inv in H as ([b i2] & Hb & H). apply get_inv in Hb as [-> _].
  apply bind_inv in H as ([c i3] & Hc & H). apply get_inv in Hc as [-> _].
  apply bind_inv in H as ([d i4] & Hd & H). apply get_inv in Hd as [-> Hlt].
  injection H as <- <-. split; [done |]. split; [| done].
  unfold u32 at 1. apply Z.mod_pos_bound. lia.
Qed.

Lemma dec_header_inv bytes magic hdr idx :
  dec_header bytes = Ret (magic, hdr, idx) →
  idx = 14 ∧ 0 ≤ width hdr < 4294967296 ∧ 0 ≤ height hdr < 4294967296
  ∧ 14 ≤ Z.of_nat (length bytes).
Proof.
  unfold dec_header. intros H.
  apply bind_inv in H as ([m i1] & Hm & H).
  apply qoi_read_32_inv in Hm as (-> & _ & _).
  apply bind_inv in H as ([w i2] & Hw & H).
  apply qoi_read_32_inv in Hw as (-> & Hw & _).
  apply bind_inv in H as ([h i3] & Hh & H).
  apply qoi_read_32_inv in Hh as (-> & Hh & _).
  apply bind_inv in H as ([c i4] & Hc & H). apply get_inv in Hc as [-> _].
  apply bind_inv in H as ([cs i5] & Hcs & H). apply get_inv in Hcs as [-> Hlt].
  injection H as <- <- <-. simpl.
  match type of Hlt with
  | 0 ≤ ?x < _ => let y := eval vm_compute in x in change x with y in Hlt
  end.
  split; [reflexivity |]. split; [done |]. split; [done |]. lia.
Qed.

Lemma dec_header_total bytes :
  14 ≤ Z.of_nat (length bytes) →
  ∃ magic hdr, dec_header bytes = Ret (magic, hdr, 14).
Proof.
  intros Hlen. unfold dec_header.
  destruct (qoi_read_32_total bytes 0) as (m & -> & _); [lia.. |].
  rewrite bind_Ret.
  destruct (qoi_read_32_total bytes (0 + 4)) as (w & -> & _); [lia.. |].
  rewrite bind_Ret.
  destruct (qoi_read_32_total bytes (0 + 4 + 4)) as (h & -> & _); [lia.. |].
  rewrite bind_Ret. do 2 get_next. by eexists _, _.
Qed.

Lemma dec_invalid_bounds magic hdr :
  0 ≤ width hdr → 0 ≤ height hdr →
  dec_invalid magic hdr = false →
  0 < width hdr ∧ 0 < height hdr ∧ width hdr * height hdr < 400000000
  ∧ (channels hdr = 3 ∨ channels hdr = 4) ∧ colorspace hdr ≤ 1
  ∧ magic = QOI_MAGIC.
Proof.
  intros Hw Hh. unfold dec_invalid, QOI_MAXIMUM_PIXELS.
  intros H. repeat (apply orb_false_iff in H as [H ?]).
  match goal with H : negb _ = false |- _ => apply negb_false_iff in H end.
  bool_hyps.
  assert (0 < width hdr) by lia.
  assert (height hdr + 1 ≤ 400000000 / width hdr) as Hle by lia.
  pose proof (Z.mul_div_le 400000000 (width hdr) ltac:(done)).
  split_and!; try lia; try done. nia.
Qed.

(** What [dec_start] has established when it returns. *)
Lemma dec_start_Ret ndebug malloc data size desc0 target ch px_len s desc' :
  dec_start ndebug malloc data size desc0 target
    = (Ret (ch, px_len, s), desc') →
  dec_bad_args size target = false
  ∧ (∃ idx, dec_header data = Ret (QOI_MAGIC, desc', idx))
  ∧ dec_invalid QOI_MAGIC desc' = false
  ∧ ch = (if target =? 0 then channels desc' else target)
  ∧ (ch = 3 ∨ ch = 4)
  ∧ 0 < width desc' * height desc' < 400000000
  ∧ px_len = width desc' * height desc' * ch
  ∧ malloc px_len = true
  ∧ s = DecS 14 start_mem (replicate (Z.to_nat px_len) 0) start_px 0.
Proof.
  unfold dec_start. destruct (negb ndebug && negb _); [done |].
  fold (dec_bad_args size target).
  destruct (dec_bad_args size target) eqn:Hargs; [done |].
  destruct (dec_header data) as [[[magic hdr] idx] | | | |] eqn:Hhdr; try done.
  destruct (dec_invalid magic hdr) eqn:Hinv; [done |].
  destruct (negb (malloc _)) eqn:Hm; [done |].
  intros [= <- <- <- <-].
  apply dec_header_inv in Hhdr as Hh. destruct Hh as (-> & Hw & Hh & _).
  destruct (dec_invalid_bounds magic hdr) as (? & ? & ? & Hch & ? & ->);
    [lia | lia | done |].
  assert ((if target =? 0 then channels hdr else target) = 3
          ∨ (if target =? 0 then channels hdr else target) = 4) as Hch'.
  { unfold dec_bad_args in Hargs. apply orb_false_iff in Hargs as [Hargs _].
    destruct (Z.eqb_spec target 0); [done |].
    destruct (Z.eqb_spec target 3); [by left |].
    destruct (Z.eqb_spec target 4); [by right | done]. }
  assert (u32 (u32 (width hdr * height hdr)
               * (if target =? 0 then channels hdr else target))
          = width hdr * height hdr
            * (if target =? 0 then channels hdr else target)) as Hpx.
  { rewrite (u32_small (width hdr * height hdr)) by nia.
    apply u32_small. destruct Hch' as [-> | ->]; nia. }
  rewrite Hpx in *. apply negb_false_iff in Hm.
  split_and!; try done; try nia. by eexists.
Qed.

Lemma dec_loop_split bytes px_chunks ch (m : nat) : ∀ pos s s1 f1 f2 bound,
  0 < ch → 0 ≤ pos → pos + ch * Z.of_nat m ≤ bound → bound < 4294967296 →
  dec_loop f1 bytes px_chunks ch (pos + ch * Z.of_nat m) pos s = Ret s1 →
  (m ≤ f2)%nat →
  dec_loop f2 bytes px_chunks ch bound pos s
    = dec_loop (f2 - m) bytes px_chunks ch bound (pos + ch * Z.of_nat m) s1.
Proof.
  induction m as [| m IH];
    intros pos s s1 f1 f2 bound Hch Hpos Hb Hlt Hloop Hf2.
  - rewrite dec_loop_done in Hloop by lia. injection Hloop as <-.
    f_equal; lia.
  - destruct f1 as [| f1].
    { unfold dec_loop in Hloop.
      by rewrite (proj2 (Z.ltb_lt pos _)) in Hloop by lia. }
    rewrite dec_loop_step in Hloop by lia.
    apply bind_inv in Hloop as (s' & Hiter & Hloop).
    destruct f2 as [| f2]; [lia |].
    rewrite dec_loop_step by lia. rewrite Hiter, bind_Ret.
    rewrite u32_small in Hloop |- * by lia.
    replace (pos + ch * Z.of_nat (S m)) with (pos + ch + ch * Z.of_nat m)
      in Hloop |- * by lia.
    rewrite (IH (pos + ch) s' s1 f1 f2 bound) by (done || lia). done.
Qed.

Lemma dec_loop_exhausted bytes px_chunks ch (m : nat) :
  ∀ pos idx mem px curr run fuel,
  ch = 3 ∨ ch = 4 → run ≤ 0 → px_chunks ≤ idx → 0 ≤ pos →
  pos + ch * Z.of_nat m ≤ Z.of_nat (length px) →
  Z.of_nat (length px) < 4294967296 → (m ≤ fuel)%nat →
  ∃ px',
    dec_loop fuel bytes px_chunks ch (pos + ch * Z.of_nat m) pos
      (DecS idx mem px curr run) = Ret (DecS idx mem px' curr run)
    ∧ length px' = length px
    ∧ take (Z.to_nat (pos + ch * Z.of_nat m)) px'
      = take (Z.to_nat pos) px ++ mjoin (replicate m (u8 <$> px_bytes ch curr)).
Proof.
  induction m as [| m IH];
    intros pos idx mem px curr run fuel Hch Hrun Hidx Hpos Hlen Hlt Hfuel.
  - exists px. rewrite dec_loop_done by lia. simpl.
    rewrite app_nil_r. split_and!; try done. f_equal. lia.
  - destruct fuel as [| fuel]; [lia |].
    rewrite dec_loop_step by (destruct Hch; lia). unfold dec_iter.
    rewrite dec_chunk_exhausted by done. rewrite bind_Ret.
    destruct (dec_emit_ok ch pos idx mem px curr run)
      as (px1 & -> & Hl1 & Htake1 & _);
      [done | lia | destruct Hch; lia | done |].
    rewrite bind_Ret, u32_small by (destruct Hch; lia).
    destruct (IH (pos + ch) idx mem px1 curr run fuel)
      as (px' & Hloop & Hl' & Htake'); try done;
      try (rewrite ?Hl1; destruct Hch; lia).
    exists px'.
    replace (pos + ch * Z.of_nat (S m)) with (pos + ch + ch * Z.of_nat m)
      by lia.
    split_and!; [done | congruence |].
    rewrite Htake', Htake1, <- app_assoc. done.
Qed.

Lemma store_length bytes i v bytes' :
  store bytes i v = Ret bytes' → length bytes' = length bytes.
Proof.
  unfold store. destruct (_ && _); [| done].
  intros [= <-]. apply length_insert.
Qed.

Lemma dec_chunk_px bytes px_chunks s s' :
  dec_chunk bytes px_chunks s = Ret s' → d_px s' = d_px s.
Proof.
  destruct s as [idx mem px curr run]. unfold dec_chunk.
  destruct (0 <? run); [by intros [= <-] |].
  destruct (idx <? px_chunks); [| by intros [= <-]].
  intros H. apply bind_inv in H as ([byte1 idx1] & _ & H).
  apply bind_inv in H as ([[idx2 curr2] run2] & _ & H).
  by injection H as <-.
Qed.

Lemma dec_emit_length ch pos s s' :
  dec_emit ch pos s = Ret s' → length (d_px s') = length (d_px s).
Proof.
  destruct s as [idx mem px curr run]. unfold dec_emit.
  destruct (ch =? 4); intros H;
    repeat (apply bind_inv in H as (? & ?%store_length & H));
    injection H as <-; simpl; congruence.
Qed.

Lemma dec_loop_length fuel bytes px_chunks ch bound : ∀ pos s s',
  dec_loop fuel bytes px_chunks ch bound pos s = Ret s' →
  length (d_px s') = length (d_px s).
Proof.
  induction fuel as [| fuel IH]; intros pos s s';
    unfold dec_loop; fold dec_loop;
    destruct (pos <? bound); try done; try by intros [= <-].
  intros H. apply bind_inv in H as (s1 & Hiter & H).
  apply IH in H. unfold dec_iter in Hiter.
  apply bind_inv in Hiter as (s2 & Hc%dec_chunk_px & He%dec_emit_length).
  congruence.
Qed.

Lemma valid_image_example :
  valid_image [0; 0; 0; 5; 5; 5] (Desc 2 1 3 0).
Proof.
  unfold valid_image, desc_wf, is_byte. simpl.
  split_and!; try lia; try reflexivity.
  repeat (apply Forall_cons; split; [lia |]). apply Forall_nil_2.
Defined.

Lemma enc_invalid_spec desc :
  enc_invalid desc = true ↔
  width desc = 0 ∨ height desc = 0
  ∨ (channels desc ≠ 3 ∧ channels desc ≠ 4)
  ∨ 1 < colorspace desc
  ∨ QOI_MAXIMUM_PIXELS / width desc ≤ height desc.
Proof.
  unfold enc_invalid.
  rewrite !orb_true_iff, andb_true_iff, !negb_true_iff, !Z.eqb_eq,
    !Z.eqb_neq, Z.ltb_lt, Z.leb_le. tauto.
Qed.

Lemma dec_bad_args_spec size target :
  dec_bad_args size target = true ↔
  (target ≠ 0 ∧ target ≠ 3 ∧ target ≠ 4) ∨ size < 22.
Proof.
  unfold dec_bad_args, QOI_HEADER_SIZE.
  rewrite orb_true_iff, !andb_true_iff, !negb_true_iff, !Z.eqb_neq, Z.ltb_lt.
  simpl. tauto.
Qed.

(** The assertions of [qoi_decode] are the negation of its first guard. *)
Lemma dec_asserts_bad_args size target :
  dec_asserts size target = negb (dec_bad_args size target).
Proof.
  unfold dec_asserts, dec_bad_args. rewrite Z.leb_antisym.
  by destruct (target =? 0), (target =? 3), (target =? 4), (size <? _).
Qed.

Lemma dec_invalid_spec magic hdr :
  dec_invalid magic hdr = true ↔
  width hdr = 0 ∨ height hdr = 0 ∨ channels hdr < 3 ∨ 4 < channels hdr
  ∨ 1 < colorspace hdr ∨ magic ≠ QOI_MAGIC
  ∨ 400000000 / width hdr ≤ height hdr.
Proof.
  unfold dec_invalid, QOI_MAXIMUM_PIXELS.
  rewrite !orb_true_iff, !negb_true_iff, !Z.eqb_eq, !Z.eqb_neq, !Z.ltb_lt,
    Z.leb_le. tauto.
Qed.

(** The stream of an image of [n] pixels, all equal to [p]. *)
Lemma encode_constant ndebug malloc desc (n : nat) p :
  desc_wf desc → enc_invalid desc = false →
  malloc (enc_capacity desc) = true →
  px_ok (channels desc) p →
  width desc * height desc = Z.of_nat n →
  ∃ bytes size,
    qoi_encode ndebug malloc (flat (channels desc) (replicate n p)) desc
      = Ret (bytes, size)
    ∧ take (Z.to_nat size) bytes
      = header_bytes desc ++ chunks_of (replicate n p) ++ qoi_padding.
Proof.
  intros Hwf Hv Hm Hp Hn.
  destruct (enc_valid_bounds desc Hwf Hv) as (Hw & Hh & Hwh & Hch & Hcs).
  assert (valid_image (flat (channels desc) (replicate n p)) desc) as Hvalid.
  { split_and!; try done.
    - clear Hn. induction n as [| n IH]; simpl; [done |].
      apply Forall_app. split; [| done]. apply px_bytes_valid, Hp.
    - rewrite length_flat, length_replicate by done. lia. }
  destruct (qoi_encode_ok ndebug malloc _ desc Hvalid Hm)
    as (bytes & size & Henc & _ & _ & _ & Htake).
  exists bytes, size. split; [done |]. rewrite Htake. do 3 f_equal.
  unfold pixels_of. rewrite Hn, Nat2Z.id.
  clear -Hch Hp. induction n as [| n IH]; simpl; [done |].
  f_equal.
  - destruct Hp as [_ Ha]. destruct p as [r g b a].
    destruct Hch as [Hc | Hc]; rewrite Hc in *; simpl in *; [| done].
    by rewrite Ha.
  - replace (Z.to_nat (channels desc))
      with (length (px_bytes (channels desc) p))
      by (pose proof (length_px_bytes (channels desc) p Hch); lia).
    by rewrite drop_app_length.
Qed.

(** ** The decoder keeps bytes in its pixels *)

Lemma get_byte bytes i v j :
  Forall is_byte bytes → get bytes i = Ret (v, j) → is_byte v.
Proof.
  intros Hb H. unfold get in H. apply bind_inv in H as (v' & Hload & H).
  injection H as -> _. apply load_Ret_inv in Hload as [_ Hv].
  by eapply Forall_lookup_1.
Qed.

Lemma u8_byte x : is_byte (u8 x).
Proof. apply u8_range. Qed.

Lemma dec_opcode_valid bytes byte1 idx mem curr run idx' curr' run' :
  Forall is_byte bytes → Forall px_valid mem → px_valid curr →
  dec_opcode bytes byte1 idx mem curr run = Ret (idx', curr', run') →
  px_valid curr'.
Proof.
  intros Hb Hmem (Hr & Hg & Hbl & Ha). unfold dec_opcode.
  repeat case_if; intros H;
    repeat match type of H with
      | _ ≫= _ = Ret _ =>
          let v := fresh "v" in
          let i := fresh "i" in
          let Hv := fresh "Hv" in
          apply bind_inv in H as ([v i] & Hv%(get_byte _ _ _ _ Hb) & H)
      end;
    injection H as _ <- _;
    try (unfold px_valid, is_byte in *; simpl; split_and!; mod_lia).
  destruct (mem !! Z.to_nat byte1) as [p |] eqn:Hp.
  - rewrite (list_lookup_total_correct _ _ _ Hp).
    by eapply (Forall_lookup_1 px_valid).
  - rewrite list_lookup_total_alt, Hp. unfold px_valid. simpl. lia.
Qed.

Lemma dec_chunk_valid bytes px_chunks s s' :
  Forall is_byte bytes → Forall px_valid (d_mem s) → px_valid (d_curr s) →
  dec_chunk bytes px_chunks s = Ret s' →
  Forall px_valid (d_mem s') ∧ px_valid (d_curr s').
Proof.
  destruct s as [idx mem px curr run]. simpl. intros Hb Hmem Hcurr.
  unfold dec_chunk.
  destruct (0 <? run); [by intros [= <-] |].
  destruct (idx <? px_chunks); [| by intros [= <-]].
  intros H. apply bind_inv in H as ([byte1 idx1] & _ & H).
  apply bind_inv in H as ([[idx2 curr2] run2] & Hop & H).
  injection H as <-. simpl.
  apply dec_opcode_valid in Hop; try done.
  split; [| done]. by apply Forall_insert.
Qed.

Lemma dec_emit_state ch pos s s' :
  dec_emit ch pos s = Ret s' →
  d_mem s' = d_mem s ∧ d_curr s' = d_curr s.
Proof.
  destruct s as [idx mem px curr run]. unfold dec_emit.
  destruct (ch =? 4); intros H;
    repeat (apply bind_inv in H as (? & _ & H));
    by injection H as <-.
Qed.

Lemma dec_loop_valid fuel bytes px_chunks ch bound : ∀ pos s s',
  Forall is_byte bytes → Forall px_valid (d_mem s) → px_valid (d_curr s) →
  dec_loop fuel bytes px_chunks ch bound pos s = Ret s' →
  Forall px_valid (d_mem s') ∧ px_valid (d_curr s').
Proof.
  induction fuel as [| fuel IH]; intros pos s s' Hb Hmem Hcurr;
    unfold dec_loop; fold dec_loop;
    destruct (pos <? bound); try done; try by intros [= <-].
  intros H. apply bind_inv in H as (s1 & Hiter & H).
  unfold dec_iter in Hiter.
  apply bind_inv in Hiter as (s2 & Hc & He).
  apply dec_chunk_valid in Hc as [Hm2 Hc2]; try done.
  apply dec_emit_state in He as [Hm1 Hc1].
  apply (IH _ _ _ Hb) in H; [done | congruence | congruence].
Qed.

Lemma start_mem_valid : Forall px_valid start_mem.
Proof.
  apply Forall_replicate. unfold px_valid. simpl. lia.
Qed.
(** * Properties of the codec *)

(** C1 — Round-trip: for every valid pixel buffer and descriptor, when both
    allocations succeed, [qoi_encode] returns a stream, and [qoi_decode] of
    that stream with target channels equal to the descriptor's returns the
    same pixel buffer, byte for byte, and leaves in the caller's descriptor
    the width, height, channels and colorspace of the encoder's. *)
Theorem roundtrip ndebug malloc malloc' data desc desc0 :
  valid_image data desc →
  malloc (enc_capacity desc) = true →
  malloc' (Z.of_nat (length data)) = true →
  ∃ bytes size,
    qoi_encode ndebug malloc data desc = Ret (bytes, size)
    ∧ qoi_decode ndebug malloc' bytes size desc0 (channels desc)
      = (Ret data, desc).
Proof.
  intros Hvalid Hm Hm'.
  destruct (qoi_encode_ok ndebug malloc data desc Hvalid Hm)
    as (bytes & size & Henc & _).
  exists bytes, size. split; [done |].
  destruct (pixels_of_spec data desc Hvalid) as (Hflat & Hps & Hn).
  pose proof Hvalid as (Hwf & Hv & Hbytes & Hlen).
  destruct (enc_valid_bounds desc) as (Hw & Hh & Hwh & Hch & Hcs); [done.. |].
  destruct (enc_sizes desc) as (_ & Hpx_len & _); [done.. |].
  set (ps := pixels_of data desc) in *.
  destruct (enc_run start_mem start_px 0 (take (length ps) ps)
    (drop (length ps) ps)) as [[[bs me] prev] run] eqn:Hrun.
  destruct (dec_lockstep ndebug malloc data desc bytes size (length ps)
    (Z.to_nat (enc_px_len desc)) bs me prev run Hvalid Henc)
    as (Hsize & Hhdr & ds & Hloop & Hls); [done | destruct Hch; nia | done |].
  unfold qoi_decode.
  rewrite (dec_start_ok ndebug malloc' bytes size desc desc0)
    by (done || by rewrite Hpx_len, <- Hlen).
  rewrite bind_Ret.
  replace (channels desc * Z.of_nat (length ps)) with (enc_px_len desc)
    in Hloop by lia.
  rewrite Hloop, bind_Ret. do 2 f_equal.
  pose proof (ls_done _ _ _ _ _ _ _ _ _ _ Hls) as Hdone.
  pose proof (ls_px_len _ _ _ _ _ _ _ _ _ _ Hls) as Hpx.
  fold ps in Hdone, Hpx.
  rewrite firstn_all, Hflat in Hdone, Hpx.
  rewrite length_drop, Nat.sub_diag in Hpx.
  rewrite take_ge in Hdone by lia. done.
Qed.

Lemma roundtrip_witness :
  ∃ bytes size,
    qoi_encode true always [0; 0; 0; 5; 5; 5] (Desc 2 1 3 0) = Ret (bytes, size)
    ∧ qoi_decode true always bytes size (Desc 0 0 0 0) 3
      = (Ret [0; 0; 0; 5; 5; 5], Desc 2 1 3 0).
Proof.
  apply (roundtrip true always always [0; 0; 0; 5; 5; 5] (Desc 2 1 3 0)
           (Desc 0 0 0 0)); [| reflexivity | reflexivity].
  unfold valid_image, desc_wf, is_byte. simpl.
  split_and!; try lia; try reflexivity.
  repeat (apply Forall_cons; split; [lia |]). apply Forall_nil_2.
Defined.

(** C2 — Hash-table coherence, as the code has it: after every number of
    pixels encoded and decoded, the decoder's table agrees with the encoder's
    at every slot, except that slot 53, the hash of the start pixel
    (0,0,0,255), may hold the start pixel in the decoder while the encoder
    still has its initial zero there; and the decoder stores
    [table[hash(curr)] = curr] after every chunk it reads, RUN included. *)
Theorem table_coherence ndebug malloc malloc' data desc desc0 bytes size :
  valid_image data desc →
  qoi_encode ndebug malloc data desc = Ret (bytes, size) →
  malloc' (Z.of_nat (length data)) = true →
  (∀ n, 0 ≤ n ≤ width desc * height desc →
     ∃ es ds,
       enc_upto ndebug malloc data desc n = Ret es
       ∧ dec_upto ndebug malloc' bytes size desc0 (channels desc) n = Ret ds
       ∧ tables_agree (e_mem es) (d_mem ds))
  ∧ (∀ s s', d_run s ≤ 0 → d_idx s < u32 (size - 8) →
       dec_chunk bytes (u32 (size - 8)) s = Ret s' →
       d_mem s' = <[Z.to_nat (qoi_hash (d_curr s')) := d_curr s']> (d_mem s)).
Proof.
  intros Hvalid Henc Hm'. split; [| apply dec_chunk_updates].
  intros n Hn.
  destruct (pixels_of_spec data desc Hvalid) as (Hflat & Hps & Hlps).
  pose proof Hvalid as (Hwf & Hv & Hbytes & Hlen).
  destruct (enc_valid_bounds desc) as (Hw & Hh & Hwh & Hch & Hcs); [done.. |].
  destruct (enc_sizes desc) as (_ & Hpx_len & _); [done.. |].
  pose proof (qoi_encode_Ret_malloc _ _ _ _ _ _ Hwf Hv Henc) as Hm.
  set (k := Z.to_nat n). replace n with (Z.of_nat k) by lia.
  assert (k ≤ length (pixels_of data desc))%nat as Hk by lia.
  destruct (enc_run start_mem start_px 0 (take k (pixels_of data desc))
    (drop k (pixels_of data desc))) as [[[bs me] prev] run] eqn:Hrun.
  destruct (enc_upto_ok ndebug malloc data desc k bs me prev run Hvalid Hm Hk
    Hrun)
    as (out & Hupto).
  destruct (dec_lockstep ndebug malloc data desc bytes size k
    (Z.to_nat (channels desc * Z.of_nat k)) bs me prev run Hvalid Henc)
    as (Hsize & Hhdr & ds & Hloop & Hls); [done | destruct Hch; nia | done |].
  exists (EncS out me prev prev run), ds. split; [done |]. split.
  - unfold dec_upto.
    rewrite (dec_start_ok ndebug malloc' bytes size desc desc0)
      by (done || by rewrite Hpx_len, <- Hlen).
    simpl fst. rewrite bind_Ret.
    replace (Z.min (enc_px_len desc) (Z.of_nat k * channels desc))
      with (channels desc * Z.of_nat k) by (destruct Hch; nia).
    done.
  - apply (ls_agree _ _ _ _ _ _ _ _ _ _ Hls).
Qed.

Lemma table_coherence_witness :
  (∃ es ds,
     enc_upto true always [0; 0; 0; 255; 0; 0; 0; 0] (Desc 2 1 4 0) 1 = Ret es
     ∧ dec_upto true always
         [113; 111; 105; 102; 0; 0; 0; 2; 0; 0; 0; 1; 4; 0; 192; 0;
          0; 0; 0; 0; 0; 0; 0; 1; 0; 0; 0; 0; 0; 0; 0; 0] 24 (Desc 0 0 0 0)
         4 1 = Ret ds
     ∧ tables_agree (e_mem es) (d_mem ds))
  ∧ d_mem (DecS 15 (<[53%nat := start_px]> start_mem) (replicate 8 0)
             start_px 0)
    = <[Z.to_nat (qoi_hash start_px) := start_px]>
        (d_mem (DecS 14 start_mem (replicate 8 0) start_px 0)).
Proof.
  pose proof (table_coherence true always always [0; 0; 0; 255; 0; 0; 0; 0]
    (Desc 2 1 4 0) (Desc 0 0 0 0)
    [113; 111; 105; 102; 0; 0; 0; 2; 0; 0; 0; 1; 4; 0; 192; 0;
     0; 0; 0; 0; 0; 0; 0; 1; 0; 0; 0; 0; 0; 0; 0; 0] 24
    ltac:(unfold valid_image, desc_wf, is_byte; simpl;
          split_and!; try lia; try reflexivity;
          repeat (apply Forall_cons; split; [lia |]); apply Forall_nil_2)
    ltac:(vm_compute; reflexivity) ltac:(reflexivity)) as [Hagree Hupdate].
  split.
  - apply (Hagree 1). simpl. lia.
  - apply (Hupdate (DecS 14 start_mem (replicate 8 0) start_px 0)
             (DecS 15 (<[53%nat := start_px]> start_mem) (replicate 8 0)
                start_px 0));
      [simpl; lia | vm_compute; reflexivity | vm_compute; reflexivity].
Defined.

(** On a one-pixel image holding the start pixel the two tables differ: its
    only chunk is a RUN, after which the decoder has stored the start pixel
    in slot 53 and the encoder has not. *)
Lemma table_coherence_counterexample :
  qoi_encode true always [0; 0; 0; 255] (Desc 1 1 4 0)
    = Ret ([113; 111; 105; 102; 0; 0; 0; 1; 0; 0; 0; 1; 4; 0; 192;
            0; 0; 0; 0; 0; 0; 0; 1; 0; 0; 0; 0], 23)
  ∧ ∃ es ds,
      enc_upto true always [0; 0; 0; 255] (Desc 1 1 4 0) 1 = Ret es
      ∧ dec_upto true always
          [113; 111; 105; 102; 0; 0; 0; 1; 0; 0; 0; 1; 4; 0; 192;
           0; 0; 0; 0; 0; 0; 0; 1; 0; 0; 0; 0] 23 (Desc 0 0 0 0) 4 1 = Ret ds
      ∧ e_mem es !!! 53%nat = RGBA 0 0 0 0
      ∧ d_mem ds !!! 53%nat = RGBA 0 0 0 255.
Proof.
  split; [vm_compute; reflexivity |].
  eexists _, _. split; [vm_compute; reflexivity |].
  split; [vm_compute; reflexivity |]. split; reflexivity.
Qed.

(** C3 — For non-null arguments, [qoi_encode] fails with [EINVAL] exactly
    when the assertions are compiled out ([NDEBUG]) and its guard fires:
    width or height is zero, channels is neither 3 nor 4, colorspace exceeds
    1, or height is at least [400000000 / width] (integer division).  With
    the assertions compiled in, the same descriptors abort the program
    before the guard. *)
Theorem encode_EINVAL_iff ndebug malloc data desc :
  (qoi_encode ndebug malloc data desc = Err EINVAL ↔
   ndebug = true
   ∧ (width desc = 0 ∨ height desc = 0
      ∨ (channels desc ≠ 3 ∧ channels desc ≠ 4)
      ∨ 1 < colorspace desc
      ∨ 400000000 / width desc ≤ height desc))
  ∧ (width desc = 0 ∨ height desc = 0
     ∨ (channels desc ≠ 3 ∧ channels desc ≠ 4)
     ∨ 1 < colorspace desc
     ∨ 400000000 / width desc ≤ height desc →
     qoi_encode false malloc data desc = Abort).
Proof.
  split.
  - rewrite qoi_encode_EINVAL. by rewrite enc_invalid_spec.
  - intros Hbad%enc_invalid_spec. unfold qoi_encode, enc_start.
    destruct (enc_asserts desc) eqn:Ha; [| done].
    apply enc_asserts_valid in Ha. congruence.
Qed.

(** An image of one column and 400 000 000 rows has [height * width] equal
    to the cap, not above it, and [qoi_encode] rejects it: with [EINVAL] when
    the assertions are compiled out, by aborting when they are compiled in. *)
Lemma encode_EINVAL_counterexample :
  qoi_encode true always (replicate (Z.to_nat 1200000000) 0)
    (Desc 1 400000000 3 0) = Err EINVAL
  ∧ qoi_encode false always (replicate (Z.to_nat 1200000000) 0)
      (Desc 1 400000000 3 0) = Abort
  ∧ ¬ spec_malformed (Desc 1 400000000 3 0).
Proof.
  split_and!.
  - by apply qoi_encode_EINVAL.
  - reflexivity.
  - unfold spec_malformed, QOI_MAXIMUM_PIXELS. simpl. lia.
Qed.

(** C4 — Failure of [qoi_decode], for non-null arguments, with [EINVAL],
    and what it leaves in the caller's descriptor: either the assertions are
    compiled out ([NDEBUG]), the arguments are rejected (target channels not
    0, 3 or 4, or fewer than 22 bytes) and the descriptor is unchanged; or
    the arguments are accepted, the header is rejected (zero width or height,
    channels not 3 or 4, colorspace above 1, wrong magic, pixel cap) and the
    descriptor holds the four fields read from the header.  With the
    assertions compiled in, rejected arguments abort the program instead,
    the descriptor unchanged. *)
Theorem decode_EINVAL_descriptor ndebug malloc data size desc0 target desc' :
  (qoi_decode ndebug malloc data size desc0 target = (Err EINVAL, desc') ↔
   (ndebug = true
    ∧ ((target ≠ 0 ∧ target ≠ 3 ∧ target ≠ 4) ∨ size < 22) ∧ desc' = desc0)
   ∨ (¬ ((target ≠ 0 ∧ target ≠ 3 ∧ target ≠ 4) ∨ size < 22)
      ∧ ∃ magic idx,
          dec_header data = Ret (magic, desc', idx)
          ∧ (width desc' = 0 ∨ height desc' = 0 ∨ channels desc' < 3
             ∨ 4 < channels desc' ∨ 1 < colorspace desc'
             ∨ magic ≠ QOI_MAGIC ∨ 400000000 / width desc' ≤ height desc')))
  ∧ ((target ≠ 0 ∧ target ≠ 3 ∧ target ≠ 4) ∨ size < 22 →
     qoi_decode false malloc data size desc0 target = (Abort, desc0)).
Proof.
  split.
  { rewrite <- dec_bad_args_spec.
    unfold qoi_decode, dec_start.
    rewrite dec_asserts_bad_args, negb_involutive.
    fold (dec_bad_args size target).
    destruct (dec_bad_args size target) eqn:Hargs.
    - rewrite andb_true_r. destruct ndebug; simpl.
      + split.
        * intros [= <-]. by left.
        * intros [(_ & _ & ->) | [H _]]; [done | by destruct H].
      + split; [done |]. intros [(? & _) | [H _]]; [done | by destruct H].
    - rewrite andb_false_r.
      destruct (dec_header data) as [[[magic hdr] idx] | e | | |] eqn:Hhdr.
      + destruct (dec_invalid magic hdr) eqn:Hinv.
        * apply dec_invalid_spec in Hinv. split.
          -- intros [= <-]. right. split; [done |]. by exists magic, idx.
          -- intros [(_ & ? & _) | (_ & magic' & idx' & [= <- <- <-] & _)];
               done.
        * split.
          -- intros H. exfalso. revert H.
             destruct (negb (malloc _)); [done |]. rewrite bind_Ret.
             match goal with
             | |- (?m ≫= _, _) = _ → _ =>
                 pose proof (no_err_dec_loop _ _ _ _ _ _ _ : no_err m) as Hne;
                 destruct m as [? | e | | |]; try done
             end.
             by destruct (Hne e).
          -- intros [(_ & ? & _) | (_ & magic' & idx' & [= <- <- <-] & Hbad)];
               [done |].
             apply dec_invalid_spec in Hbad. congruence.
      + split; [intros [= ->] |].
        * exfalso. revert Hhdr. generalize EINVAL.
          fold (no_err (dec_header data)). unfold dec_header, qoi_read_32.
          no_err_tac.
        * intros [(_ & ? & _) | (_ & ? & ? & ? & _)]; done.
      + split; [done |]. intros [(_ & ? & _) | (_ & ? & ? & ? & _)]; done.
      + split; [done |]. intros [(_ & ? & _) | (_ & ? & ? & ? & _)]; done.
      + split; [done |]. intros [(_ & ? & _) | (_ & ? & ? & ? & _)]; done. }
  intros Hbad%dec_bad_args_spec. unfold qoi_decode, dec_start.
  by rewrite dec_asserts_bad_args, Hbad.
Qed.

(** A 22-byte buffer of zeros passes the assertions and the first guard and
    is rejected by the header validation, after the caller's descriptor has
    been overwritten, whether or not the assertions are compiled in. *)
Lemma decode_EINVAL_counterexample :
  qoi_decode true always (replicate 22 0) 22 (Desc 7 7 3 0) 0
    = (Err EINVAL, Desc 0 0 0 0)
  ∧ qoi_decode false always (replicate 22 0) 22 (Desc 7 7 3 0) 0
    = (Err EINVAL, Desc 0 0 0 0)
  ∧ Desc 0 0 0 0 ≠ Desc 7 7 3 0.
Proof. split_and!; [vm_compute; reflexivity.. | discriminate]. Qed.

(** C5 — Stream framing: the stream [qoi_encode] returns for a valid input
    begins with the 14-byte header (the magic bytes, width and height as
    big-endian 32-bit words, the channels byte, the colorspace byte) and its
    last 8 bytes are the terminator. *)
Theorem stream_framing ndebug malloc data desc :
  valid_image data desc → malloc (enc_capacity desc) = true →
  ∃ bytes size,
    qoi_encode ndebug malloc data desc = Ret (bytes, size)
    ∧ 22 ≤ size ≤ Z.of_nat (length bytes)
    ∧ take 14 bytes
      = [0x71; 0x6f; 0x69; 0x66] ++ be32 (width desc) ++ be32 (height desc)
        ++ [channels desc; colorspace desc]
    ∧ take 8 (drop (Z.to_nat (size - 8)) bytes) = [0; 0; 0; 0; 0; 0; 0; 1].
Proof.
  intros Hvalid Hm.
  destruct (qoi_encode_ok ndebug malloc data desc Hvalid Hm)
    as (bytes & size & Henc & Hlb & Hsz & Hle & Htake).
  exists bytes, size. split; [done |]. split; [lia |].
  fold (header_bytes desc). split.
  - replace 14%nat with (14 `min` Z.to_nat size)%nat by lia.
    rewrite <- take_take, Htake.
    by rewrite <- (length_header_bytes desc), take_app_length.
  - rewrite take_drop_commute.
    replace (Z.to_nat (size - 8) + 8)%nat with (Z.to_nat size) by lia.
    rewrite Htake, app_assoc.
    replace (Z.to_nat (size - 8))
      with (length (header_bytes desc ++ chunks_of (pixels_of data desc))).
    + by rewrite drop_app_length.
    + rewrite length_app, length_header_bytes. lia.
Qed.

Lemma stream_framing_witness :
  ∃ bytes size,
    qoi_encode true always [0; 0; 0; 5; 5; 5] (Desc 2 1 3 0) = Ret (bytes, size)
    ∧ 22 ≤ size ≤ Z.of_nat (length bytes)
    ∧ take 14 bytes
      = [0x71; 0x6f; 0x69; 0x66] ++ be32 2 ++ be32 1 ++ [3; 0]
    ∧ take 8 (drop (Z.to_nat (size - 8)) bytes) = [0; 0; 0; 0; 0; 0; 0; 1].
Proof.
  apply (stream_framing true always [0; 0; 0; 5; 5; 5] (Desc 2 1 3 0)
           valid_image_example eq_refl).
Defined.

(** C6 — Encoder output capacity: for a valid input [qoi_encode] allocates
    [width * height * (channels + 1) + 14 + 8] bytes and returns; every
    store it makes is below that capacity (a store at or beyond it is the
    outcome [Fault]), and so is the size it returns. *)
Theorem output_capacity ndebug malloc data desc :
  valid_image data desc → malloc (enc_capacity desc) = true →
  enc_capacity desc
    = width desc * height desc * (channels desc + 1) + 14 + 8
  ∧ (∀ buf i v buf', store buf i v = Ret buf' → 0 ≤ i < Z.of_nat (length buf))
  ∧ ∃ bytes size,
      qoi_encode ndebug malloc data desc = Ret (bytes, size)
      ∧ Z.of_nat (length bytes) = enc_capacity desc
      ∧ 0 ≤ size ≤ enc_capacity desc.
Proof.
  intros Hvalid Hm.
  destruct (qoi_encode_ok ndebug malloc data desc Hvalid Hm)
    as (bytes & size & Henc & Hlb & Hsz & Hle & Htake).
  destruct Hvalid as (Hwf & Hv & _).
  destruct (enc_sizes desc Hwf Hv) as (Hcap & _).
  split; [lia |]. split.
  - intros buf i v buf'. unfold store.
    destruct (Z.leb_spec 0 i), (Z.ltb_spec i (Z.of_nat (length buf)));
      simpl; (done || lia).
  - exists bytes, size. split_and!; (done || lia).
Qed.

Lemma output_capacity_witness :
  enc_capacity (Desc 2 1 3 0) = 2 * 1 * (3 + 1) + 14 + 8
  ∧ (∀ buf i v buf', store buf i v = Ret buf' → 0 ≤ i < Z.of_nat (length buf))
  ∧ ∃ bytes size,
      qoi_encode true always [0; 0; 0; 5; 5; 5] (Desc 2 1 3 0)
        = Ret (bytes, size)
      ∧ Z.of_nat (length bytes) = enc_capacity (Desc 2 1 3 0)
      ∧ 0 ≤ size ≤ enc_capacity (Desc 2 1 3 0).
Proof.
  apply (output_capacity true always [0; 0; 0; 5; 5; 5] (Desc 2 1 3 0)
           valid_image_example eq_refl).
Defined.

(** C7 — Run-length boundary, for runs of the start pixel: an image of 62
    pixels all equal to (0,0,0,255), the encoder's initial previous pixel,
    encodes with the single chunk byte 0xFD, and an image of 63 such pixels
    with 0xFD followed by 0xC0, between the header and the terminator. *)
Theorem run_boundary ndebug malloc desc :
  desc_wf desc → enc_invalid desc = false →
  malloc (enc_capacity desc) = true →
  width desc * height desc = 62 ∨ width desc * height desc = 63 →
  ∃ bytes size,
    qoi_encode ndebug malloc
      (flat (channels desc)
         (replicate (Z.to_nat (width desc * height desc)) start_px)) desc
      = Ret (bytes, size)
    ∧ take (Z.to_nat size) bytes
      = header_bytes desc
        ++ (if width desc * height desc =? 62 then [0xFD] else [0xFD; 0xC0])
        ++ qoi_padding.
Proof.
  intros Hwf Hv Hm [Hn | Hn]; rewrite Hn.
  - apply (encode_constant ndebug malloc desc 62 start_px Hwf Hv Hm
             (start_px_ok _) Hn).
  - apply (encode_constant ndebug malloc desc 63 start_px Hwf Hv Hm
             (start_px_ok _) Hn).
Qed.

Lemma run_boundary_witness :
  (∃ bytes size,
     qoi_encode true always (flat 4 (replicate 62 start_px)) (Desc 62 1 4 0)
       = Ret (bytes, size)
     ∧ take (Z.to_nat size) bytes
       = header_bytes (Desc 62 1 4 0) ++ [0xFD] ++ qoi_padding)
  ∧ (∃ bytes size,
       qoi_encode true always (flat 3 (replicate 63 start_px)) (Desc 9 7 3 1)
         = Ret (bytes, size)
       ∧ take (Z.to_nat size) bytes
         = header_bytes (Desc 9 7 3 1) ++ [0xFD; 0xC0] ++ qoi_padding).
Proof.
  split.
  - apply (run_boundary true always (Desc 62 1 4 0));
      [unfold desc_wf; simpl; lia | reflexivity | reflexivity | by left].
  - apply (run_boundary true always (Desc 9 7 3 1));
      [unfold desc_wf; simpl; lia | reflexivity | reflexivity | by right].
Defined.

(** 62 identical pixels other than the start pixel do not encode as the one
    byte 0xFD: the first pixel takes a chunk of its own (here LUMA), and the
    61 that follow are the RUN byte 0xFC. *)
Lemma run_boundary_counterexample :
  ∃ bytes size,
    qoi_encode true always (flat 3 (replicate 62 (RGBA 1 2 3 255)))
      (Desc 62 1 3 0) = Ret (bytes, size)
    ∧ take (Z.to_nat size) bytes
      = header_bytes (Desc 62 1 3 0) ++ [0xA2; 0x79; 0xFC] ++ qoi_padding
    ∧ take (Z.to_nat size) bytes
      ≠ header_bytes (Desc 62 1 3 0) ++ [0xFD] ++ qoi_padding.
Proof.
  eexists _, _. split; [vm_compute; reflexivity |].
  split; [vm_compute; reflexivity | vm_compute; discriminate].
Qed.

(** C8 — Zero-init index hit: the 1x1 four-channel image holding the pixel
    (0,0,0,0) encodes its pixel as the single chunk byte 0x00, the INDEX
    chunk of slot [qoi_hash (0,0,0,0) = 0], which the zero-initialised table
    already holds. *)
Theorem zero_pixel_index ndebug malloc colorspace :
  0 ≤ colorspace ≤ 1 →
  malloc (enc_capacity (Desc 1 1 4 colorspace)) = true →
  qoi_hash (RGBA 0 0 0 0) = 0
  ∧ start_mem !!! 0%nat = RGBA 0 0 0 0
  ∧ enc_chunk start_mem start_px 0 (RGBA 0 0 0 0) true
    = ([Z.lor QOI_OP_INDEX 0], start_mem, 0)
  ∧ ∃ bytes size,
      qoi_encode ndebug malloc [0; 0; 0; 0] (Desc 1 1 4 colorspace)
        = Ret (bytes, size)
      ∧ take (Z.to_nat size) bytes
        = header_bytes (Desc 1 1 4 colorspace) ++ [0x00] ++ qoi_padding.
Proof.
  intros Hcs Hm. split; [reflexivity |]. split; [reflexivity |].
  split; [reflexivity |].
  assert (colorspace = 0 ∨ colorspace = 1) as [-> | ->] by lia.
  - apply (encode_constant ndebug malloc (Desc 1 1 4 0) 1 (RGBA 0 0 0 0));
      try done; unfold desc_wf, px_ok, px_valid; simpl; split_and!; lia.
  - apply (encode_constant ndebug malloc (Desc 1 1 4 1) 1 (RGBA 0 0 0 0));
      try done; unfold desc_wf, px_ok, px_valid; simpl; split_and!; lia.
Qed.

Lemma zero_pixel_index_witness :
  qoi_hash (RGBA 0 0 0 0) = 0
  ∧ start_mem !!! 0%nat = RGBA 0 0 0 0
  ∧ enc_chunk start_mem start_px 0 (RGBA 0 0 0 0) true
    = ([Z.lor QOI_OP_INDEX 0], start_mem, 0)
  ∧ ∃ bytes size,
      qoi_encode true always [0; 0; 0; 0] (Desc 1 1 4 0) = Ret (bytes, size)
      ∧ take (Z.to_nat size) bytes
        = header_bytes (Desc 1 1 4 0) ++ [0x00] ++ qoi_padding.
Proof.
  apply (zero_pixel_index true always 0); [lia | reflexivity].
Defined.

(** C9 — Decoder exhaustion: when, after [n] pixels, no run is pending and
    the read index has reached the end of the chunks, [qoi_decode] does not
    fail: it returns the [n] pixels produced so far followed by the last
    value of [px_curr] at every remaining position. *)
Theorem decode_exhausted ndebug malloc data size desc0 target n s :
  Forall is_byte data →
  0 ≤ n ≤ width (dec_start ndebug malloc data size desc0 target).2
          * height (dec_start ndebug malloc data size desc0 target).2 →
  dec_upto ndebug malloc data size desc0 target n = Ret s →
  d_run s = 0 → u32 (size - 8) ≤ d_idx s →
  ∃ px desc',
    qoi_decode ndebug malloc data size desc0 target = (Ret px, desc')
    ∧ let ch := if target =? 0 then channels desc' else target in
      px = take (Z.to_nat (n * ch)) (d_px s)
           ++ mjoin (replicate (Z.to_nat (width desc' * height desc' - n))
                       (px_bytes ch (d_curr s))).
Proof.
  intros Hbytes Hn Hupto Hrun Hidx. unfold dec_upto, qoi_decode in *.
  destruct (dec_start ndebug malloc data size desc0 target)
    as [start desc'] eqn:Hs.
  simpl in Hupto, Hn.
  apply bind_inv in Hupto as ([[ch px_len] s0] & -> & Hupto).
  apply dec_start_Ret in Hs
    as (_ & _ & _ & Hch_eq & Hch & Hwh & -> & _ & ->).
  rewrite bind_Ret.
  set (k := Z.to_nat n). set (m := Z.to_nat (width desc' * height desc' - n)).
  replace (Z.min (width desc' * height desc' * ch) (n * ch))
    with (0 + ch * Z.of_nat k) in Hupto by (destruct Hch; nia).
  pose proof (dec_loop_length _ _ _ _ _ _ _ _ Hupto) as Hlen.
  simpl in Hlen. rewrite length_replicate in Hlen.
  pose proof Hupto as Hcurr.
  apply dec_loop_valid in Hcurr as [_ Hcurr];
    [| done | apply start_mem_valid | apply (start_px_ok ch)].
  rewrite (dec_loop_split data (u32 (size - 8)) ch k 0 _ s _
    (Z.to_nat (width desc' * height desc' * ch))
    (width desc' * height desc' * ch))
    by (done || destruct Hch; nia).
  destruct s as [idx mem px curr run]. simpl in *. subst run.
  destruct (dec_loop_exhausted data (u32 (size - 8)) ch m
    (0 + ch * Z.of_nat k) idx mem px curr 0
    (Z.to_nat (width desc' * height desc' * ch) - k))
    as (px' & Hloop & Hl' & Htake); try done; try (destruct Hch; nia).
  replace (0 + ch * Z.of_nat k + ch * Z.of_nat m)
    with (width desc' * height desc' * ch) in Hloop, Htake by lia.
  rewrite Hloop, bind_Ret. simpl.
  exists px', desc'. split; [done |]. rewrite <- Hch_eq.
  rewrite take_ge in Htake by lia.
  rewrite fmap_u8_bytes in Htake by by apply px_bytes_valid.
  rewrite Htake. do 2 f_equal. lia.
Qed.

Lemma decode_exhausted_witness :
  ∃ px desc',
    qoi_decode true always
      [113; 111; 105; 102; 0; 0; 0; 3; 0; 0; 0; 1; 3; 0; 254; 10; 20; 30;
       0; 0; 0; 0; 0; 0; 0; 1] 26 (Desc 0 0 0 0) 0 = (Ret px, desc')
    ∧ let ch := if 0 =? 0 then channels desc' else 0 in
      px = take (Z.to_nat (1 * ch))
             (d_px (DecS 18 (<[9%nat := RGBA 10 20 30 255]> start_mem)
                      [10; 20; 30; 0; 0; 0; 0; 0; 0] (RGBA 10 20 30 255) 0))
           ++ mjoin (replicate (Z.to_nat (width desc' * height desc' - 1))
                       (px_bytes ch (RGBA 10 20 30 255))).
Proof.
  apply (decode_exhausted true always
    [113; 111; 105; 102; 0; 0; 0; 3; 0; 0; 0; 1; 3; 0; 254; 10; 20; 30;
     0; 0; 0; 0; 0; 0; 0; 1] 26 (Desc 0 0 0 0) 0 1
    (DecS 18 (<[9%nat := RGBA 10 20 30 255]> start_mem)
       [10; 20; 30; 0; 0; 0; 0; 0; 0] (RGBA 10 20 30 255) 0));
    [| by vm_compute | vm_compute; reflexivity | reflexivity | by vm_compute].
  unfold is_byte.
  repeat (apply Forall_cons; split; [lia |]). apply Forall_nil_2.
Defined.

(** C10 — Decoder in-bounds reads: on a buffer of [size >= 22] bytes
    [qoi_decode] never reads the input (nor writes the output) outside its
    bounds.  The hypothesis asks only for the first [size - 4] bytes of the
    buffer: a chunk read at the last position before [size - 8] takes its
    payload from at most the first four bytes of the terminator region, so no
    read is at index [size - 4] or beyond. *)
Theorem decode_in_bounds ndebug malloc data size desc0 target :
  22 ≤ size < 2147483648 →
  size - 4 ≤ Z.of_nat (length data) →
  (qoi_decode ndebug malloc data size desc0 target).1 ≠ Fault
  ∧ (qoi_decode ndebug malloc data size desc0 target).1 ≠ OutOfFuel.
Proof.
  intros Hsize Hlen. unfold qoi_decode.
  destruct (dec_start ndebug malloc data size desc0 target)
    as [start desc'] eqn:Hs.
  destruct start as [[[ch px_len] s] | e | | |]; simpl; [| done | | | done].
  - apply dec_start_Ret in Hs
      as (_ & _ & _ & _ & Hch & Hwh & -> & _ & ->).
    destruct (dec_loop_total data (u32 (size - 8)) ch
      (Z.to_nat (width desc' * height desc')) 0
      (DecS 14 start_mem
         (replicate (Z.to_nat (width desc' * height desc' * ch)) 0)
         start_px 0)
      (Z.to_nat (width desc' * height desc' * ch)))
      as (s' & Hloop & _);
      [done | rewrite u32_small by lia; lia | rewrite u32_small by lia; lia
      | simpl; lia | lia
      | simpl; rewrite length_replicate; destruct Hch; nia
      | simpl; rewrite length_replicate; destruct Hch; nia
      | destruct Hch; nia |].
    replace (0 + ch * Z.of_nat (Z.to_nat (width desc' * height desc')))
      with (width desc' * height desc' * ch) in Hloop by lia.
    rewrite Hloop. done.
  - exfalso. unfold dec_start in Hs.
    destruct (negb ndebug && negb (dec_asserts size target)); [done |].
    destruct (_ || _); [done |].
    destruct (dec_header_total data) as (magic & hdr & Hh); [lia |].
    rewrite Hh in Hs.
    repeat match type of Hs with
      | context [if ?b then _ else _] => destruct b
      end; done.
  - exfalso. unfold dec_start in Hs.
    destruct (negb ndebug && negb (dec_asserts size target)); [done |].
    destruct (_ || _); [done |].
    destruct (dec_header_total data) as (magic & hdr & Hh); [lia |].
    rewrite Hh in Hs.
    repeat match type of Hs with
      | context [if ?b then _ else _] => destruct b
      end; done.
Qed.

Lemma decode_in_bounds_witness :
  (qoi_decode true always
     [113; 111; 105; 102; 0; 0; 0; 1; 0; 0; 0; 1; 4; 0; 255; 9; 8; 7; 6]
     23 (Desc 0 0 0 0) 0).1 ≠ Fault
  ∧ (qoi_decode true always
       [113; 111; 105; 102; 0; 0; 0; 1; 0; 0; 0; 1; 4; 0; 255; 9; 8; 7; 6]
       23 (Desc 0 0 0 0) 0).1 ≠ OutOfFuel.
Proof.
  apply (decode_in_bounds true always
    [113; 111; 105; 102; 0; 0; 0; 1; 0; 0; 0; 1; 4; 0; 255; 9; 8; 7; 6]
    23 (Desc 0 0 0 0) 0); [lia | simpl; lia].
Defined.

(** * Further properties of the codec *)

(** ** The helper functions *)

(** A buffer holds [chunk] at [idx] when its prefix up to the end of the
    chunk says so. *)
Lemma bytes_at_take bytes pre chunk :
  take (length pre + length chunk) bytes = pre ++ chunk →
  bytes_at bytes (Z.of_nat (length pre)) chunk.
Proof.
  intros Htake k b Hk i ->.
  apply lookup_lt_Some in Hk as Hlt.
  replace (Z.to_nat _) with (length pre + k)%nat by lia.
  rewrite <- (lookup_take_lt bytes (length pre + length chunk)) by lia.
  rewrite Htake, lookup_app_r, Nat.add_sub' by lia. done.
Qed.

(** X1 — A 32-bit value written by [qoi_write_32] is read back by
    [qoi_read_32] at the same index: both advance the index by four, and
    the bytes below the index are left as they were. *)
Theorem write_read_32 v c :
  cursor_ok c → c_idx c + 4 ≤ Z.of_nat (length (c_bytes c)) →
  0 ≤ v < 4294967296 →
  ∃ c',
    qoi_write_32 v c = Ret c'
    ∧ c_idx c' = c_idx c + 4
    ∧ take (Z.to_nat (c_idx c)) (c_bytes c')
      = take (Z.to_nat (c_idx c)) (c_bytes c)
    ∧ qoi_read_32 (c_bytes c') (c_idx c) = Ret (v, c_idx c').
Proof.
  intros Hok Hroom Hv.
  destruct (qoi_write_32_ok v c Hok Hroom) as (c' & Hw & Hok' & Hi & Hl & Hwr).
  pose proof (length_written c Hok) as Hlw.
  pose proof Hok as [? ?].
  exists c'. split_and!; [done | done | |].
  - unfold written in Hwr. rewrite Hi in Hwr.
    apply (f_equal (take (Z.to_nat (c_idx c)))) in Hwr.
    rewrite take_take, Nat.min_l in Hwr by lia.
    rewrite Hwr, take_app_le by (rewrite length_take; lia).
    by rewrite take_take, Nat.min_id.
  - rewrite Hi. apply qoi_read_32_be; [lia | lia | done |].
    rewrite <- Hlw. apply bytes_at_take.
    transitivity (take (Z.to_nat (c_idx c')) (c_bytes c')); [| exact Hwr].
    f_equal. change (length (be32 v)) with 4%nat. lia.
Qed.

Lemma write_read_32_witness :
  ∃ c',
    qoi_write_32 0x716f6966 (Cursor [0; 0; 9; 9; 9; 9; 0] 2) = Ret c'
    ∧ c_idx c' = 2 + 4
    ∧ take (Z.to_nat 2) (c_bytes c') = take (Z.to_nat 2) [0; 0; 9; 9; 9; 9; 0]
    ∧ qoi_read_32 (c_bytes c') 2 = Ret (0x716f6966, c_idx c').
Proof.
  apply (write_read_32 0x716f6966 (Cursor [0; 0; 9; 9; 9; 9; 0] 2));
    [unfold cursor_ok; simpl; lia | simpl; lia | lia].
Defined.

(** ** Allocation failure *)

(** X2 — [qoi_encode] fails with [ENOMEM] exactly when the descriptor passes
    the guard and the allocation of [width * height * (channels + 1) + 22]
    bytes fails. *)
Theorem encode_ENOMEM_iff ndebug malloc data desc :
  desc_wf desc →
  qoi_encode ndebug malloc data desc = Err ENOMEM ↔
  enc_invalid desc = false
  ∧ malloc (width desc * height desc * (channels desc + 1) + 22) = false.
Proof.
  intros Hwf. unfold qoi_encode, enc_start.
  destruct (enc_invalid desc) eqn:Hv.
  - split; [| by intros [? _]]. by destruct (negb ndebug && _).
  - rewrite (enc_asserts_ok desc Hwf Hv), andb_false_r.
    destruct (enc_sizes desc Hwf Hv) as (-> & _).
    destruct (malloc _); simpl; [| done].
    split; [| by intros [_ ?]].
    intros H. exfalso. revert H. generalize ENOMEM.
    fold (no_err (A:=list Z * Z)).
    no_err_tac. apply no_err_enc_loop.
Qed.

Lemma encode_ENOMEM_witness :
  qoi_encode true (λ n, n <? 30) [1; 2; 3; 4; 5; 6] (Desc 2 1 3 0)
    = Err ENOMEM.
Proof.
  apply (encode_ENOMEM_iff true (λ n, n <? 30) [1; 2; 3; 4; 5; 6]
           (Desc 2 1 3 0)); [unfold desc_wf; simpl; lia |].
  split; reflexivity.
Defined.

(** ** What [qoi_decode] returns *)

Lemma store_bytes bytes i v bytes' :
  Forall is_byte bytes → store bytes i v = Ret bytes' → Forall is_byte bytes'.
Proof.
  intros Hb. unfold store. destruct (_ && _); [| done].
  intros [= <-]. apply Forall_insert; [done | apply u8_range].
Qed.

Lemma dec_emit_bytes ch pos s s' :
  Forall is_byte (d_px s) → dec_emit ch pos s = Ret s' →
  Forall is_byte (d_px s').
Proof.
  destruct s as [idx mem px curr run]. simpl. intros Hb. unfold dec_emit.
  destruct (ch =? 4); intros H;
    repeat (apply bind_inv in H as (? & ?%store_bytes & H); [| done]);
    by injection H as <-.
Qed.

Lemma dec_loop_bytes fuel bytes px_chunks ch bound : ∀ pos s s',
  Forall is_byte (d_px s) →
  dec_loop fuel bytes px_chunks ch bound pos s = Ret s' →
  Forall is_byte (d_px s').
Proof.
  induction fuel as [| fuel IH]; intros pos s s' Hb;
    unfold dec_loop; fold dec_loop;
    destruct (pos <? bound); try done; try by intros [= <-].
  intros H. apply bind_inv in H as (s1 & Hiter & H).
  unfold dec_iter in Hiter.
  apply bind_inv in Hiter as (s2 & Hc%dec_chunk_px & He).
  apply (IH _ _ _) in H; [done |].
  eapply dec_emit_bytes; [| done]. by rewrite Hc.
Qed.

(** X3 — When [qoi_decode] returns pixels, the caller's descriptor holds the
    four fields of the header, which the buffer begins with after the magic
    bytes and which are valid; the output has exactly [width * height *
    channels] entries, each of them a byte, [channels] being the target
    channels, or the header's when the target is 0. *)
Theorem decode_returns ndebug malloc data size desc0 target px desc' :
  qoi_decode ndebug malloc data size desc0 target = (Ret px, desc') →
  (∃ idx, dec_header data = Ret (QOI_MAGIC, desc', idx))
  ∧ 22 ≤ size
  ∧ 0 < width desc' ∧ 0 < height desc'
  ∧ width desc' * height desc' < 400000000
  ∧ (channels desc' = 3 ∨ channels desc' = 4)
  ∧ colorspace desc' ≤ 1
  ∧ Z.of_nat (length px)
    = width desc' * height desc'
      * (if target =? 0 then channels desc' else target)
  ∧ Forall is_byte px.
Proof.
  unfold qoi_decode.
  destruct (dec_start ndebug malloc data size desc0 target)
    as [start desc1] eqn:Hs.
  destruct start as [[[ch px_len] s] | | | |]; simpl; try done.
  destruct (dec_loop _ _ _ _ _ _ _) as [s' | | | |] eqn:Hloop; simpl;
    try done.
  intros [= <- <-].
  apply dec_start_Ret in Hs
    as (Hargs & (idx & Hhdr) & Hinv & -> & Hch & Hwh & -> & _ & ->).
  apply dec_header_inv in Hhdr as Hh. destruct Hh as (_ & Hw & Hh & _).
  destruct (dec_invalid_bounds _ _ (proj1 Hw) (proj1 Hh) Hinv)
    as (? & ? & ? & ? & ? & _).
  split; [by exists idx |].
  split. { unfold dec_bad_args, QOI_HEADER_SIZE in Hargs.
           apply orb_false_iff in Hargs as [_ Hargs]. apply Z.ltb_ge in Hargs.
           lia. }
  split_and!; try done; try lia.
  - apply dec_loop_length in Hloop as ->. simpl.
    rewrite length_replicate. destruct Hch; nia.
  - apply dec_loop_bytes in Hloop; [done |]. simpl.
    apply Forall_replicate. unfold is_byte. lia.
Qed.

Lemma decode_returns_witness :
  (∃ idx,
     dec_header
       [113; 111; 105; 102; 0; 0; 0; 1; 0; 0; 0; 1; 4; 0; 255; 9; 8; 7; 6;
        0; 0; 0; 0; 0; 0; 0; 1] = Ret (QOI_MAGIC, Desc 1 1 4 0, idx))
  ∧ 22 ≤ 27
  ∧ 0 < width (Desc 1 1 4 0) ∧ 0 < height (Desc 1 1 4 0)
  ∧ width (Desc 1 1 4 0) * height (Desc 1 1 4 0) < 400000000
  ∧ (channels (Desc 1 1 4 0) = 3 ∨ channels (Desc 1 1 4 0) = 4)
  ∧ colorspace (Desc 1 1 4 0) ≤ 1
  ∧ Z.of_nat (length [9; 8; 7; 6])
    = width (Desc 1 1 4 0) * height (Desc 1 1 4 0)
      * (if 0 =? 0 then channels (Desc 1 1 4 0) else 0)
  ∧ Forall is_byte [9; 8; 7; 6].
Proof.
  apply (decode_returns true always
    [113; 111; 105; 102; 0; 0; 0; 1; 0; 0; 0; 1; 4; 0; 255; 9; 8; 7; 6;
     0; 0; 0; 0; 0; 0; 0; 1] 27 (Desc 7 7 7 7) 0).
  vm_compute. reflexivity.
Defined.

(** X4 — [qoi_decode] fails with [ENOMEM] exactly when the arguments and
    the header are accepted and the allocation of [width * height *
    channels] bytes fails; the caller's descriptor then holds the fields of
    the header. *)
Theorem decode_ENOMEM_iff ndebug malloc data size desc0 target desc' :
  qoi_decode ndebug malloc data size desc0 target = (Err ENOMEM, desc') ↔
  dec_bad_args size target = false
  ∧ (∃ idx, dec_header data = Ret (QOI_MAGIC, desc', idx))
  ∧ dec_invalid QOI_MAGIC desc' = false
  ∧ malloc (width desc' * height desc'
            * (if target =? 0 then channels desc' else target)) = false.
Proof.
  unfold qoi_decode, dec_start.
  rewrite dec_asserts_bad_args, negb_involutive.
  fold (dec_bad_args size target).
  destruct (dec_bad_args size target) eqn:Hargs.
  - split; [| by intros [? _]]. by destruct (negb ndebug && true).
  - rewrite andb_false_r.
    destruct (dec_header data) as [[[magic hdr] idx] | e | | |] eqn:Hhdr;
      try (split; [done | by intros (_ & [? ?] & _)]).
    + destruct (dec_invalid magic hdr) eqn:Hinv.
      * split; [done |].
        intros (_ & [idx' [= <- <- <-]] & ? & _). congruence.
      * apply dec_header_inv in Hhdr as Hh.
        destruct Hh as (-> & Hw & Hh & _).
        destruct (dec_invalid_bounds _ _ (proj1 Hw) (proj1 Hh) Hinv)
          as (? & ? & ? & Hch & ? & ->).
        assert (dec_bad := Hargs). unfold dec_bad_args in dec_bad.
        apply orb_false_iff in dec_bad as [Ht _].
        assert ((if target =? 0 then channels hdr else target) = 3
                ∨ (if target =? 0 then channels hdr else target) = 4) as Hch'.
        { destruct (Z.eqb_spec target 0); [done |].
          destruct (Z.eqb_spec target 3); [by left |].
          destruct (Z.eqb_spec target 4); [by right | done]. }
        rewrite (u32_small (width hdr * height hdr)) by nia.
        rewrite u32_small by (destruct Hch' as [-> | ->]; nia).
        destruct (malloc _) eqn:Hm; simpl.
        -- split.
           ++ intros Hdec. exfalso. revert Hdec.
              match goal with
              | |- (?m ≫= _, _) = _ → _ =>
                  pose proof (no_err_dec_loop _ _ _ _ _ _ _ : no_err m)
                    as Hne;
                  destruct m as [? | e | | |]; try done
              end.
              by destruct (Hne e).
           ++ intros (_ & [idx' [= <-]] & _ & Hm'). congruence.
        -- split.
           ++ intros [= <-]. split_and!; try done. by exists 14.
           ++ by intros (_ & [idx' [= <-]] & _ & _).
    + split; [intros [= -> _] |].
      * exfalso. revert Hhdr. generalize ENOMEM.
        fold (no_err (dec_header data)). unfold dec_header, qoi_read_32.
        no_err_tac.
      * by intros (_ & [? ?] & _).
Qed.

(** X5 — Target channels 0 stand for the channels of the header: on a
    buffer whose header names 3 or 4 channels, [qoi_decode] with target 0
    and with that number do the same. *)
Theorem decode_default_channels ndebug malloc data size desc0 magic hdr idx :
  dec_header data = Ret (magic, hdr, idx) →
  channels hdr = 3 ∨ channels hdr = 4 →
  qoi_decode ndebug malloc data size desc0 0
  = qoi_decode ndebug malloc data size desc0 (channels hdr).
Proof.
  intros Hhdr Hch. unfold qoi_decode, dec_start, dec_asserts.
  rewrite Hhdr. by destruct Hch as [-> | ->].
Qed.

Lemma decode_default_channels_witness :
  qoi_decode true always
    [113; 111; 105; 102; 0; 0; 0; 1; 0; 0; 0; 1; 4; 0; 255; 9; 8; 7; 6;
     0; 0; 0; 0; 0; 0; 0; 1] 27 (Desc 0 0 0 0) 0
  = qoi_decode true always
      [113; 111; 105; 102; 0; 0; 0; 1; 0; 0; 0; 1; 4; 0; 255; 9; 8; 7; 6;
       0; 0; 0; 0; 0; 0; 0; 1] 27 (Desc 0 0 0 0) (channels (Desc 1 1 4 0)).
Proof.
  apply (decode_default_channels true always
    [113; 111; 105; 102; 0; 0; 0; 1; 0; 0; 0; 1; 4; 0; 255; 9; 8; 7; 6;
     0; 0; 0; 0; 0; 0; 0; 1] 27 (Desc 0 0 0 0) QOI_MAGIC (Desc 1 1 4 0) 14);
    [reflexivity | by right].
Defined.

(** ** The decoder on a stream of the encoder *)

(** The decoder in lockstep with the encoder on any buffer that holds the
    header and the chunks of an image, whatever follows them. *)
Lemma dec_lockstep_buffer data desc b size (k fuel : nat) bs me prev run :
  valid_image data desc →
  size = 14 + Z.of_nat (length (chunks_of (pixels_of data desc))) + 8 →
  bytes_at b 0 (header_bytes desc ++ chunks_of (pixels_of data desc)) →
  (k ≤ length (pixels_of data desc))%nat → (k ≤ fuel)%nat →
  enc_run start_mem start_px 0 (take k (pixels_of data desc))
    (drop k (pixels_of data desc)) = (bs, me, prev, run) →
  ∃ ds,
    dec_loop fuel b (u32 (size - 8)) (channels desc)
      (channels desc * Z.of_nat k) 0
      (DecS 14 start_mem (replicate (Z.to_nat (enc_px_len desc)) 0)
         start_px 0) = Ret ds
    ∧ lockstep b (size - 8) (channels desc) me prev run
        (14 + Z.of_nat (length bs)) (drop k (pixels_of data desc))
        (flat (channels desc) (take k (pixels_of data desc))) ds.
Proof.
  intros Hvalid Hsz Hat Hk Hfuel Hrun.
  destruct (pixels_of_spec data desc Hvalid) as (Hflat & Hps & Hn).
  pose proof Hvalid as (Hwf & Hv & Hbytes & Hlen).
  destruct (enc_valid_bounds desc) as (Hw & Hh & Hwh & Hch & Hcs); [done.. |].
  destruct (enc_sizes desc) as (Hcap & Hpx_len & Hpx_end); [done.. |].
  set (ps := pixels_of data desc) in *. set (ch := channels desc) in *.
  pose proof (chunks_of_length ch ps Hch Hps) as Hcl.
  assert (size - 8 + 5 < 4294967296) as Hsize by (destruct Hch; lia).
  rewrite u32_small by lia.
  assert (lockstep b (size - 8) ch start_mem start_px 0 14
    (take k ps ++ drop k ps) []
    (DecS 14 start_mem (replicate (Z.to_nat (enc_px_len desc)) 0) start_px 0))
    as Hls.
  { rewrite take_drop. split; simpl; try done.
    - apply prev_in_table_start.
    - fold (chunks_of ps). by apply bytes_at_app_r in Hat.
    - fold (chunks_of ps). lia.
    - apply tables_agree_start.
    - rewrite length_replicate. lia.
    - rewrite length_replicate. destruct Hch; lia. }
  destruct (lockstep_loop b (size - 8) ch Hch Hsize (take k ps) (drop k ps)
    start_mem start_px 0 14 [] _ fuel bs me prev run Hls)
    as (ds & Hloop & Hls').
  { rewrite length_take. lia. }
  { done. }
  exists ds. split; [| done].
  rewrite <- Hloop. simpl. rewrite length_take, Nat.min_l by done. done.
Qed.

(** [qoi_decode] on a buffer that holds the header and the chunks of an
    image. *)
Lemma qoi_decode_stream ndebug malloc data desc desc0 b size :
  valid_image data desc →
  size = 14 + Z.of_nat (length (chunks_of (pixels_of data desc))) + 8 →
  bytes_at b 0 (header_bytes desc ++ chunks_of (pixels_of data desc)) →
  malloc (Z.of_nat (length data)) = true →
  qoi_decode ndebug malloc b size desc0 (channels desc) = (Ret data, desc).
Proof.
  intros Hvalid Hsz Hat Hm.
  destruct (pixels_of_spec data desc Hvalid) as (Hflat & Hps & Hn).
  pose proof Hvalid as (Hwf & Hv & Hbytes & Hlen).
  destruct (enc_valid_bounds desc) as (Hw & Hh & Hwh & Hch & Hcs); [done.. |].
  destruct (enc_sizes desc) as (_ & Hpx_len & _); [done.. |].
  set (ps := pixels_of data desc) in *.
  destruct (enc_run start_mem start_px 0 (take (length ps) ps)
    (drop (length ps) ps)) as [[[bs me] prev] run] eqn:Hrun.
  destruct (dec_lockstep_buffer data desc b size (length ps)
    (Z.to_nat (enc_px_len desc)) bs me prev run Hvalid Hsz Hat)
    as (ds & Hloop & Hls); [done | destruct Hch; nia | done |].
  unfold qoi_decode.
  rewrite (dec_start_ok ndebug malloc b size desc desc0);
    [| done | done | by apply bytes_at_app_l in Hat | lia
     | by rewrite Hpx_len, <- Hlen].
  rewrite bind_Ret.
  replace (channels desc * Z.of_nat (length ps)) with (enc_px_len desc)
    in Hloop by lia.
  rewrite Hloop, bind_Ret. do 2 f_equal.
  pose proof (ls_done _ _ _ _ _ _ _ _ _ _ Hls) as Hdone.
  pose proof (ls_px_len _ _ _ _ _ _ _ _ _ _ Hls) as Hpx.
  fold ps in Hdone, Hpx.
  rewrite firstn_all, Hflat in Hdone, Hpx.
  rewrite length_drop, Nat.sub_diag in Hpx.
  rewrite take_ge in Hdone by lia. done.
Qed.

(** X6 — [qoi_decode] does not look at the end marker: on any buffer that
    agrees with the stream of [qoi_encode] up to the last eight bytes
    (whatever it holds there, if anything), with the size of that stream, it
    returns the pixels and the descriptor that were encoded. *)
Theorem decode_ignores_end_marker ndebug malloc malloc' data desc desc0 bytes
    size b :
  valid_image data desc →
  qoi_encode ndebug malloc data desc = Ret (bytes, size) →
  take (Z.to_nat (size - 8)) b = take (Z.to_nat (size - 8)) bytes →
  malloc' (Z.of_nat (length data)) = true →
  qoi_decode ndebug malloc' b size desc0 (channels desc) = (Ret data, desc).
Proof.
  intros Hvalid Henc Hb Hm'.
  pose proof Hvalid as (Hwf & Hv & _).
  pose proof (qoi_encode_Ret_malloc _ _ _ _ _ _ Hwf Hv Henc) as Hm.
  destruct (qoi_encode_ok ndebug malloc data desc Hvalid Hm)
    as (bytes' & size' & Henc' & Hlb & Hsz & Hle & Htake).
  rewrite Henc in Henc'. injection Henc' as <- <-.
  apply (qoi_decode_stream ndebug malloc' data desc desc0 b size);
    [done | done | | done].
  apply (bytes_at_take b []).
  change (take (length (header_bytes desc ++ chunks_of (pixels_of data desc)))
            b = header_bytes desc ++ chunks_of (pixels_of data desc)).
  apply (f_equal (take (Z.to_nat (size - 8)))) in Htake.
  rewrite take_take, Nat.min_l in Htake by lia.
  rewrite app_assoc, take_app_length' in Htake
    by (rewrite length_app, length_header_bytes; lia).
  replace (length (header_bytes desc ++ chunks_of (pixels_of data desc)))
    with (Z.to_nat (size - 8))
    by (rewrite length_app, length_header_bytes; lia).
  by rewrite Hb.
Qed.

Lemma decode_ignores_end_marker_witness :
  qoi_decode true always
    [113; 111; 105; 102; 0; 0; 0; 2; 0; 0; 0; 1; 3; 0; 192; 165; 136; 7; 7]
    25 (Desc 9 9 9 9) (channels (Desc 2 1 3 0))
  = (Ret [0; 0; 0; 5; 5; 5], Desc 2 1 3 0).
Proof.
  apply (decode_ignores_end_marker true always always [0; 0; 0; 5; 5; 5]
    (Desc 2 1 3 0) (Desc 9 9 9 9)
    [113; 111; 105; 102; 0; 0; 0; 2; 0; 0; 0; 1; 3; 0; 192; 165; 136;
     0; 0; 0; 0; 0; 0; 0; 1; 0; 0; 0; 0; 0] 25
    [113; 111; 105; 102; 0; 0; 0; 2; 0; 0; 0; 1; 3; 0; 192; 165; 136; 7; 7]
    valid_image_example); reflexivity.
Defined.

(** ** Decoding into three or four channels *)

(** [dec_chunk] neither reads nor writes the output buffer. *)
Lemma dec_chunk_px_indep bytes px_chunks idx mem px px' curr run s' :
  dec_chunk bytes px_chunks (DecS idx mem px curr run) = Ret s' →
  d_px s' = px
  ∧ dec_chunk bytes px_chunks (DecS idx mem px' curr run)
    = Ret (DecS (d_idx s') (d_mem s') px' (d_curr s') (d_run s')).
Proof.
  unfold dec_chunk. destruct (0 <? run); [by intros [= <-] |].
  destruct (idx <? px_chunks); [| by intros [= <-]].
  intros H. apply bind_inv in H as ([byte1 idx1] & Hg & H).
  apply bind_inv in H as ([[idx2 curr2] run2] & Ho & H).
  injection H as <-. by rewrite Hg, bind_Ret, Ho.
Qed.

(** Two runs of the decoder's loop on the same chunks, one writing [ch1]
    channels and one [ch2], write the same pixels. *)
Lemma dec_loop_channels bytes px_chunks ch1 ch2 (m : nat) :
  ch1 = 3 ∨ ch1 = 4 → ch2 = 3 ∨ ch2 = 4 → Forall is_byte bytes →
  ∀ fuel1 fuel2 pos1 pos2 idx mem curr run px1 px2 s1 s2,
    Forall px_valid mem → px_valid curr →
    0 ≤ pos1 → pos1 + ch1 * Z.of_nat m ≤ Z.of_nat (length px1) →
    Z.of_nat (length px1) < 4294967296 →
    0 ≤ pos2 → pos2 + ch2 * Z.of_nat m ≤ Z.of_nat (length px2) →
    Z.of_nat (length px2) < 4294967296 →
    dec_loop fuel1 bytes px_chunks ch1 (pos1 + ch1 * Z.of_nat m) pos1
      (DecS idx mem px1 curr run) = Ret s1 →
    dec_loop fuel2 bytes px_chunks ch2 (pos2 + ch2 * Z.of_nat m) pos2
      (DecS idx mem px2 curr run) = Ret s2 →
    ∃ ps,
      length ps = m ∧ Forall px_valid ps
      ∧ take (Z.to_nat (pos1 + ch1 * Z.of_nat m)) (d_px s1)
        = take (Z.to_nat pos1) px1 ++ flat ch1 ps
      ∧ take (Z.to_nat (pos2 + ch2 * Z.of_nat m)) (d_px s2)
        = take (Z.to_nat pos2) px2 ++ flat ch2 ps.
Proof.
  intros Hch1 Hch2 Hb. induction m as [| m IH];
    intros fuel1 fuel2 pos1 pos2 idx mem curr run px1 px2 s1 s2 Hmem Hcurr
      Hp1 Hl1 Hlt1 Hp2 Hl2 Hlt2 H1 H2.
  - rewrite dec_loop_done in H1, H2 by lia.
    injection H1 as <-. injection H2 as <-. exists []. simpl.
    rewrite !Z.mul_0_r, !Z.add_0_r, !app_nil_r. done.
  - destruct fuel1 as [| fuel1];
      [unfold dec_loop in H1; by rewrite (proj2 (Z.ltb_lt _ _)) in H1
         by (destruct Hch1; lia) |].
    destruct fuel2 as [| fuel2];
      [unfold dec_loop in H2; by rewrite (proj2 (Z.ltb_lt _ _)) in H2
         by (destruct Hch2; lia) |].
    rewrite dec_loop_step in H1 by (destruct Hch1; lia).
    rewrite dec_loop_step in H2 by (destruct Hch2; lia).
    apply bind_inv in H1 as (t1 & Hi1 & H1).
    apply bind_inv in H2 as (t2 & Hi2 & H2).
    unfold dec_iter in Hi1, Hi2.
    apply bind_inv in Hi1 as (c1 & Hc1 & He1).
    apply bind_inv in Hi2 as (c2 & Hc2 & He2).
    pose proof (dec_chunk_valid _ _ (DecS idx mem px1 curr run) _ Hb Hmem Hcurr
      Hc1) as [Hmem' Hcurr'].
    apply (dec_chunk_px_indep _ _ _ _ _ px2) in Hc1 as [Hpx1 Hc1].
    rewrite Hc2 in Hc1. injection Hc1 as ->.
    destruct c1 as [idx' mem' px1' curr' run'].
    cbn [d_px d_idx d_mem d_curr d_run] in *. subst px1'.
    destruct (dec_emit_ok ch1 pos1 idx' mem' px1 curr' run')
      as (q1 & Hq1 & Hlq1 & Htq1 & _); [done | lia | lia | lia |].
    destruct (dec_emit_ok ch2 pos2 idx' mem' px2 curr' run')
      as (q2 & Hq2 & Hlq2 & Htq2 & _); [done | lia | lia | lia |].
    rewrite Hq1 in He1. injection He1 as <-.
    rewrite Hq2 in He2. injection He2 as <-.
    rewrite u32_small in H1 by (destruct Hch1; lia).
    rewrite u32_small in H2 by (destruct Hch2; lia).
    replace (pos1 + ch1 * Z.of_nat (S m))
      with (pos1 + ch1 + ch1 * Z.of_nat m) in * by lia.
    replace (pos2 + ch2 * Z.of_nat (S m))
      with (pos2 + ch2 + ch2 * Z.of_nat m) in * by lia.
    destruct (IH fuel1 fuel2 (pos1 + ch1) (pos2 + ch2) idx' mem' curr' run'
                q1 q2 s1 s2) as (ps & Hlen & Hps & Ht1 & Ht2);
      [done | done | destruct Hch1; lia | lia | lia | destruct Hch2; lia
      | lia | lia | done | done |].
    exists (curr' :: ps). simpl.
    rewrite fmap_u8_bytes in Htq1, Htq2 by by apply px_bytes_valid.
    split_and!; [by rewrite Hlen | by apply Forall_cons | |].
    + by rewrite Ht1, Htq1, <- !app_assoc.
    + by rewrite Ht2, Htq2, <- !app_assoc.
Qed.

(** X7 — The pixels [qoi_decode] produces do not depend on the target
    channels, only their layout does: two calls on the same buffer, with any
    two targets, that both return, leave the same descriptor and return the
    three- or four-byte layouts of one sequence of [width * height]
    pixels. *)
Theorem decode_channels ndebug malloc1 malloc2 data size desc1 desc2 t1 t2 px1
    px2 d1 d2 :
  Forall is_byte data →
  qoi_decode ndebug malloc1 data size desc1 t1 = (Ret px1, d1) →
  qoi_decode ndebug malloc2 data size desc2 t2 = (Ret px2, d2) →
  d1 = d2
  ∧ ∃ ps,
      Z.of_nat (length ps) = width d1 * height d1
      ∧ Forall px_valid ps
      ∧ px1 = flat (if t1 =? 0 then channels d1 else t1) ps
      ∧ px2 = flat (if t2 =? 0 then channels d1 else t2) ps.
Proof.
  intros Hb. unfold qoi_decode.
  destruct (dec_start ndebug malloc1 data size desc1 t1)
    as [start1 e1] eqn:Hs1.
  destruct (dec_start ndebug malloc2 data size desc2 t2)
    as [start2 e2] eqn:Hs2.
  destruct start1 as [[[ch1 len1] s1] | | | |]; simpl; try done.
  destruct (dec_loop _ _ _ _ _ _ s1) as [s1' | | | |] eqn:Hloop1; simpl;
    try done.
  intros [= <- <-].
  destruct start2 as [[[ch2 len2] s2] | | | |]; simpl; try done.
  destruct (dec_loop _ _ _ _ _ _ s2) as [s2' | | | |] eqn:Hloop2; simpl;
    try done.
  intros [= <- <-].
  apply dec_start_Ret in Hs1
    as (_ & (i1 & Hh1) & _ & -> & Hch1 & Hwh1 & -> & _ & ->).
  apply dec_start_Ret in Hs2
    as (_ & (i2 & Hh2) & _ & -> & Hch2 & Hwh2 & -> & _ & ->).
  rewrite Hh1 in Hh2. injection Hh2 as <- _. split; [done |].
  set (ch1 := if t1 =? 0 then channels e1 else t1) in *.
  set (ch2 := if t2 =? 0 then channels e1 else t2) in *.
  set (n := width e1 * height e1) in *.
  pose proof (dec_loop_length _ _ _ _ _ _ _ _ Hloop1) as Hlen1.
  pose proof (dec_loop_length _ _ _ _ _ _ _ _ Hloop2) as Hlen2.
  simpl in Hlen1, Hlen2. rewrite length_replicate in Hlen1, Hlen2.
  destruct (dec_loop_channels data (u32 (size - 8)) ch1 ch2 (Z.to_nat n)
    Hch1 Hch2 Hb (Z.to_nat (n * ch1)) (Z.to_nat (n * ch2)) 0 0 14 start_mem
    start_px 0 (replicate (Z.to_nat (n * ch1)) 0)
    (replicate (Z.to_nat (n * ch2)) 0) s1' s2')
    as (ps & Hlps & Hps & Ht1 & Ht2);
    [apply start_mem_valid | apply (start_px_ok 3) | done
    | rewrite length_replicate; lia
    | rewrite length_replicate; destruct Hch1; nia | done
    | rewrite length_replicate; lia
    | rewrite length_replicate; destruct Hch2; nia
    | rewrite <- Hloop1; f_equal; lia | rewrite <- Hloop2; f_equal; lia |].
  exists ps. split_and!; [lia | done | |].
  - rewrite take_ge in Ht1 by lia. done.
  - rewrite take_ge in Ht2 by lia. done.
Qed.

Lemma decode_channels_witness :
  Desc 2 2 4 1 = Desc 2 2 4 1
  ∧ ∃ ps,
      Z.of_nat (length ps) = width (Desc 2 2 4 1) * height (Desc 2 2 4 1)
      ∧ Forall px_valid ps
      ∧ [10; 20; 30; 10; 20; 30; 10; 20; 30; 1; 2; 3]
        = flat (if 3 =? 0 then channels (Desc 2 2 4 1) else 3) ps
      ∧ [10; 20; 30; 255; 10; 20; 30; 255; 10; 20; 30; 128; 1; 2; 3; 4]
        = flat (if 0 =? 0 then channels (Desc 2 2 4 1) else 0) ps.
Proof.
  apply (decode_channels true always always
    [113; 111; 105; 102; 0; 0; 0; 2; 0; 0; 0; 2; 4; 1; 254; 10; 20; 30;
     192; 255; 10; 20; 30; 128; 255; 1; 2; 3; 4; 0; 0; 0; 0; 0; 0; 0; 1]
    37 (Desc 0 0 0 0) (Desc 0 0 0 0) 3 0);
    [| vm_compute; reflexivity | vm_compute; reflexivity].
  unfold is_byte.
  repeat (apply Forall_cons; split; [lia |]). apply Forall_nil_2.
Defined.

(** ** The encoder writes bytes *)

Lemma put_keeps v c c' :
  Forall is_byte (c_bytes c) → put v c = Ret c' → Forall is_byte (c_bytes c').
Proof.
  intros Hb H. unfold put in H.
  apply bind_inv in H as (bytes & Hs%store_bytes & H); [| done].
  by injection H as <-.
Qed.

Lemma put_all_keeps vs : ∀ c c',
  Forall is_byte (c_bytes c) → put_all vs c = Ret c' →
  Forall is_byte (c_bytes c').
Proof.
  induction vs as [| v vs IH]; intros c c' Hb; simpl; [by intros [= <-] |].
  intros H. apply bind_inv in H as (c1 & Hp%put_keeps & H); [| done].
  by apply (IH c1).
Qed.

Lemma qoi_write_32_keeps v c c' :
  Forall is_byte (c_bytes c) → qoi_write_32 v c = Ret c' →
  Forall is_byte (c_bytes c').
Proof.
  intros Hb H. unfold qoi_write_32 in H.
  apply bind_inv in H as (c1 & H1%put_keeps & H); [| done].
  apply bind_inv in H as (c2 & H2%put_keeps & H); [| done].
  apply bind_inv in H as (c3 & H3%put_keeps & H); [| done].
  by apply put_keeps in H.
Qed.

Lemma enc_iter_keeps px ch px_end pos s s' :
  Forall is_byte (c_bytes (e_out s)) →
  enc_iter px ch px_end pos s = Ret s' →
  Forall is_byte (c_bytes (e_out s')).
Proof.
  destruct s as [out mem c0 prev run]. cbn [e_out]. intros Hb H.
  assert (∃ curr, enc_load px ch pos c0 = Ret curr) as [curr Hl].
  { unfold enc_iter in H. apply bind_inv in H as (curr & Hl & _). eauto. }
  rewrite (enc_iter_chunk _ _ _ _ _ _ _ _ _ curr Hl) in H.
  destruct (enc_chunk _ _ _ _ _) as [[chunk mem'] run'].
  apply bind_inv in H as (out' & Hp%put_all_keeps & H); [| done].
  by injection H as <-.
Qed.

Lemma enc_loop_keeps fuel px ch px_len px_end : ∀ pos s s',
  Forall is_byte (c_bytes (e_out s)) →
  enc_loop fuel px ch px_len px_end pos s = Ret s' →
  Forall is_byte (c_bytes (e_out s')).
Proof.
  induction fuel as [| fuel IH]; intros pos s s' Hb;
    unfold enc_loop; fold enc_loop;
    destruct (pos <? px_len); try done; try by intros [= <-].
  intros H. apply bind_inv in H as (s1 & Hi%enc_iter_keeps & H); [| done].
  by apply IH in H.
Qed.

(** Every entry of the buffer [qoi_encode] returns is a byte. *)
Lemma qoi_encode_bytes ndebug malloc data desc bytes size :
  qoi_encode ndebug malloc data desc = Ret (bytes, size) →
  Forall is_byte bytes.
Proof.
  unfold qoi_encode. intros H.
  apply bind_inv in H as (s0 & Hstart & H).
  apply bind_inv in H as (s1 & Hloop & H).
  apply bind_inv in H as (out & Hpad & H). injection H as <- _.
  eapply put_all_keeps; [| done].
  eapply enc_loop_keeps; [| done].
  unfold enc_start in Hstart.
  destruct (negb ndebug && _); [done |].
  destruct (enc_invalid desc); [done |].
  destruct (negb (malloc _)); [done |].
  apply bind_inv in Hstart as (c1 & H1%qoi_write_32_keeps & Hstart);
    [| apply Forall_replicate; unfold is_byte; lia].
  apply bind_inv in Hstart as (c2 & H2%qoi_write_32_keeps & Hstart); [| done].
  apply bind_inv in Hstart as (c3 & H3%qoi_write_32_keeps & Hstart); [| done].
  apply bind_inv in Hstart as (c4 & H4%put_keeps & Hstart); [| done].
  apply bind_inv in Hstart as (c5 & H5%put_keeps & Hstart); [| done].
  by injection Hstart as <-.
Qed.

(** ** Encoding with one number of channels, decoding into another *)

(** The decoder in lockstep with the encoder on a buffer that holds the
    chunks of the pixels [ps], writing [ch] channels. *)
Lemma dec_lockstep_pixels b size ch ps (k fuel : nat) bs me prev run :
  ch = 3 ∨ ch = 4 → Forall (px_ok ch) ps →
  Z.of_nat (length ps) < 400000000 →
  size = 14 + Z.of_nat (length (chunks_of ps)) + 8 →
  bytes_at b 14 (chunks_of ps) →
  (k ≤ length ps)%nat → (k ≤ fuel)%nat →
  enc_run start_mem start_px 0 (take k ps) (drop k ps) = (bs, me, prev, run) →
  ∃ ds,
    dec_loop fuel b (u32 (size - 8)) ch (ch * Z.of_nat k) 0
      (DecS 14 start_mem (replicate (Z.to_nat (ch * Z.of_nat (length ps))) 0)
         start_px 0) = Ret ds
    ∧ lockstep b (size - 8) ch me prev run (14 + Z.of_nat (length bs))
        (drop k ps) (flat ch (take k ps)) ds.
Proof.
  intros Hch Hps Hn Hsz Hat Hk Hfuel Hrun.
  pose proof (chunks_of_length ch ps Hch Hps) as Hcl.
  assert (size - 8 + 5 < 4294967296) as Hsize by (destruct Hch; lia).
  rewrite u32_small by lia.
  assert (lockstep b (size - 8) ch start_mem start_px 0 14
    (take k ps ++ drop k ps) []
    (DecS 14 start_mem (replicate (Z.to_nat (ch * Z.of_nat (length ps))) 0)
       start_px 0)) as Hls.
  { rewrite take_drop. split; simpl; try done.
    - apply prev_in_table_start.
    - fold (chunks_of ps). lia.
    - apply tables_agree_start.
    - rewrite length_replicate. destruct Hch; lia.
    - rewrite length_replicate. destruct Hch; lia. }
  destruct (lockstep_loop b (size - 8) ch Hch Hsize (take k ps) (drop k ps)
    start_mem start_px 0 14 [] _ fuel bs me prev run Hls)
    as (ds & Hloop & Hls').
  { rewrite length_take. lia. }
  { done. }
  exists ds. split; [| done].
  rewrite <- Hloop. simpl. rewrite length_take, Nat.min_l by done. done.
Qed.

(** The whole loop of the decoder on the chunks of [ps]. *)
Lemma dec_loop_pixels b size ch ps :
  ch = 3 ∨ ch = 4 → Forall (px_ok ch) ps →
  Z.of_nat (length ps) < 400000000 →
  size = 14 + Z.of_nat (length (chunks_of ps)) + 8 →
  bytes_at b 14 (chunks_of ps) →
  ∃ ds,
    dec_loop (Z.to_nat (Z.of_nat (length ps) * ch)) b (u32 (size - 8)) ch
      (Z.of_nat (length ps) * ch) 0
      (DecS 14 start_mem (replicate (Z.to_nat (Z.of_nat (length ps) * ch)) 0)
         start_px 0) = Ret ds
    ∧ d_px ds = flat ch ps.
Proof.
  intros Hch Hps Hn Hsz Hat.
  destruct (enc_run start_mem start_px 0 (take (length ps) ps)
    (drop (length ps) ps)) as [[[bs me] prev] run] eqn:Hrun.
  destruct (dec_lockstep_pixels b size ch ps (length ps)
    (Z.to_nat (Z.of_nat (length ps) * ch)) bs me prev run)
    as (ds & Hloop & Hls); [done.. | destruct Hch; nia | done |].
  exists ds. split.
  - rewrite <- Hloop. f_equal; [lia |]. do 3 f_equal. lia.
  - pose proof (ls_done _ _ _ _ _ _ _ _ _ _ Hls) as Hdone.
    pose proof (ls_px_len _ _ _ _ _ _ _ _ _ _ Hls) as Hpx.
    rewrite firstn_all in Hdone, Hpx.
    rewrite length_drop, Nat.sub_diag in Hpx.
    rewrite take_ge in Hdone by lia. done.
Qed.

Lemma dec_start_ok_target ndebug malloc b size desc desc0 t :
  desc_wf desc → enc_invalid desc = false →
  bytes_at b 0 (header_bytes desc) → 22 ≤ size →
  t = 0 ∨ t = 3 ∨ t = 4 →
  malloc (width desc * height desc
          * (if t =? 0 then channels desc else t)) = true →
  dec_start ndebug malloc b size desc0 t
    = (Ret (if t =? 0 then channels desc else t,
            width desc * height desc
            * (if t =? 0 then channels desc else t),
            DecS 14 start_mem
              (replicate
                 (Z.to_nat (width desc * height desc
                            * (if t =? 0 then channels desc else t))) 0)
              start_px 0), desc).
Proof.
  intros Hwf Hv Hat Hsize Ht Hm.
  destruct (enc_valid_bounds desc Hwf Hv) as (Hw & Hh & Hwh & Hch & Hcs).
  unfold dec_start.
  assert (dec_asserts size t = true) as ->.
  { unfold dec_asserts, QOI_HEADER_SIZE.
    rewrite (proj2 (Z.leb_le (14 + 8) size)) by lia.
    destruct Ht as [-> | [-> | ->]]; done. }
  rewrite andb_false_r. unfold QOI_HEADER_SIZE.
  rewrite (proj2 (Z.ltb_ge size (14 + 8))) by lia.
  assert (negb (t =? 0) && negb (t =? 3) && negb (t =? 4) = false) as ->.
  { destruct Ht as [-> | [-> | ->]]; done. }
  simpl orb. cbv iota.
  rewrite (dec_header_ok b desc) by done.
  rewrite dec_invalid_false by done.
  set (ch := if t =? 0 then channels desc else t) in *.
  assert (ch = 3 ∨ ch = 4) as Hch'.
  { unfold ch. destruct Ht as [-> | [-> | ->]]; simpl; auto. }
  rewrite (u32_small (width desc * height desc)) by nia.
  rewrite u32_small by (destruct Hch'; nia).
  rewrite Hm. done.
Qed.

Lemma flat_4_inj ps qs : flat 4 ps = flat 4 qs → ps = qs.
Proof.
  revert qs. induction ps as [| p ps IH]; intros [| q qs]; simpl; try done.
  intros [= ? ? ? ? ?]. f_equal; [| by apply IH].
  destruct p, q. simpl in *. by subst.
Qed.

Lemma px_ok_4 ch p : px_ok ch p → px_ok 4 p.
Proof. intros [? _]. by split. Qed.

(** [qoi_decode], into any layout, on a buffer that holds the header and the
    chunks of an image. *)
Lemma qoi_decode_stream_target ndebug malloc data desc desc0 b size t :
  valid_image data desc → Forall is_byte b →
  size = 14 + Z.of_nat (length (chunks_of (pixels_of data desc))) + 8 →
  size ≤ Z.of_nat (length b) → size < 2147483648 →
  bytes_at b 0 (header_bytes desc ++ chunks_of (pixels_of data desc)) →
  t = 0 ∨ t = 3 ∨ t = 4 →
  malloc (width desc * height desc
          * (if t =? 0 then channels desc else t)) = true →
  qoi_decode ndebug malloc b size desc0 t
  = (Ret (flat (if t =? 0 then channels desc else t) (pixels_of data desc)),
     desc).
Proof.
  intros Hvalid Hbb Hsz Hlb Hlt Hat Ht Hm'.
  destruct (pixels_of_spec data desc Hvalid) as (Hflat & Hps & Hn).
  pose proof Hvalid as (Hwf & Hv & Hbytes & Hlen).
  destruct (enc_valid_bounds desc Hwf Hv) as (Hw & Hh & Hwh & Hch & Hcs).
  set (ps := pixels_of data desc) in *.
  set (ch := if t =? 0 then channels desc else t) in *.
  assert (ch = 3 ∨ ch = 4) as Hch'.
  { unfold ch. destruct Ht as [-> | [-> | ->]]; simpl; auto. }
  unfold qoi_decode.
  rewrite (dec_start_ok_target ndebug malloc b size desc desc0 t);
    [| done | done | by apply bytes_at_app_l in Hat | lia | done | done].
  rewrite bind_Ret. fold ch. rewrite <- Hn.
  destruct (dec_loop_pixels b size 4 ps) as (ds4 & Hloop4 & Hpx4);
    [by right | by eapply Forall_impl; [| apply px_ok_4] | lia | done
    | by apply bytes_at_app_r in Hat |].
  destruct Hch' as [Hc | Hc]; rewrite Hc.
  - destruct (dec_loop_total b (u32 (size - 8)) 3 (length ps) 0
      (DecS 14 start_mem (replicate (Z.to_nat (Z.of_nat (length ps) * 3)) 0)
         start_px 0) (Z.to_nat (Z.of_nat (length ps) * 3)))
      as (ds3 & Hloop3 & Hl3 & _);
      [by left | rewrite u32_small by lia; lia
      | rewrite u32_small by lia; lia | done | done
      | simpl; rewrite length_replicate; lia
      | simpl; rewrite length_replicate; lia | lia |].
    replace (0 + 3 * Z.of_nat (length ps)) with (Z.of_nat (length ps) * 3)
      in Hloop3 by lia.
    rewrite Hloop3, bind_Ret. do 2 f_equal.
    destruct (dec_loop_channels b (u32 (size - 8)) 4 3 (length ps)
      ltac:(by right) ltac:(by left) Hbb
      (Z.to_nat (Z.of_nat (length ps) * 4))
      (Z.to_nat (Z.of_nat (length ps) * 3)) 0 0 14 start_mem start_px 0
      (replicate (Z.to_nat (Z.of_nat (length ps) * 4)) 0)
      (replicate (Z.to_nat (Z.of_nat (length ps) * 3)) 0) ds4 ds3)
      as (qs & Hlq & Hqs & Ht4 & Ht3);
      [apply start_mem_valid | apply (start_px_ok 3) | done
      | rewrite length_replicate; lia | rewrite length_replicate; lia | done
      | rewrite length_replicate; lia | rewrite length_replicate; lia
      | rewrite <- Hloop4; f_equal; lia | rewrite <- Hloop3; f_equal; lia |].
    simpl in Hl3. rewrite length_replicate in Hl3.
    pose proof (f_equal length Hpx4) as Hl4.
    pose proof (length_flat 4 ps ltac:(by right)) as Hlf.
    rewrite take_ge in Ht4, Ht3 by lia. simpl in Ht4, Ht3.
    rewrite Hpx4 in Ht4. apply flat_4_inj in Ht4 as ->. done.
  - rewrite Hloop4, bind_Ret. by rewrite Hpx4.
Qed.

(** X8 — Encoding with one number of channels and decoding into another
    converts the layout of the same pixels: the stream [qoi_encode] returns
    for an image, decoded with target channels 0, 3 or 4, yields the pixels of
    the image in the target's layout (those of a three-channel image with
    alpha 255), and the descriptor of the image. *)
Theorem transcode ndebug malloc malloc' data desc desc0 bytes size t :
  valid_image data desc →
  qoi_encode ndebug malloc data desc = Ret (bytes, size) →
  t = 0 ∨ t = 3 ∨ t = 4 →
  malloc' (width desc * height desc
           * (if t =? 0 then channels desc else t)) = true →
  qoi_decode ndebug malloc' bytes size desc0 t
  = (Ret (flat (if t =? 0 then channels desc else t) (pixels_of data desc)),
     desc).
Proof.
  intros Hvalid Henc Ht Hm'.
  pose proof Hvalid as (Hwf & Hv & _).
  destruct (enc_valid_bounds desc Hwf Hv) as (Hw & Hh & Hwh & Hch & Hcs).
  pose proof (qoi_encode_Ret_malloc _ _ _ _ _ _ Hwf Hv Henc) as Hm.
  destruct (qoi_encode_ok ndebug malloc data desc Hvalid Hm)
    as (bytes' & size' & Henc' & Hlb & Hsz & Hle & Htake).
  rewrite Henc in Henc'. injection Henc' as <- <-.
  destruct (enc_sizes desc Hwf Hv) as (Hcap & _).
  apply qoi_decode_stream_target;
    [done | by eapply qoi_encode_bytes | done | lia | destruct Hch; lia
    | | done | done].
  apply (bytes_at_take bytes []).
  set (ps := pixels_of data desc) in *.
  change (take (length (header_bytes desc ++ chunks_of ps)) bytes
          = header_bytes desc ++ chunks_of ps).
  apply (f_equal (take (length (header_bytes desc ++ chunks_of ps))))
    in Htake.
  rewrite take_take, Nat.min_l in Htake
    by (rewrite length_app, length_header_bytes; lia).
  by rewrite Htake, app_assoc, take_app_length.
Qed.

Lemma transcode_witness :
  qoi_decode true always
    [113; 111; 105; 102; 0; 0; 0; 2; 0; 0; 0; 1; 3; 0; 192; 165; 136;
     0; 0; 0; 0; 0; 0; 0; 1; 0; 0; 0; 0; 0] 25 (Desc 0 0 0 0) 4
  = (Ret (flat (if 4 =? 0 then channels (Desc 2 1 3 0) else 4)
            (pixels_of [0; 0; 0; 5; 5; 5] (Desc 2 1 3 0))),
     Desc 2 1 3 0).
Proof.
  apply (transcode true always always [0; 0; 0; 5; 5; 5] (Desc 2 1 3 0)
    (Desc 0 0 0 0)
    [113; 111; 105; 102; 0; 0; 0; 2; 0; 0; 0; 1; 3; 0; 192; 165; 136;
     0; 0; 0; 0; 0; 0; 0; 1; 0; 0; 0; 0; 0] 25 4 valid_image_example);
    [reflexivity | by right; right | reflexivity].
Defined.

(** ** Images of one colour *)

Lemma run_byte_value k : 0 ≤ k < 62 → Z.lor QOI_OP_RUN k = 192 + k.
Proof. revert k. apply (Forall_seqZ _ 0 62). by_enumeration. Qed.

(** The chunks of [k + 1] pixels equal to the previous pixel, when [r] pixels
    of a run are pending: a byte 0xFD for every 62 pixels, and a last RUN
    chunk for what is left. *)
Lemma enc_run_repeat p (k : nat) : ∀ mem r,
  0 ≤ r < 62 →
  (enc_run mem p r (replicate (S k) p) []).1.1.1
  = replicate (Z.to_nat ((r + Z.of_nat (S k)) / 62)) 253
    ++ (if (r + Z.of_nat (S k)) mod 62 =? 0 then []
        else [191 + (r + Z.of_nat (S k)) mod 62]).
Proof.
  assert (rgba_eqb p p = true) as Hpp.
  { destruct p. unfold rgba_eqb. simpl. by rewrite !Z.eqb_refl. }
  induction k as [| k IH]; intros mem r Hr.
  - cbn [replicate enc_run]. unfold enc_chunk. rewrite Hpp.
    rewrite u8_small by lia. rewrite orb_true_r.
    replace (r + 1 - 1) with r by lia. rewrite run_byte_value by done.
    simpl fst. change (Z.of_nat 1) with 1.
    destruct (Z.eq_dec r 61) as [-> | Hne]; [done |].
    rewrite Z.div_small, Z.mod_small by lia.
    rewrite (proj2 (Z.eqb_neq _ _)) by lia. simpl. f_equal. lia.
  - change (replicate (S (S k)) p) with (p :: replicate (S k) p).
    cbn [enc_run]. unfold enc_chunk. rewrite Hpp.
    rewrite u8_small by lia.
    rewrite bool_decide_eq_false_2 by done. rewrite orb_false_r.
    destruct (Z.eqb_spec (r + 1) QOI_MAXIMUM_RUN) as [He | Hne];
      unfold QOI_MAXIMUM_RUN in *.
    + specialize (IH mem 0 ltac:(lia)).
      destruct (enc_run mem p 0 (replicate (S k) p) []) as [[[bs m'] pv] rn].
      simpl in IH |- *. rewrite IH.
      replace (r + 1 - 1) with 61 by lia.
      change (Z.lor QOI_OP_RUN 61) with 253.
      replace (r + Z.of_nat (S (S k))) with (1 * 62 + (0 + Z.of_nat (S k)))
        by lia.
      set (x := 0 + Z.of_nat (S k)).
      assert ((1 * 62 + x) / 62 = 1 + x / 62
              ∧ (1 * 62 + x) mod 62 = x mod 62 ∧ 0 ≤ x / 62)
        as (-> & -> & Hx) by (subst x; mod_lia).
      by replace (Z.to_nat (1 + x / 62)) with (S (Z.to_nat (x / 62))) by lia.
    + specialize (IH mem (r + 1) ltac:(lia)).
      destruct (enc_run mem p (r + 1) (replicate (S k) p) [])
        as [[[bs m'] pv] rn].
      simpl in IH |- *. rewrite IH.
      by replace (r + 1 + Z.of_nat (S k)) with (r + Z.of_nat (S (S k)))
        by lia.
Qed.

(** X9 — An image of one colour: the first pixel takes no chunk when it is
    the start pixel (0,0,0,255), the chunk INDEX 0 when it is (0,0,0,0), and
    a DIFF, LUMA, RGB or RGBA chunk otherwise; the pixels that repeat it are
    written as one byte 0xFD for every 62 of them and one RUN chunk for the
    rest. *)
Theorem constant_image ndebug malloc desc p :
  desc_wf desc → enc_invalid desc = false →
  malloc (enc_capacity desc) = true →
  px_ok (channels desc) p →
  let n := width desc * height desc in
  let first :=
    if rgba_eqb p start_px then []
    else if rgba_eqb p (RGBA 0 0 0 0) then [0x00]
    else new_pixel_bytes p start_px in
  let m := if rgba_eqb p start_px then n else n - 1 in
  ∃ bytes size,
    qoi_encode ndebug malloc
      (flat (channels desc) (replicate (Z.to_nat n) p)) desc
      = Ret (bytes, size)
    ∧ take (Z.to_nat size) bytes
      = header_bytes desc ++ first ++ run_chunks m ++ qoi_padding.
Proof.
  intros Hwf Hv Hm Hp n first m.
  destruct (enc_valid_bounds desc Hwf Hv) as (Hw & Hh & Hwh & Hch & Hcs).
  destruct (encode_constant ndebug malloc desc (Z.to_nat n) p Hwf Hv Hm Hp)
    as (bytes & size & Henc & Htake); [lia |].
  exists bytes, size. split; [done |]. rewrite Htake. f_equal.
  rewrite app_assoc. f_equal.
  assert (∃ k, Z.to_nat n = S k) as [k Hk] by (exists (Z.to_nat (n - 1)); lia).
  rewrite Hk. unfold chunks_of, first, m, run_chunks.
  destruct (rgba_eqb p start_px) eqn:Hps.
  - apply rgba_eqb_eq in Hps as ->.
    rewrite enc_run_repeat by lia.
    by replace (0 + Z.of_nat (S k)) with n by lia.
  - change (replicate (S k) p) with (p :: replicate k p).
    cbn [enc_run]. unfold enc_chunk at 1. rewrite Hps.
    change (0 <? 0) with false. cbv iota.
    assert (qoi_hash (RGBA 0 0 0 0) = 0) as Hh0 by reflexivity.
    destruct (rgba_eqb p (start_mem !!! Z.to_nat (qoi_hash p))) eqn:Hidx.
    + apply rgba_eqb_eq in Hidx.
      rewrite list_lookup_total_alt in Hidx.
      unfold start_mem in Hidx.
      rewrite lookup_replicate_2 in Hidx by apply hash_nat_lt.
      simpl in Hidx. subst p.
      change (rgba_eqb (RGBA 0 0 0 0) (RGBA 0 0 0 0)) with true.
      cbv iota. rewrite Hh0.
      change (Z.lor QOI_OP_INDEX 0) with 0.
      destruct k as [| k].
      * simpl. replace (n - 1) with 0 by lia. done.
      * pose proof (enc_run_repeat (RGBA 0 0 0 0) k start_mem 0 ltac:(lia))
          as Hrep.
        destruct (enc_run start_mem _ 0 (replicate (S k) _) [])
          as [[[bs m'] pv] rn].
        simpl in Hrep |- *. rewrite Hrep.
        by replace (0 + Z.of_nat (S k)) with (n - 1) by lia.
    + assert (rgba_eqb p (RGBA 0 0 0 0) = false) as ->.
      { destruct (rgba_eqb p (RGBA 0 0 0 0)) eqn:E; [| done].
        apply rgba_eqb_eq in E as ->. by rewrite Hh0 in Hidx. }
      destruct k as [| k].
      * simpl. replace (n - 1) with 0 by lia. by rewrite !app_nil_r.
      * pose proof (enc_run_repeat p k
          (<[Z.to_nat (qoi_hash p) := p]> start_mem) 0 ltac:(lia)) as Hrep.
        destruct (enc_run _ p 0 (replicate (S k) p) []) as [[[bs m'] pv] rn].
        simpl in Hrep |- *. rewrite Hrep.
        by replace (0 + Z.of_nat (S k)) with (n - 1) by lia.
Qed.

Lemma constant_image_witness :
  ∃ bytes size,
    qoi_encode true always (flat 3 (replicate 124 (RGBA 1 2 3 255)))
      (Desc 62 2 3 0) = Ret (bytes, size)
    ∧ take (Z.to_nat size) bytes
      = header_bytes (Desc 62 2 3 0) ++ [0xA2; 0x79] ++ [0xFD; 0xFC]
        ++ qoi_padding.
Proof.
  apply (constant_image true always (Desc 62 2 3 0) (RGBA 1 2 3 255));
    [unfold desc_wf; simpl; lia | reflexivity | reflexivity |].
  unfold px_ok, px_valid. simpl. split_and!; (done || lia).
Defined.

(** ** The encoder reads [width * height * channels] bytes *)

Lemma load_take bytes (n : nat) i :
  i < Z.of_nat n → load (take n bytes) i = load bytes i.
Proof.
  intros Hi. unfold load. destruct (0 <=? i) eqn:Hpos; [| done].
  apply Z.leb_le in Hpos. by rewrite lookup_take_lt by lia.
Qed.

Lemma enc_load_take px (n : nat) ch pos c :
  ch = 3 ∨ ch = 4 → 0 ≤ pos → pos + ch ≤ Z.of_nat n →
  Z.of_nat n < 4294967296 →
  enc_load (take n px) ch pos c = enc_load px ch pos c.
Proof.
  intros Hch Hpos Hle Hlt. unfold enc_load.
  destruct Hch as [-> | ->]; simpl Z.eqb; cbv iota.
  - rewrite !u32_small by lia. by rewrite !load_take by lia.
  - by rewrite !load_take by lia.
Qed.

Lemma enc_iter_take px (n : nat) ch px_end pos s :
  ch = 3 ∨ ch = 4 → 0 ≤ pos → pos + ch ≤ Z.of_nat n →
  Z.of_nat n < 4294967296 →
  enc_iter (take n px) ch px_end pos s = enc_iter px ch px_end pos s.
Proof.
  intros. destruct s. unfold enc_iter. by rewrite enc_load_take.
Qed.

Lemma enc_loop_take px (n : nat) ch px_end (m : nat) : ∀ fuel pos s,
  ch = 3 ∨ ch = 4 → 0 ≤ pos → Z.of_nat n = pos + ch * Z.of_nat m →
  Z.of_nat n < 4294967296 →
  enc_loop fuel (take n px) ch (Z.of_nat n) px_end pos s
  = enc_loop fuel px ch (Z.of_nat n) px_end pos s.
Proof.
  induction m as [| m IH]; intros fuel pos s Hch Hpos Hn Hlt.
  - by rewrite !enc_loop_done by lia.
  - destruct fuel as [| fuel]; [done |].
    rewrite !enc_loop_step by (destruct Hch; lia).
    rewrite enc_iter_take by (done || destruct Hch; lia).
    destruct (enc_iter px ch px_end pos s) as [s' | | | |]; try done.
    rewrite !bind_Ret, u32_small by (destruct Hch; lia).
    apply IH; [done | destruct Hch; lia | lia | done].
Qed.

(** X10 — [qoi_encode] reads the first [width * height * channels] bytes of
    the pixel buffer and nothing beyond them: what follows them in a longer
    buffer has no influence on the result. *)
Theorem encode_reads_prefix ndebug malloc data desc :
  desc_wf desc → enc_invalid desc = false →
  qoi_encode ndebug malloc data desc
  = qoi_encode ndebug malloc
      (take (Z.to_nat (width desc * height desc * channels desc)) data) desc.
Proof.
  intros Hwf Hv.
  destruct (enc_valid_bounds desc Hwf Hv) as (Hw & Hh & Hwh & Hch & Hcs).
  destruct (enc_sizes desc Hwf Hv) as (_ & Hlen & _).
  unfold qoi_encode. destruct (enc_start ndebug malloc desc); try done.
  rewrite !bind_Ret, Hlen.
  set (n := Z.to_nat (width desc * height desc * channels desc)).
  replace (width desc * height desc * channels desc) with (Z.of_nat n)
    by (destruct Hch; nia).
  by rewrite (enc_loop_take data n (channels desc) _
    (Z.to_nat (width desc * height desc)))
    by (done || destruct Hch; nia).
Qed.

Lemma encode_reads_prefix_witness :
  qoi_encode true always [0; 0; 0; 5; 5; 5; 77; 88; 99] (Desc 2 1 3 0)
  = qoi_encode true always
      (take (Z.to_nat (width (Desc 2 1 3 0) * height (Desc 2 1 3 0)
                       * channels (Desc 2 1 3 0)))
         [0; 0; 0; 5; 5; 5; 77; 88; 99]) (Desc 2 1 3 0).
Proof.
  apply (encode_reads_prefix true always [0; 0; 0; 5; 5; 5; 77; 88; 99]
           (Desc 2 1 3 0)); [unfold desc_wf; simpl; lia | reflexivity].
Defined.

(** ** Invariants of the decoder *)

Lemma table_ok_start : table_ok start_mem.
Proof.
  split; [reflexivity |]. intros i p Hp.
  apply lookup_replicate in Hp as [-> _]. by left.
Qed.

Lemma table_ok_insert mem p :
  table_ok mem → table_ok (<[Z.to_nat (qoi_hash p) := p]> mem).
Proof.
  intros [Hlen Hat]. split; [by rewrite length_insert |].
  intros i q Hq.
  destruct (decide (i = Z.to_nat (qoi_hash p))) as [-> | Hne].
  - rewrite list_lookup_insert_eq in Hq
      by (rewrite Hlen; apply hash_nat_lt).
    injection Hq as <-. by right.
  - rewrite list_lookup_insert_ne in Hq by done. by apply Hat.
Qed.

Lemma dec_opcode_inv bytes byte1 idx mem curr run idx' curr' run' :
  0 ≤ idx → idx + 4 < 4294967296 →
  dec_opcode bytes byte1 idx mem curr run = Ret (idx', curr', run') →
  idx ≤ idx' ≤ idx + 4 ∧ (run' = run ∨ run' = Z.land byte1 QOI_RUN_MASK).
Proof.
  intros Hidx Hlt. unfold dec_opcode.
  repeat case_if; intros H;
    repeat match type of H with
      | _ ≫= _ = Ret _ =>
          let v := fresh "v" in
          let i := fresh "i" in
          let Hv := fresh "Hv" in
          apply bind_inv in H as ([v i] & Hv%get_inv & H);
          destruct Hv as [-> _]
      end;
    injection H as <- _ <-;
    rewrite ?(u32_small (idx + 1)) by lia;
    rewrite ?(u32_small (idx + 1 + 1)) by lia;
    rewrite ?(u32_small (idx + 1 + 1 + 1)) by lia;
    rewrite ?(u32_small (idx + 1 + 1 + 1 + 1)) by lia;
    (split; [lia | auto]).
Qed.

Lemma run_mask_range b : 0 ≤ b < 256 → 0 ≤ Z.land b QOI_RUN_MASK < 64.
Proof. revert b. apply (Forall_seqZ _ 0 256). by_enumeration. Qed.

(** The invariant of the decoder's loop. *)
Lemma dec_chunk_inv bytes px_chunks s s' :
  Forall is_byte bytes → 14 ≤ px_chunks → px_chunks + 4 < 4294967296 →
  table_ok (d_mem s) → 0 ≤ d_run s < 64 → 14 ≤ d_idx s ≤ px_chunks + 4 →
  dec_chunk bytes px_chunks s = Ret s' →
  table_ok (d_mem s') ∧ 0 ≤ d_run s' < 64 ∧ 14 ≤ d_idx s' ≤ px_chunks + 4.
Proof.
  destruct s as [idx mem px curr run]. simpl.
  intros Hb Hpc Hlt Htab Hrun Hidx. unfold dec_chunk.
  destruct (Z.ltb_spec 0 run).
  { intros [= <-]. simpl. rewrite u8_small by lia. split_and!; (done || lia). }
  destruct (Z.ltb_spec idx px_chunks); [| by intros [= <-]].
  intros H1. apply bind_inv in H1 as ([byte1 idx1] & Hg & H1).
  pose proof (get_byte _ _ _ _ Hb Hg) as Hbyte.
  apply get_inv in Hg as [-> _]. rewrite u32_small in H1 by lia.
  apply bind_inv in H1 as ([[idx2 curr2] run2] & Ho & H1).
  apply dec_opcode_inv in Ho as [Hi2 Hr2]; [| lia | lia].
  injection H1 as <-. simpl.
  split_and!; [by apply table_ok_insert | | | lia | lia].
  - destruct Hr2 as [-> | ->]; [lia |]. by apply run_mask_range.
  - destruct Hr2 as [-> | ->]; [lia |]. by apply run_mask_range.
Qed.

Lemma dec_emit_same ch pos s s' :
  dec_emit ch pos s = Ret s' →
  d_mem s' = d_mem s ∧ d_curr s' = d_curr s ∧ d_run s' = d_run s
  ∧ d_idx s' = d_idx s.
Proof.
  destruct s as [idx mem px curr run]. unfold dec_emit.
  destruct (ch =? 4); intros H;
    repeat (apply bind_inv in H as (? & _ & H));
    by injection H as <-.
Qed.

Lemma dec_loop_inv fuel bytes px_chunks ch bound : ∀ pos s s',
  Forall is_byte bytes → 14 ≤ px_chunks → px_chunks + 4 < 4294967296 →
  table_ok (d_mem s) → 0 ≤ d_run s < 64 → 14 ≤ d_idx s ≤ px_chunks + 4 →
  dec_loop fuel bytes px_chunks ch bound pos s = Ret s' →
  table_ok (d_mem s') ∧ 0 ≤ d_run s' < 64 ∧ 14 ≤ d_idx s' ≤ px_chunks + 4.
Proof.
  induction fuel as [| fuel IH]; intros pos s s' Hb Hpc Hlt Htab Hrun Hidx;
    unfold dec_loop; fold dec_loop;
    destruct (pos <? bound); try done; try by intros [= <-].
  intros H. apply bind_inv in H as (s1 & Hiter & H).
  unfold dec_iter in Hiter.
  apply bind_inv in Hiter as (s2 & Hc & He).
  apply dec_chunk_inv in Hc as (Htab2 & Hrun2 & Hidx2); try done.
  apply dec_emit_same in He as (Hm & _ & Hr & Hi).
  apply IH in H; try done; congruence.
Qed.

(** X11 — Invariants of the decoder: after any number of pixels decoded from
    a buffer of bytes, the colour table has its 64 entries, all of them
    pixels of four bytes, each still zero or sitting at the index of its
    hash; the current pixel is four bytes; the run counter is below 64; and
    the read index is between 14 and [size - 4]. *)
Theorem decoder_invariant ndebug malloc data size desc0 target n s :
  Forall is_byte data → size < 2147483648 →
  dec_upto ndebug malloc data size desc0 target n = Ret s →
  table_ok (d_mem s) ∧ Forall px_valid (d_mem s) ∧ px_valid (d_curr s)
  ∧ 0 ≤ d_run s < 64 ∧ 14 ≤ d_idx s ≤ size - 4.
Proof.
  intros Hb Hsize. unfold dec_upto.
  destruct (dec_start ndebug malloc data size desc0 target)
    as [start desc'] eqn:Hs.
  simpl. intros H. apply bind_inv in H as ([[ch px_len] s0] & -> & Hloop).
  apply dec_start_Ret in Hs
    as (Hargs & _ & _ & _ & Hch & Hwh & -> & _ & ->).
  assert (22 ≤ size) as Hsz.
  { unfold dec_bad_args, QOI_HEADER_SIZE in Hargs.
    apply orb_false_iff in Hargs as [_ Hargs]. apply Z.ltb_ge in Hargs.
    lia. }
  rewrite u32_small in Hloop by lia.
  pose proof Hloop as Hvalid.
  apply dec_loop_valid in Hvalid as [Hmem Hcurr];
    [| done | apply start_mem_valid | apply (start_px_ok 3)].
  apply dec_loop_inv in Hloop as (Htab & Hrun & Hidx);
    [| done | lia | lia | apply table_ok_start | simpl; lia | simpl; lia].
  split_and!; (done || lia).
Qed.

Lemma decoder_invariant_witness :
  table_ok (<[9%nat := RGBA 10 20 30 255]> start_mem)
  ∧ Forall px_valid (<[9%nat := RGBA 10 20 30 255]> start_mem)
  ∧ px_valid (RGBA 10 20 30 255)
  ∧ 0 ≤ 0 < 64 ∧ 14 ≤ 18 ≤ 26 - 4.
Proof.
  apply (decoder_invariant true always
    [113; 111; 105; 102; 0; 0; 0; 3; 0; 0; 0; 1; 3; 0; 254; 10; 20; 30;
     0; 0; 0; 0; 0; 0; 0; 1] 26 (Desc 0 0 0 0) 0 1
    (DecS 18 (<[9%nat := RGBA 10 20 30 255]> start_mem)
       [10; 20; 30; 0; 0; 0; 0; 0; 0] (RGBA 10 20 30 255) 0));
    [| lia | vm_compute; reflexivity].
  unfold is_byte.
  repeat (apply Forall_cons; split; [lia |]). apply Forall_nil_2.
Defined.

(** ** Invariants of the encoder *)

Lemma enc_chunk_table mem prev run p last chunk mem' run' :
  table_ok mem → enc_chunk mem prev run p last = (chunk, mem', run') →
  table_ok mem'.
Proof.
  intros Htab. unfold enc_chunk.
  destruct (rgba_eqb p prev).
  - cbv zeta. destruct (_ || _); by intros [= <- <- <-].
  - cbv zeta. destruct (rgba_eqb p _); intros [= <- <- <-]; [done |].
    by apply table_ok_insert.
Qed.

Lemma enc_run_prev ps : ∀ mem prev run more bs mem' prev' run',
  enc_run mem prev run ps more = (bs, mem', prev', run') →
  prev' = default prev (last ps).
Proof.
  induction ps as [| p ps IH]; intros mem prev run more bs mem' prev' run';
    simpl.
  - by intros [= <- <- <- <-].
  - destruct (enc_chunk _ _ _ _ _) as [[chunk mem1] run1].
    destruct (enc_run mem1 p run1 ps more) as [[[bs2 mem2] prev2] run2] eqn:E2.
    intros [= <- <- <- <-]. apply IH in E2 as ->.
    destruct ps as [| q ps]; [done |]. rewrite last_cons_cons.
    destruct (last (q :: ps)) eqn:E; [done |]. by apply last_None in E.
Qed.

Lemma enc_run_table ps : ∀ mem prev run more bs mem' prev' run',
  table_ok mem → enc_run mem prev run ps more = (bs, mem', prev', run') →
  table_ok mem'.
Proof.
  induction ps as [| p ps IH]; intros mem prev run more bs mem' prev' run'
    Htab; simpl.
  - by intros [= <- <- <- <-].
  - destruct (enc_chunk _ _ _ _ _) as [[chunk mem1] run1] eqn:E.
    apply enc_chunk_table in E; [| done].
    destruct (enc_run mem1 p run1 ps more) as [[[bs2 mem2] prev2] run2] eqn:E2.
    intros [= <- <- <- <-]. by eapply IH.
Qed.

(** X12 — Invariants of the encoder: after any number [n] of pixels of a
    valid image, the colour table has its 64 entries, each still zero or
    sitting at the index of its hash; fewer than 62 pixels of a run are
    pending, and none once the last pixel is encoded; the previous pixel is
    the pixel just encoded. *)
Theorem encoder_invariant ndebug malloc data desc n :
  valid_image data desc → malloc (enc_capacity desc) = true →
  0 ≤ n ≤ width desc * height desc →
  ∃ es,
    enc_upto ndebug malloc data desc n = Ret es
    ∧ table_ok (e_mem es)
    ∧ 0 ≤ e_run es < 62
    ∧ (n = width desc * height desc → e_run es = 0)
    ∧ e_prev es = e_curr es
    ∧ (0 < n →
       pixels_of data desc !! Z.to_nat (n - 1) = Some (e_prev es)).
Proof.
  intros Hvalid Hm Hn.
  destruct (pixels_of_spec data desc Hvalid) as (Hflat & Hps & Hlps).
  set (ps := pixels_of data desc) in *.
  set (k := Z.to_nat n). replace n with (Z.of_nat k) by lia.
  assert (k ≤ length ps)%nat as Hk by lia.
  destruct (enc_run start_mem start_px 0 (take k ps) (drop k ps))
    as [[[bs me] prev] run] eqn:Hrun.
  destruct (enc_upto_ok ndebug malloc data desc k bs me prev run Hvalid Hm Hk
    Hrun) as (out & Hupto).
  exists (EncS out me prev prev run). simpl.
  assert (Forall px_valid ps) as Hpv
    by (eapply Forall_impl; [done | by intros ? [? _]]).
  destruct (enc_run_props start_mem start_px 0 (take k ps) (drop k ps) bs me
    prev run) as (_ & Hr & _ & _ & Hlast);
    [apply (start_px_ok 3) | by apply Forall_take | lia | done |].
  split; [done |]. split; [by eapply enc_run_table; [apply table_ok_start |] |].
  split; [done |]. split; [| split; [done |]].
  - intros Hall. apply Hlast.
    + apply drop_ge. lia.
    + intros Hnil. apply (f_equal length) in Hnil.
      rewrite length_take in Hnil. simpl in Hnil.
      destruct Hvalid as (Hwf & Hv & _).
      destruct (enc_valid_bounds desc Hwf Hv) as (? & ? & _). nia.
  - intros Hpos. apply enc_run_prev in Hrun as ->.
    rewrite last_lookup, length_take, Nat.min_l by done.
    rewrite lookup_take_lt by lia.
    replace (Z.to_nat (Z.of_nat k - 1)) with (Init.Nat.pred k) by lia.
    destruct (lookup_lt_is_Some_2 ps (Init.Nat.pred k)) as [p ->]; [lia |].
    done.
Qed.

Lemma encoder_invariant_witness :
  ∃ es,
    enc_upto true always [0; 0; 0; 5; 5; 5] (Desc 2 1 3 0) 2 = Ret es
    ∧ table_ok (e_mem es)
    ∧ 0 ≤ e_run es < 62
    ∧ (2 = width (Desc 2 1 3 0) * height (Desc 2 1 3 0) → e_run es = 0)
    ∧ e_prev es = e_curr es
    ∧ (0 < 2 →
       pixels_of [0; 0; 0; 5; 5; 5] (Desc 2 1 3 0) !! Z.to_nat (2 - 1)
       = Some (e_prev es)).
Proof.
  apply (encoder_invariant true always [0; 0; 0; 5; 5; 5] (Desc 2 1 3 0) 2
           valid_image_example eq_refl).
  simpl. lia.
Defined.

(** ** [qoi_write] *)

Lemma valid_image_stream ndebug malloc data desc bytes size :
  valid_image data desc →
  qoi_encode ndebug malloc data desc = Ret (bytes, size) →
  size = 14 + Z.of_nat (length (chunks_of (pixels_of data desc))) + 8
  ∧ size < 2147483648
  ∧ take (Z.to_nat size) bytes
    = header_bytes desc ++ chunks_of (pixels_of data desc) ++ qoi_padding.
Proof.
  intros Hvalid Henc. pose proof Hvalid as (Hwf & Hv & _).
  pose proof (qoi_encode_Ret_malloc _ _ _ _ _ _ Hwf Hv Henc) as Hm.
  destruct (qoi_encode_ok ndebug malloc data desc Hvalid Hm)
    as (bytes' & size' & Henc' & Hlb & Hsz & Hle & Htake).
  rewrite Henc in Henc'. injection Henc' as <- <-.
  destruct (enc_valid_bounds desc Hwf Hv) as (? & ? & ? & Hch & ?).
  destruct (enc_sizes desc Hwf Hv) as (Hcap & _).
  split_and!; [done | destruct Hch; lia | done].
Qed.

(** X13 — Writing a valid image: when the file opens, the allocation
    succeeds, [fwrite] writes all it is given and [fclose] succeeds,
    [qoi_write] hands to [fwrite], in one call, the whole stream (header,
    chunks, end marker), closes the file and returns the length of the
    stream. *)
Theorem qoi_write_ok ndebug os filename data desc :
  valid_image data desc →
  libc_fopen os filename "wb" = true →
  libc_malloc os (enc_capacity desc) = true →
  (∀ bytes, libc_fwrite os bytes = Z.of_nat (length bytes)) →
  libc_fclose os = 0 →
  let stream :=
    header_bytes desc ++ chunks_of (pixels_of data desc) ++ qoi_padding in
  qoi_write ndebug os filename data desc
  = ([Fopen filename "wb" true;
      Fwrite stream (Z.of_nat (length stream)); Fclose 0],
     Ret (Z.of_nat (length stream))).
Proof.
  intros Hvalid Hopen Hm Hwrite Hclose stream.
  destruct (qoi_encode_ok ndebug (libc_malloc os) data desc Hvalid Hm)
    as (bytes & size & Henc & _).
  destruct (valid_image_stream _ _ _ _ _ _ Hvalid Henc)
    as (Hsz & _ & Htake).
  assert (size = Z.of_nat (length stream)) as Hlen.
  { unfold stream. rewrite !length_app, length_header_bytes. simpl. lia. }
  unfold qoi_write, close_and_return.
  rewrite Hopen, Henc, Htake, Hwrite, Hclose. fold stream.
  rewrite <- Hlen, Z.eqb_refl. simpl. by rewrite andb_false_r.
Qed.

Lemma qoi_write_ok_witness :
  qoi_write true
    (Libc (λ _ _, true) (λ _ _, 0) 0 (λ _, []) (λ b, Z.of_nat (length b)) 0
       always) "out.qoi" [0; 0; 0; 5; 5; 5] (Desc 2 1 3 0)
  = ([Fopen "out.qoi" "wb" true;
      Fwrite
        [113; 111; 105; 102; 0; 0; 0; 2; 0; 0; 0; 1; 3; 0; 192; 165; 136;
         0; 0; 0; 0; 0; 0; 0; 1] 25;
      Fclose 0], Ret 25).
Proof.
  apply (qoi_write_ok true
    (Libc (λ _ _, true) (λ _ _, 0) 0 (λ _, []) (λ b, Z.of_nat (length b)) 0
       always) "out.qoi" [0; 0; 0; 5; 5; 5] (Desc 2 1 3 0)
    valid_image_example); reflexivity.
Defined.

(** What a value other than 0 returned by [qoi_write] tells. *)
Lemma qoi_write_returned ndebug os filename data desc tr n :
  qoi_write ndebug os filename data desc = (tr, Ret n) → n ≠ 0 →
  ∃ bytes,
    qoi_encode ndebug (libc_malloc os) data desc = Ret (bytes, n)
    ∧ libc_fwrite os (take (Z.to_nat n) bytes) = n
    ∧ tr = [Fopen filename "wb" true;
            Fwrite (take (Z.to_nat n) bytes) n; Fclose 0].
Proof.
  unfold qoi_write, close_and_return. intros H Hn.
  destruct (libc_fopen os filename "wb"); simpl in H; [| by injection H].
  destruct (qoi_encode _ _ _ _) as [[p sz] | e | | |]; try done.
  - destruct (Z.eqb_spec (libc_fwrite os (take (Z.to_nat sz) p)) sz)
      as [Hw | Hw]; simpl in H.
    + rewrite andb_false_r in H.
      destruct (Z.eqb_spec (libc_fclose os) 0) as [Hc | Hc]; simpl in H.
      * rewrite andb_false_r in H. injection H as <- <-.
        exists p. by rewrite Hw, Hc.
      * destruct ndebug; simpl in H; [by injection H | done].
    + destruct ndebug; simpl in H; [by injection H | done].
  - destruct (Z.eqb_spec (libc_fclose os) 0); simpl in H;
      rewrite ?andb_false_r in H;
      destruct ndebug; simpl in H; try done; by injection H.
Qed.

(** X14 — A value other than 0 returned by [qoi_write] means that the file
    was opened, the image encoded, the whole stream of a valid image accepted
    by [fwrite] in one call and the file closed: the value is the size
    [qoi_encode] returned, the length of the stream. *)
Theorem qoi_write_nonzero ndebug os filename data desc tr n :
  valid_image data desc →
  qoi_write ndebug os filename data desc = (tr, Ret n) → n ≠ 0 →
  let stream :=
    header_bytes desc ++ chunks_of (pixels_of data desc) ++ qoi_padding in
  n = Z.of_nat (length stream)
  ∧ libc_fwrite os stream = n
  ∧ tr = [Fopen filename "wb" true; Fwrite stream n; Fclose 0].
Proof.
  intros Hvalid H Hn stream.
  destruct (qoi_write_returned _ _ _ _ _ _ _ H Hn)
    as (bytes & Henc & Hw & ->).
  destruct (valid_image_stream _ _ _ _ _ _ Hvalid Henc)
    as (Hsz & _ & Htake).
  rewrite Htake in Hw |- *. fold stream in Hw |- *.
  split_and!; [| done | done].
  unfold stream. rewrite !length_app, length_header_bytes. simpl. lia.
Qed.

Lemma qoi_write_nonzero_witness :
  25 = Z.of_nat (length
         [113; 111; 105; 102; 0; 0; 0; 2; 0; 0; 0; 1; 3; 0; 192; 165; 136;
          0; 0; 0; 0; 0; 0; 0; 1])
  ∧ Z.of_nat (length
      [113; 111; 105; 102; 0; 0; 0; 2; 0; 0; 0; 1; 3; 0; 192; 165; 136;
       0; 0; 0; 0; 0; 0; 0; 1]) = 25
  ∧ [Fopen "out.qoi" "wb" true;
     Fwrite
       [113; 111; 105; 102; 0; 0; 0; 2; 0; 0; 0; 1; 3; 0; 192; 165; 136;
        0; 0; 0; 0; 0; 0; 0; 1] 25;
     Fclose 0]
    = [Fopen "out.qoi" "wb" true;
       Fwrite
         [113; 111; 105; 102; 0; 0; 0; 2; 0; 0; 0; 1; 3; 0; 192; 165; 136;
          0; 0; 0; 0; 0; 0; 0; 1] 25;
       Fclose 0].
Proof.
  apply (qoi_write_nonzero true
    (Libc (λ _ _, true) (λ _ _, 0) 0 (λ _, []) (λ b, Z.of_nat (length b)) 0
       always) "out.qoi" [0; 0; 0; 5; 5; 5] (Desc 2 1 3 0) _ 25
    valid_image_example); [vm_compute; reflexivity | lia].
Defined.

(** X15 — [qoi_write] opens the file for writing, which creates or
    truncates it, before the descriptor is looked at: for a descriptor the
    encoder rejects the file is opened all the same, nothing is written to
    it, it is closed and 0 is returned; with the assertions compiled in, the
    program is aborted with the file open. *)
Theorem qoi_write_invalid ndebug os filename data desc :
  libc_fopen os filename "wb" = true →
  enc_invalid desc = true →
  libc_fclose os = 0 →
  qoi_write ndebug os filename data desc
  = if ndebug then ([Fopen filename "wb" true; Fclose 0], Ret 0)
    else ([Fopen filename "wb" true], Abort).
Proof.
  intros Hopen Hinv Hclose. unfold qoi_write, close_and_return.
  rewrite Hopen, Hclose. simpl.
  destruct ndebug.
  - by rewrite (proj2 (qoi_encode_EINVAL true _ data desc) (conj eq_refl Hinv)).
  - unfold qoi_encode, enc_start.
    destruct (enc_asserts desc) eqn:Ha; [| done].
    apply enc_asserts_valid in Ha. congruence.
Qed.

Lemma qoi_write_invalid_witness :
  qoi_write true
    (Libc (λ _ _, true) (λ _ _, 0) 0 (λ _, []) (λ b, Z.of_nat (length b)) 0
       always) "out.qoi" [0; 0; 0; 5; 5; 5] (Desc 2 1 5 0)
  = if true then ([Fopen "out.qoi" "wb" true; Fclose 0], Ret 0)
    else ([Fopen "out.qoi" "wb" true], Abort).
Proof.
  apply (qoi_write_invalid true
    (Libc (λ _ _, true) (λ _ _, 0) 0 (λ _, []) (λ b, Z.of_nat (length b)) 0
       always) "out.qoi" [0; 0; 0; 5; 5; 5] (Desc 2 1 5 0)); reflexivity.
Defined.

(** ** [qoi_read] *)

(** [qoi_decode] stays inside a buffer that holds the first [size - 4]
    bytes, whatever [size] is. *)
Lemma qoi_decode_safe ndebug malloc data size desc0 target :
  size < 2147483648 → size - 4 ≤ Z.of_nat (length data) →
  (qoi_decode ndebug malloc data size desc0 target).1 ≠ Fault
  ∧ (qoi_decode ndebug malloc data size desc0 target).1 ≠ OutOfFuel.
Proof.
  intros Hsize Hlen. unfold qoi_decode.
  destruct (dec_start ndebug malloc data size desc0 target)
    as [start desc'] eqn:Hs.
  assert (start = Fault ∨ start = OutOfFuel → False) as Hstart.
  { intros Hbad. unfold dec_start in Hs.
    destruct (negb ndebug && negb (dec_asserts size target));
      [destruct Hbad; congruence |].
    destruct (_ || _) eqn:Hargs; [destruct Hbad; congruence |].
    apply orb_false_iff in Hargs as [_ Hargs].
    apply Z.ltb_ge in Hargs. unfold QOI_HEADER_SIZE in Hargs.
    destruct (dec_header_total data) as (magic & hdr & Hh); [lia |].
    rewrite Hh in Hs.
    repeat match type of Hs with
      | context [if ?b then _ else _] => destruct b
      end; destruct Hbad; congruence. }
  destruct start as [[[ch px_len] s] | e | | |]; simpl; try done.
  - apply dec_start_Ret in Hs
      as (Hargs & _ & _ & _ & Hch & Hwh & -> & _ & ->).
    assert (22 ≤ size) as Hsz.
    { unfold dec_bad_args, QOI_HEADER_SIZE in Hargs.
      apply orb_false_iff in Hargs as [_ Hargs]. apply Z.ltb_ge in Hargs.
      lia. }
    destruct (dec_loop_total data (u32 (size - 8)) ch
      (Z.to_nat (width desc' * height desc')) 0
      (DecS 14 start_mem
         (replicate (Z.to_nat (width desc' * height desc' * ch)) 0)
         start_px 0)
      (Z.to_nat (width desc' * height desc' * ch)))
      as (s' & Hloop & _);
      [done | rewrite u32_small by lia; lia | rewrite u32_small by lia; lia
      | simpl; lia | lia
      | simpl; rewrite length_replicate; destruct Hch; nia
      | simpl; rewrite length_replicate; destruct Hch; nia
      | destruct Hch; nia |].
    replace (0 + ch * Z.of_nat (Z.to_nat (width desc' * height desc')))
      with (width desc' * height desc' * ch) in Hloop by lia.
    rewrite Hloop. done.
  - destruct Hstart. by left.
  - destruct Hstart. by right.
Qed.

Lemma s32_le x : 0 ≤ x → s32 x ≤ x ∧ s32 x < 2147483648.
Proof. intros. unfold s32. mod_lia. Qed.

(** X16 — [qoi_read] never accesses the buffer it allocates for the file
    outside its bounds, whatever the file holds and whatever the library
    answers: [qoi_decode] is given a size that is at most the number of bytes
    allocated. *)
Theorem qoi_read_in_bounds ndebug os filename desc target :
  (qoi_read ndebug os filename desc target).1.2 ≠ Fault
  ∧ (qoi_read ndebug os filename desc target).1.2 ≠ OutOfFuel.
Proof.
  unfold qoi_read, close_and_return.
  repeat case_if; simpl; try done.
  match goal with
  | |- context [qoi_decode ?n ?m ?d ?s ?e ?c] =>
      pose proof (qoi_decode_safe n m d s e c) as Hsafe;
      destruct (qoi_decode n m d s e c) as [p desc']
  end.
  set (got := take _ _) in *.
  destruct (s32_le (Z.of_nat (length got))) as [Hle Hlt]; [lia |].
  destruct Hsafe as [Hf Ho]; [done | rewrite length_app; lia |].
  simpl in *. by destruct p.
Qed.

(** X17 — A file written by [qoi_write] is read back by [qoi_read]: when
    [qoi_write] returns a value other than 0 for a valid image, and the
    library later opens the file, reports as its length the number of bytes
    written, delivers those bytes and has memory, [qoi_read] with the image's
    channels returns the pixels that were written and fills in the
    descriptor they were written with. *)
Theorem qoi_write_read ndebug os os' filename filename' data desc desc0 tr n
    content rc :
  valid_image data desc →
  qoi_write ndebug os filename data desc = (tr, Ret n) → n ≠ 0 →
  Fwrite content rc ∈ tr →
  libc_fopen os' filename' "rb" = true →
  (∀ w, libc_fseek os' 0 w = 0) →
  libc_ftell os' = Z.of_nat (length content) →
  libc_fread os' (Z.of_nat (length content)) = content →
  libc_fclose os' = 0 →
  libc_malloc os' (Z.of_nat (length content)) = true →
  libc_malloc os' (Z.of_nat (length data)) = true →
  qoi_read ndebug os' filename' desc0 (channels desc)
  = ([Fopen filename' "rb" true; Fseek 0 SEEK_END 0;
      Ftell (Z.of_nat (length content)); Fseek 0 SEEK_SET 0;
      Fread (Z.of_nat (length content)) content; Fclose 0],
     Ret (Some data), desc).
Proof.
  intros Hvalid Hwrite Hn Hin Hopen Hseek Htell Hread Hclose Hm1 Hm2.
  destruct (qoi_write_returned _ _ _ _ _ _ _ Hwrite Hn)
    as (bytes & Henc & _ & ->).
  destruct (valid_image_stream _ _ _ _ _ _ Hvalid Henc)
    as (Hsz & Hlt & Htake).
  assert (content = take (Z.to_nat n) bytes) as ->.
  { apply elem_of_cons in Hin as [[=] | Hin].
    apply elem_of_cons in Hin as [[= -> _] | Hin]; [done |].
    apply elem_of_cons in Hin as [[=] | Hin]. by apply elem_of_nil in Hin. }
  pose proof Hvalid as (Hwf & Hv & _).
  destruct (enc_valid_bounds desc Hwf Hv) as (_ & _ & _ & Hch & _).
  assert (Z.of_nat (length (take (Z.to_nat n) bytes)) = n) as Hlen.
  { rewrite Htake, !length_app, length_header_bytes. simpl. lia. }
  unfold qoi_read.
  assert ((channels desc =? 0) || (channels desc =? 3)
          || (channels desc =? 4) = true) as ->
    by (destruct Hch as [-> | ->]; done).
  assert (negb (channels desc =? 0) && negb (channels desc =? 3)
          && negb (channels desc =? 4) = false) as ->
    by (destruct Hch as [-> | ->]; done).
  rewrite andb_false_r. cbv iota.
  rewrite Hopen, !Hseek, Htell, Hclose, Hm1, Hread, Hlen. simpl negb.
  rewrite !andb_false_r. cbv iota.
  rewrite (proj2 (Z.leb_gt n 0)) by lia.
  rewrite take_ge by lia.
  replace (Z.to_nat n - length (take (Z.to_nat n) bytes))%nat with 0%nat
    by lia.
  simpl replicate. rewrite app_nil_r.
  rewrite Hlen.
  assert (s32 n = n) as -> by (unfold s32; mod_lia).
  rewrite (qoi_decode_stream ndebug (libc_malloc os') data desc desc0
    (take (Z.to_nat n) bytes) n Hvalid Hsz); [done | | done].
  apply (bytes_at_take _ []).
  change (take (length (header_bytes desc ++ chunks_of (pixels_of data desc)))
            (take (Z.to_nat n) bytes)
          = header_bytes desc ++ chunks_of (pixels_of data desc)).
  by rewrite Htake, app_assoc, take_app_length.
Qed.

Lemma qoi_write_read_witness :
  qoi_read true
    (Libc (λ _ _, true) (λ _ _, 0) 25
       (λ _, [113; 111; 105; 102; 0; 0; 0; 2; 0; 0; 0; 1; 3; 0; 192; 165;
              136; 0; 0; 0; 0; 0; 0; 0; 1])
       (λ _, 0) 0 always) "in.qoi" (Desc 0 0 0 0) (channels (Desc 2 1 3 0))
  = ([Fopen "in.qoi" "rb" true; Fseek 0 SEEK_END 0; Ftell 25;
      Fseek 0 SEEK_SET 0;
      Fread 25
        [113; 111; 105; 102; 0; 0; 0; 2; 0; 0; 0; 1; 3; 0; 192; 165; 136;
         0; 0; 0; 0; 0; 0; 0; 1];
      Fclose 0],
     Ret (Some [0; 0; 0; 5; 5; 5]), Desc 2 1 3 0).
Proof.
  apply (qoi_write_read true
    (Libc (λ _ _, true) (λ _ _, 0) 0 (λ _, []) (λ b, Z.of_nat (length b)) 0
       always)
    (Libc (λ _ _, true) (λ _ _, 0) 25
       (λ _, [113; 111; 105; 102; 0; 0; 0; 2; 0; 0; 0; 1; 3; 0; 192; 165;
              136; 0; 0; 0; 0; 0; 0; 0; 1])
       (λ _, 0) 0 always)
    "out.qoi" "in.qoi" [0; 0; 0; 5; 5; 5] (Desc 2 1 3 0) (Desc 0 0 0 0)
    [Fopen "out.qoi" "wb" true;
     Fwrite
       [113; 111; 105; 102; 0; 0; 0; 2; 0; 0; 0; 1; 3; 0; 192; 165; 136;
        0; 0; 0; 0; 0; 0; 0; 1] 25;
     Fclose 0] 25
    [113; 111; 105; 102; 0; 0; 0; 2; 0; 0; 0; 1; 3; 0; 192; 165; 136;
     0; 0; 0; 0; 0; 0; 0; 1] 25 valid_image_example);
    [vm_compute; reflexivity | lia
    | apply list_elem_of_further, list_elem_of_here | reflexivity..].
Defined.

(** X18 — A file that cannot be opened, an empty file (or one whose length
    [ftell] does not tell) and a file there is no memory for: [qoi_read]
    returns [NULL], or aborts on a failed assertion, without reading the
    file and without touching the descriptor. *)
Theorem qoi_read_no_data ndebug os filename desc target :
  libc_fopen os filename "rb" = false ∨ libc_ftell os ≤ 0
  ∨ libc_malloc os (libc_ftell os) = false →
  ((qoi_read ndebug os filename desc target).1.2 = Ret None
   ∨ (qoi_read ndebug os filename desc target).1.2 = Abort)
  ∧ (qoi_read ndebug os filename desc target).2 = desc
  ∧ ∀ n bytes,
      Fread n bytes ∉ (qoi_read ndebug os filename desc target).1.1.
Proof.
  intros Hno.
  destruct (qoi_read ndebug os filename desc target) as [[tr r] d] eqn:H.
  simpl. revert H. unfold qoi_read, close_and_return.
  assert (∀ tr : list event, (∀ e, e ∈ tr → ∀ n b, e ≠ Fread n b) →
          ∀ n b, Fread n b ∉ tr) as Hnot.
  { intros tr' Htr n b Hin. by apply (Htr _ Hin n b). }
  repeat case_if;
    try (intros [= <- <- <-]; split_and!; [by auto | done |];
         apply Hnot; intros e He n b ->;
         repeat (apply elem_of_cons in He as [[=] | He]);
         by apply elem_of_nil in He).
  all: exfalso; destruct Hno as [Hf | [Ht | Hm]];
    [ by rewrite Hf in *
    | apply Z.leb_le in Ht; congruence
    | by rewrite Hm in * ].
Qed.

Lemma qoi_read_no_data_witness :
  ((qoi_read true
      (Libc (λ _ _, true) (λ _ _, 0) 0 (λ _, []) (λ _, 0) 0 always)
      "empty.qoi" (Desc 1 2 3 0) 0).1.2 = Ret None
   ∨ (qoi_read true
        (Libc (λ _ _, true) (λ _ _, 0) 0 (λ _, []) (λ _, 0) 0 always)
        "empty.qoi" (Desc 1 2 3 0) 0).1.2 = Abort)
  ∧ (qoi_read true
       (Libc (λ _ _, true) (λ _ _, 0) 0 (λ _, []) (λ _, 0) 0 always)
       "empty.qoi" (Desc 1 2 3 0) 0).2 = Desc 1 2 3 0
  ∧ ∀ n bytes,
      Fread n bytes
      ∉ (qoi_read true
           (Libc (λ _ _, true) (λ _ _, 0) 0 (λ _, []) (λ _, 0) 0 always)
           "empty.qoi" (Desc 1 2 3 0) 0).1.1.
Proof.
  apply (qoi_read_no_data true
    (Libc (λ _ _, true) (λ _ _, 0) 0 (λ _, []) (λ _, 0) 0 always)
    "empty.qoi" (Desc 1 2 3 0) 0).
  right. left. simpl. lia.
Defined.

(** X19 — A file of fewer than 22 bytes: [qoi_read] reads it, closes it and
    hands it to [qoi_decode], which rejects its size: the result is [NULL]
    with [errno] set to [EINVAL] and the descriptor untouched, or, with the
    assertions compiled in, the program is aborted. *)
Theorem qoi_read_short_file ndebug os filename desc target :
  target = 0 ∨ target = 3 ∨ target = 4 →
  libc_fopen os filename "rb" = true →
  (∀ w, libc_fseek os 0 w = 0) →
  0 < libc_ftell os < 22 →
  libc_malloc os (libc_ftell os) = true →
  libc_fclose os = 0 →
  qoi_read ndebug os filename desc target
  = ([Fopen filename "rb" true; Fseek 0 SEEK_END 0; Ftell (libc_ftell os);
      Fseek 0 SEEK_SET 0;
      Fread (libc_ftell os)
        (take (Z.to_nat (libc_ftell os)) (libc_fread os (libc_ftell os)));
      Fclose 0],
     if ndebug then Err EINVAL else Abort, desc).
Proof.
  intros Hch Hopen Hseek Htell Hm Hclose. unfold qoi_read.
  assert ((target =? 0) || (target =? 3) || (target =? 4) = true) as ->
    by (destruct Hch as [-> | [-> | ->]]; done).
  assert (negb (target =? 0) && negb (target =? 3)
          && negb (target =? 4) = false) as Hargs
    by (destruct Hch as [-> | [-> | ->]]; done).
  rewrite Hargs, andb_false_r. cbv iota.
  rewrite Hopen, !Hseek, Hclose, Hm. simpl negb.
  rewrite !andb_false_r. cbv iota.
  rewrite (proj2 (Z.leb_gt _ 0)) by lia.
  set (got := take _ _).
  assert (Z.of_nat (length got) < 22) as Hlen
    by (unfold got; rewrite length_take; lia).
  assert (s32 (Z.of_nat (length got)) = Z.of_nat (length got)) as ->
    by (unfold s32; mod_lia).
  unfold qoi_decode, dec_start, dec_asserts, QOI_HEADER_SIZE.
  rewrite Hargs.
  rewrite (proj2 (Z.leb_gt _ _)), (proj2 (Z.ltb_lt _ _)) by lia.
  rewrite andb_false_r, orb_true_r. by destruct ndebug.
Qed.

Lemma qoi_read_short_file_witness :
  qoi_read true
    (Libc (λ _ _, true) (λ _ _, 0) 4 (λ _, [113; 111; 105; 102]) (λ _, 0) 0
       always) "short.qoi" (Desc 1 2 3 0) 0
  = ([Fopen "short.qoi" "rb" true; Fseek 0 SEEK_END 0; Ftell 4;
      Fseek 0 SEEK_SET 0; Fread 4 [113; 111; 105; 102]; Fclose 0],
     Err EINVAL, Desc 1 2 3 0).
Proof.
  apply (qoi_read_short_file true
    (Libc (λ _ _, true) (λ _ _, 0) 4 (λ _, [113; 111; 105; 102]) (λ _, 0) 0
       always) "short.qoi" (Desc 1 2 3 0) 0);
    [by left | reflexivity | reflexivity | simpl; lia | reflexivity
    | reflexivity].
Defined.

(** ** [ends_with] *)

Lemma strncmp_eq (n : nat) : ∀ s1 s2,
  String.length s1 = n → String.length s2 = n →
  strncmp s1 s2 n = 0 ↔ s1 = s2.
Proof.
  induction n as [| n IH]; intros [| c1 s1] [| c2 s2]; simpl; try done.
  intros [= H1] [= H2].
  destruct (Ascii.eqb_spec c1 c2) as [-> | Hne].
  - rewrite (IH s1 s2 H1 H2). split; [by intros -> | by intros [= ->]].
  - split; [| by intros [= ? _]].
    intros Hz. destruct Hne.
    rewrite <- (Ascii.ascii_nat_embedding c1),
      <- (Ascii.ascii_nat_embedding c2).
    f_equal. lia.
Qed.

Lemma str_offset_app pre s : str_offset (String.length pre) (pre +:+ s) = s.
Proof. induction pre as [| c pre IH]; simpl; [by destruct s | done]. Qed.

Lemma length_str_app s1 s2 :
  String.length (s1 +:+ s2) = (String.length s1 + String.length s2)%nat.
Proof. induction s1 as [| c s1 IH]; simpl; [done | by rewrite IH]. Qed.

Lemma str_offset_split (n : nat) : ∀ s,
  (n ≤ String.length s)%nat →
  ∃ pre, s = pre +:+ str_offset n s ∧ String.length pre = n.
Proof.
  induction n as [| n IH]; intros s Hn.
  - exists EmptyString. by destruct s.
  - destruct s as [| c s]; simpl in *; [lia |].
    destruct (IH s ltac:(lia)) as (pre & Hs & Hl).
    exists (String c pre). split; [| simpl; by f_equal].
    change (String c s = String c (pre +:+ str_offset n s)). by f_equal.
Qed.

(** X20 — [ends_with] returns 1 exactly when [str] ends with [suffix]. *)
Theorem ends_with_suffix ndebug str suffix :
  ends_with ndebug str suffix = Ret 1 ↔ ∃ pre, str = pre +:+ suffix.
Proof.
  unfold ends_with, strlen.
  destruct (Nat.leb_spec (String.length suffix) (String.length str))
    as [Hle | Hlt].
  - rewrite andb_false_r.
    rewrite (proj2 (Nat.ltb_ge _ _)) by done.
    destruct (str_offset_split (String.length str - String.length suffix) str)
      as (pre & Hs & Hl); [lia |].
    set (tl := str_offset _ str) in *.
    assert (String.length tl = String.length suffix) as Htl.
    { apply (f_equal String.length) in Hs. rewrite length_str_app in Hs. lia. }
    pose proof (strncmp_eq (String.length suffix) tl suffix Htl eq_refl)
      as Hcmp.
    destruct (Z.eqb_spec (strncmp tl suffix (String.length suffix)) 0)
      as [Hz | Hz].
    + split; [| done]. intros _. exists pre. rewrite Hs. f_equal.
      by apply Hcmp.
    + split; [done |]. intros [pre' Hs']. destruct Hz. apply Hcmp.
      unfold tl. rewrite Hs' at 2.
      replace (String.length str - String.length suffix)%nat
        with (String.length pre')
        by (rewrite Hs', length_str_app; lia).
      apply str_offset_app.
  - split.
    + destruct (negb ndebug); simpl; [done |].
      by rewrite (proj2 (Nat.ltb_lt _ _)) by done.
    + intros [pre ->]. rewrite length_str_app in Hlt. lia.
Qed.

(** X21 — On a string shorter than the suffix [ends_with] does not answer
    0: it returns -1, which a caller testing [if (ends_with(...))] takes
    for a match, or, with the assertions compiled in, aborts. *)
Theorem ends_with_short ndebug str suffix :
  (String.length str < String.length suffix)%nat →
  ends_with ndebug str suffix = (if ndebug then Ret (-1) else Abort).
Proof.
  intros Hlt. unfold ends_with, strlen.
  rewrite (proj2 (Nat.leb_gt _ _)) by done.
  rewrite (proj2 (Nat.ltb_lt _ _)) by done.
  by destruct ndebug.
Qed.

Lemma ends_with_short_witness :
  ends_with true "a" ".png" = Ret (-1).
Proof. apply (ends_with_short true "a" ".png"). simpl. lia. Defined.

(** ** [main] *)

Lemma str_suffix_offset str suffix :
  str_suffix suffix str →
  str_offset (String.length str - String.length suffix) str = suffix.
Proof.
  intros [pre ->]. rewrite length_str_app.
  replace (String.length pre + String.length suffix - String.length suffix)%nat
    with (String.length pre) by lia.
  apply str_offset_app.
Qed.

Lemma ends_with_long ndebug str suffix :
  (String.length suffix ≤ String.length str)%nat →
  ends_with ndebug str suffix = Ret 1 ∧ str_suffix suffix str
  ∨ ends_with ndebug str suffix = Ret 0 ∧ ¬ str_suffix suffix str.
Proof.
  intros Hle. unfold ends_with, strlen.
  rewrite (proj2 (Nat.leb_le _ _)) by done. rewrite andb_false_r.
  rewrite (proj2 (Nat.ltb_ge _ _)) by done.
  destruct (str_offset_split (String.length str - String.length suffix) str)
    as (pre & Hs & Hl); [lia |].
  set (tl := str_offset _ str) in *.
  assert (String.length tl = String.length suffix) as Htl.
  { apply (f_equal String.length) in Hs. rewrite length_str_app in Hs. lia. }
  pose proof (strncmp_eq (String.length suffix) tl suffix Htl eq_refl)
    as Hcmp.
  destruct (Z.eqb_spec (strncmp tl suffix (String.length suffix)) 0)
    as [Hz | Hz].
  - left. split; [done |]. exists pre. rewrite Hs. f_equal. by apply Hcmp.
  - right. split; [done |]. intros [pre' Hs']. destruct Hz. apply Hcmp.
    unfold tl. rewrite Hs' at 2.
    replace (String.length str - String.length suffix)%nat
      with (String.length pre')
      by (rewrite Hs', length_str_app; lia).
    apply str_offset_app.
Qed.

Lemma ends_with_long_ndebug ndebug str suffix :
  (String.length suffix ≤ String.length str)%nat →
  ends_with ndebug str suffix = ends_with false str suffix.
Proof.
  intros Hle. unfold ends_with, strlen.
  by rewrite (proj2 (Nat.leb_le _ _)), !andb_false_r by done.
Qed.

Lemma ends_with_app ndebug pre suffix :
  ends_with ndebug (pre +:+ suffix) suffix = Ret 1.
Proof.
  destruct (ends_with_long ndebug (pre +:+ suffix) suffix) as [[H _] | [_ H]];
    [rewrite length_str_app; lia | done |].
  destruct H. by exists pre.
Qed.

Lemma ends_with_other ndebug pre suffix suffix' :
  String.length suffix = String.length suffix' → suffix ≠ suffix' →
  ends_with ndebug (pre +:+ suffix) suffix' = Ret 0.
Proof.
  intros Hl Hne.
  destruct (ends_with_long ndebug (pre +:+ suffix) suffix') as [[_ H] | [H _]];
    [rewrite length_str_app; lia | | done].
  destruct H as [pre' H]. destruct Hne.
  assert (String.length pre = String.length pre') as Hp.
  { apply (f_equal String.length) in H. rewrite !length_str_app in H. lia. }
  rewrite <- (str_offset_app pre suffix), H, Hp. apply str_offset_app.
Qed.

Lemma ends_with_short_name ndebug str suffix :
  (String.length str < String.length suffix)%nat →
  ends_with ndebug str suffix = (if ndebug then Ret (-1) else Abort).
Proof.
  intros Hlt. unfold ends_with, strlen.
  rewrite (proj2 (Nat.leb_gt _ _)) by done.
  rewrite (proj2 (Nat.ltb_lt _ _)) by done.
  by destruct ndebug.
Qed.

Lemma main_end_status lines tr encoded e :
  (main_end lines tr encoded).2 ≠ Ret (EXIT_errno e).
Proof. unfold main_end. by destruct (encoded =? 0). Qed.

Lemma main_write_status ndebug os im out tr pixels w h ch e :
  (main_write ndebug os im out tr pixels w h ch).2 ≠ Ret (EXIT_errno e).
Proof.
  unfold main_write.
  destruct (ends_with ndebug out ".png") as [v | | | |]; try done.
  destruct (negb (v =? 0)); [apply main_end_status |].
  destruct (ends_with ndebug out ".qoi") as [v' | | | |]; try done.
  destruct (negb (v' =? 0)); [| done].
  destruct (qoi_write _ _ _ _ _) as [tr' [n | | | |]]; try done.
  apply main_end_status.
Qed.

(** [qoi_write] on a valid image when the library calls succeed. *)
Lemma qoi_write_run ndebug os filename data desc :
  valid_image data desc →
  libc_fopen os filename "wb" = true →
  libc_malloc os (enc_capacity desc) = true →
  (∀ bytes, libc_fwrite os bytes = Z.of_nat (length bytes)) →
  libc_fclose os = 0 →
  let stream :=
    header_bytes desc ++ chunks_of (pixels_of data desc) ++ qoi_padding in
  qoi_write ndebug os filename data desc
  = ([Fopen filename "wb" true;
      Fwrite stream (Z.of_nat (length stream)); Fclose 0],
     Ret (Z.of_nat (length stream))).
Proof.
  intros Hvalid Hopen Hm Hwrite Hclose stream.
  destruct (qoi_encode_ok ndebug (libc_malloc os) data desc Hvalid Hm)
    as (bytes & size & Henc & _).
  destruct (valid_image_stream _ _ _ _ _ _ Hvalid Henc)
    as (Hsz & _ & Htake).
  assert (size = Z.of_nat (length stream)) as Hlen.
  { unfold stream. rewrite !length_app, length_header_bytes. simpl. lia. }
  unfold qoi_write, close_and_return.
  rewrite Hopen, Henc, Htake, Hwrite, Hclose. fold stream.
  rewrite <- Hlen, Z.eqb_refl. simpl. by rewrite andb_false_r.
Qed.

(** X22 — [main] exits with [EINVAL] in two cases only, both in a build
    without assertions: the number of arguments is not 3, or the name of the
    input has at least four characters and ends neither with [.png] nor with
    [.qoi].  (A shorter name is taken for a PNG file, and the name of the
    output is never a reason.)  With the assertions compiled in, [main]
    aborts in both cases, having printed nothing and opened no file. *)
Theorem main_exit_EINVAL ndebug os im argv channels0 :
  ((main ndebug os im argv channels0).2 = Ret (EXIT_errno EINVAL)
   ↔ ndebug = true
     ∧ (length argv ≠ 3%nat
        ∨ ∃ inp, argv !! 1%nat = Some inp ∧ (4 ≤ String.length inp)%nat
                 ∧ ¬ str_suffix ".png" inp ∧ ¬ str_suffix ".qoi" inp))
  ∧ (length argv ≠ 3%nat
     ∨ (∃ inp, argv !! 1%nat = Some inp ∧ (4 ≤ String.length inp)%nat
               ∧ ¬ str_suffix ".png" inp ∧ ¬ str_suffix ".qoi" inp) →
     main false os im argv channels0 = ([], [], Abort)).
Proof.
  split.
  { assert (∀ l : list string, length l ≠ 3%nat →
      (main ndebug os im l channels0).2 = Ret (EXIT_errno EINVAL)
      ↔ ndebug = true) as Hargc.
    { intros l Hl. destruct l as [| a0 [| a1 [| a2 [| a3 l]]]];
        try (by destruct Hl); simpl; by destruct ndebug. }
    destruct (decide (length argv = 3%nat)) as [H3 | H3].
    2: { rewrite (Hargc argv H3). split; [by auto | by intros [-> _]]. }
    destruct argv as [| a0 [| inp [| out [| a3 l]]]]; try done. clear H3 Hargc.
    cbn [main lookup list_lookup].
    assert ((∃ i, Some inp = Some i ∧ (4 ≤ String.length i)%nat
                  ∧ ¬ str_suffix ".png" i ∧ ¬ str_suffix ".qoi" i)
            ↔ (4 ≤ String.length inp)%nat ∧ ¬ str_suffix ".png" inp
              ∧ ¬ str_suffix ".qoi" inp) as Hex.
    { split; [by intros (i & [= <-] & ?) | intros ?; by exists inp]. }
    destruct (Nat.lt_ge_cases (String.length inp) 4) as [Hshort | Hlong].
    - (* a short name *)
      transitivity False;
        [| split; [done | intros [_ [? | ?%Hex]]; [done | lia]]].
      unfold main_assert, main_read.
      rewrite !(ends_with_short_name _ inp ".png") by done.
      destruct ndebug; simpl; [| done].
      split; [| done].
      destruct (stbi_info im inp) as [[[? ?] c] |]; [| done].
      destruct (stbi_load im inp _) as [[[px w] h] |]; [| done].
      apply main_write_status.
    - unfold main_assert, main_read.
      rewrite (ends_with_long_ndebug ndebug inp ".png"),
        (ends_with_long_ndebug ndebug inp ".qoi") by done.
      destruct (ends_with_long false inp ".png" Hlong) as [[Hf Hp] | [Hf Hp]];
        rewrite Hf; simpl negb; cbv iota.
      + (* a PNG file *)
        rewrite andb_false_r.
        transitivity False;
          [| split; [done | intros [_ [? | ?%Hex]]; [done | tauto]]].
        split; [| done].
        destruct (stbi_info im inp) as [[[? ?] c] |]; [| done].
        destruct (stbi_load im inp _) as [[[px w] h] |]; [| done].
        apply main_write_status.
      + destruct (ends_with_long false inp ".qoi" Hlong)
          as [[Hf' Hq] | [Hf' Hq]];
          rewrite Hf'; simpl negb; cbv iota.
        * (* a QOI file *)
          rewrite andb_false_r.
          transitivity False;
            [| split; [done | intros [_ [? | ?%Hex]]; [done | tauto]]].
          split; [| done].
          destruct (qoi_read _ _ _ _ _) as [[tr r] d].
          destruct r as [[px |] | | | |]; try done.
          apply main_write_status.
        * (* neither *)
          rewrite andb_true_r.
          destruct ndebug; simpl; [| by split; [| intros [? _]]].
          split; [intros _ | done]. split; [done |]. right. by apply Hex. }
  intros Hcase.
  destruct argv as [| a0 [| inp [| out [| a3 l]]]]; try done.
  destruct Hcase as [? | (i & [= <-] & Hlong & Hpng & Hqoi)]; [done |].
  unfold main, main_assert.
  destruct (ends_with_long false inp ".png" Hlong) as [[_ ?] | [-> _]];
    [done |].
  destruct (ends_with_long false inp ".qoi" Hlong) as [[_ ?] | [-> _]];
    [done |].
  done.
Qed.

(** X23 — Converting a PNG file to QOI: when [stb_image] reads the header
    and loads the pixels of a valid image (with 3 channels if the file has 3,
    with 4 otherwise), and the output opens, the allocation succeeds,
    [fwrite] writes all it is given and [fclose] succeeds, [main] writes to
    [argv[2]] the QOI stream of that image with colour space [QOI_SRGB],
    prints nothing and exits with [EXIT_SUCCESS]. *)
Theorem main_png_to_qoi ndebug os im a0 pre pre' w0 h0 c pixels w h
    channels0 :
  let inp := pre +:+ ".png" in
  let out := pre' +:+ ".qoi" in
  let desc := Desc w h (if c =? 3 then 3 else 4) QOI_SRGB in
  stbi_info im inp = Some (w0, h0, c) →
  stbi_load im inp (if c =? 3 then 3 else 4) = Some (pixels, w, h) →
  valid_image pixels desc →
  libc_fopen os out "wb" = true →
  libc_malloc os (enc_capacity desc) = true →
  (∀ bytes, libc_fwrite os bytes = Z.of_nat (length bytes)) →
  libc_fclose os = 0 →
  let stream :=
    header_bytes desc ++ chunks_of (pixels_of pixels desc) ++ qoi_padding in
  main ndebug os im [a0; inp; out] channels0
  = ([], [Fopen out "wb" true; Fwrite stream (Z.of_nat (length stream));
          Fclose 0], Ret EXIT_SUCCESS).
Proof.
  intros inp out desc Hinfo Hload Hvalid Hopen Hm Hwrite Hclose stream.
  subst inp out.
  unfold main, main_assert, main_read, main_write.
  rewrite !ends_with_app. simpl negb. cbv iota.
  rewrite andb_false_r, Hinfo.
  assert ((if negb (c =? 3) then 4 else c) = (if c =? 3 then 3 else 4)) as ->.
  { destruct (Z.eqb_spec c 3) as [-> | ?]; done. }
  rewrite Hload.
  rewrite (ends_with_other ndebug pre' ".qoi" ".png") by done.
  simpl negb. cbv iota.
  pose proof Hvalid as ((Hw & Hh & _) & _).
  assert (Desc (u32 w) (u32 h) (u8 (if c =? 3 then 3 else 4)) QOI_SRGB
          = desc) as ->.
  { unfold desc. simpl in Hw, Hh. rewrite !u32_small by done.
    by destruct (c =? 3). }
  rewrite (qoi_write_run ndebug os (pre' +:+ ".qoi") pixels desc) by done.
  fold stream. unfold main_end.
  assert (Z.of_nat (length stream) ≠ 0) as ->%Z.eqb_neq.
  { unfold stream. rewrite length_app, length_header_bytes. lia. }
  done.
Qed.

Lemma main_png_to_qoi_witness :
  main true
    (Libc (λ _ _, true) (λ _ _, 0) 0 (λ _, []) (λ b, Z.of_nat (length b)) 0
       always)
    (Stb (λ _, Some (2, 1, 3)) (λ _ _, Some ([0; 0; 0; 5; 5; 5], 2, 1))
       (λ _ _ _ _ _, 0))
    ["qoi"; "in.png"; "out.qoi"] 7
  = ([], [Fopen "out.qoi" "wb" true;
          Fwrite
            [113; 111; 105; 102; 0; 0; 0; 2; 0; 0; 0; 1; 3; 0; 192; 165;
             136; 0; 0; 0; 0; 0; 0; 0; 1] 25;
          Fclose 0], Ret EXIT_SUCCESS).
Proof.
  apply (main_png_to_qoi true
    (Libc (λ _ _, true) (λ _ _, 0) 0 (λ _, []) (λ b, Z.of_nat (length b)) 0
       always)
    (Stb (λ _, Some (2, 1, 3)) (λ _ _, Some ([0; 0; 0; 5; 5; 5], 2, 1))
       (λ _ _ _ _ _, 0))
    "qoi" "in" "out" 2 1 3 [0; 0; 0; 5; 5; 5] 2 1 7);
    [reflexivity | reflexivity | exact valid_image_example | reflexivity..].
Defined.

(** X24 — [main] passes its variable [channels] to [qoi_read] before
    anything has been stored in it.  On a QOI input, unless the value found
    there is 0, 3 or 4, no file is opened: [main] prints
    "ERROR: Could not load/decode." and exits with [EXIT_FAILURE], or aborts
    when the assertions are compiled in. *)
Theorem main_qoi_channels ndebug os im a0 pre out channels0 :
  channels0 ≠ 0 → channels0 ≠ 3 → channels0 ≠ 4 →
  main ndebug os im [a0; pre +:+ ".qoi"; out] channels0
  = if ndebug
    then (["ERROR: Could not load/decode."], [], Ret EXIT_FAILURE)
    else ([], [], Abort).
Proof.
  intros H0%Z.eqb_neq H3%Z.eqb_neq H4%Z.eqb_neq.
  unfold main, main_assert, main_read.
  rewrite !(ends_with_other _ pre ".qoi" ".png") by done.
  rewrite !ends_with_app. simpl negb. cbv iota. rewrite andb_false_r.
  unfold qoi_read. rewrite H0, H3, H4. by destruct ndebug.
Qed.

Lemma main_qoi_channels_witness :
  main true
    (Libc (λ _ _, true) (λ _ _, 0) 0 (λ _, []) (λ _, 0) 0 always)
    (Stb (λ _, None) (λ _ _, None) (λ _ _ _ _ _, 1))
    ["qoi"; "in.qoi"; "out.png"] 32767
  = (["ERROR: Could not load/decode."], [], Ret EXIT_FAILURE).
Proof.
  apply (main_qoi_channels true
    (Libc (λ _ _, true) (λ _ _, 0) 0 (λ _, []) (λ _, 0) 0 always)
    (Stb (λ _, None) (λ _ _, None) (λ _ _ _ _ _, 1))
    "qoi" "in" "out.png" 32767); lia.
Defined.

(** The stream of a valid image consists of bytes and fits in an [int]. *)
Lemma stream_bytes data desc :
  valid_image data desc →
  Forall is_byte
    (header_bytes desc ++ chunks_of (pixels_of data desc) ++ qoi_padding)
  ∧ 14 + Z.of_nat (length (chunks_of (pixels_of data desc))) + 8 < 2147483648.
Proof.
  intros Hvalid.
  destruct (qoi_encode_ok true (λ _, true) data desc Hvalid eq_refl)
    as (bytes & size & Henc & _).
  destruct (valid_image_stream _ _ _ _ _ _ Hvalid Henc)
    as (Hsz & Hlt & Htake).
  split; [| lia]. rewrite <- Htake. apply Forall_take.
  by eapply qoi_encode_bytes.
Qed.

(** [qoi_read] on a file that holds the stream of an image. *)
Lemma qoi_read_stream ndebug os filename data desc desc0 t :
  let stream :=
    header_bytes desc ++ chunks_of (pixels_of data desc) ++ qoi_padding in
  let ch := if t =? 0 then channels desc else t in
  valid_image data desc →
  t = 0 ∨ t = 3 ∨ t = 4 →
  libc_fopen os filename "rb" = true →
  (∀ w, libc_fseek os 0 w = 0) →
  libc_ftell os = Z.of_nat (length stream) →
  libc_fread os (Z.of_nat (length stream)) = stream →
  libc_fclose os = 0 →
  libc_malloc os (Z.of_nat (length stream)) = true →
  libc_malloc os (width desc * height desc * ch) = true →
  qoi_read ndebug os filename desc0 t
  = ([Fopen filename "rb" true; Fseek 0 SEEK_END 0;
      Ftell (Z.of_nat (length stream)); Fseek 0 SEEK_SET 0;
      Fread (Z.of_nat (length stream)) stream; Fclose 0],
     Ret (Some (flat ch (pixels_of data desc))), desc).
Proof.
  intros stream ch Hvalid Ht Hopen Hseek Htell Hread Hclose Hm1 Hm2.
  destruct (stream_bytes data desc Hvalid) as (Hbb & Hlt). fold stream in Hbb.
  assert (Z.of_nat (length stream)
          = 14 + Z.of_nat (length (chunks_of (pixels_of data desc))) + 8)
    as Hlen.
  { unfold stream. rewrite !length_app, length_header_bytes. simpl. lia. }
  set (n := Z.of_nat (length stream)) in *.
  unfold qoi_read.
  assert ((t =? 0) || (t =? 3) || (t =? 4) = true) as ->
    by (destruct Ht as [-> | [-> | ->]]; done).
  assert (negb (t =? 0) && negb (t =? 3) && negb (t =? 4) = false) as ->
    by (destruct Ht as [-> | [-> | ->]]; done).
  rewrite andb_false_r. cbv iota.
  rewrite Hopen, !Hseek, Htell, Hclose, Hm1, Hread. simpl negb.
  rewrite !andb_false_r. cbv iota.
  rewrite (proj2 (Z.leb_gt n 0)) by lia.
  rewrite take_ge by lia.
  replace (Z.to_nat n - length stream)%nat with 0%nat by lia.
  simpl replicate. rewrite app_nil_r. fold n.
  assert (s32 n = n) as -> by (unfold s32; mod_lia).
  rewrite (qoi_decode_stream_target ndebug (libc_malloc os) data desc desc0
    stream n t Hvalid Hbb Hlen); [done | lia | lia | | done | done].
  apply (bytes_at_take _ []).
  change (take (length (header_bytes desc ++ chunks_of (pixels_of data desc)))
            stream
          = header_bytes desc ++ chunks_of (pixels_of data desc)).
  unfold stream. by rewrite app_assoc, take_app_length.
Qed.

(** X25 — Converting a QOI file to PNG: when the input holds the stream of a
    valid image and the library calls succeed, [main] hands to
    [stbi_write_png] the width, height and number of channels of the file's
    header, with the pixels in the layout [qoi_read] was asked for.  That
    layout is the file's only when the variable [channels], which [main]
    never initialises, holds 0 or the file's number of channels; when it
    holds the other of 3 and 4, the buffer has a different number of bytes
    for each pixel than [stbi_write_png] is told. *)
Theorem main_qoi_to_png ndebug os im a0 pre pre' data desc channels0 :
  let inp := pre +:+ ".qoi" in
  let out := pre' +:+ ".png" in
  let stream :=
    header_bytes desc ++ chunks_of (pixels_of data desc) ++ qoi_padding in
  let ch := if channels0 =? 0 then channels desc else channels0 in
  valid_image data desc →
  channels0 = 0 ∨ channels0 = 3 ∨ channels0 = 4 →
  libc_fopen os inp "rb" = true →
  (∀ w, libc_fseek os 0 w = 0) →
  libc_ftell os = Z.of_nat (length stream) →
  libc_fread os (Z.of_nat (length stream)) = stream →
  libc_fclose os = 0 →
  libc_malloc os (Z.of_nat (length stream)) = true →
  libc_malloc os (width desc * height desc * ch) = true →
  let tr :=
    [Fopen inp "rb" true; Fseek 0 SEEK_END 0;
     Ftell (Z.of_nat (length stream)); Fseek 0 SEEK_SET 0;
     Fread (Z.of_nat (length stream)) stream; Fclose 0] in
  main ndebug os im [a0; inp; out] channels0
  = if stbi_write_png im out (width desc) (height desc) (channels desc)
         (flat ch (pixels_of data desc)) =? 0
    then (["ERROR: Could not write/encode."], tr, Ret EXIT_FAILURE)
    else ([], tr, Ret EXIT_SUCCESS).
Proof.
  intros inp out stream ch Hvalid Ht Hopen Hseek Htell Hread Hclose Hm1 Hm2 tr.
  pose proof Hvalid as (Hwf & Hv & _).
  destruct (enc_valid_bounds desc Hwf Hv) as (Hw & Hh & Hwh & Hch & Hcs).
  assert (∀ nd, ends_with nd inp ".png" = Ret 0) as Hpng
    by (intros nd; by apply ends_with_other).
  assert (∀ nd, ends_with nd inp ".qoi" = Ret 1) as Hqoi
    by (intros nd; apply ends_with_app).
  assert (ends_with ndebug out ".png" = Ret 1) as Hout
    by apply ends_with_app.
  unfold main, main_assert, main_read, main_write.
  rewrite !Hpng, !Hqoi. simpl negb. cbv iota. rewrite andb_false_r.
  rewrite (qoi_read_stream ndebug os inp data desc (Desc 0 0 0 0) channels0)
    by done.
  rewrite Hout. simpl negb. cbv iota.
  assert (width desc < 400000000 ∧ height desc < 400000000) as [Hw' Hh']
    by nia.
  assert (s32 (width desc) = width desc) as -> by (unfold s32; mod_lia).
  assert (s32 (height desc) = height desc) as -> by (unfold s32; mod_lia).
  unfold main_end. by destruct (_ =? 0).
Qed.

Lemma main_qoi_to_png_witness :
  main true
    (Libc (λ _ _, true) (λ _ _, 0) 25
       (λ _, [113; 111; 105; 102; 0; 0; 0; 2; 0; 0; 0; 1; 3; 0; 192; 165;
              136; 0; 0; 0; 0; 0; 0; 0; 1])
       (λ _, 0) 0 always)
    (Stb (λ _, None) (λ _ _, None) (λ _ _ _ _ _, 1))
    ["qoi"; "in.qoi"; "out.png"] 4
  = ([], [Fopen "in.qoi" "rb" true; Fseek 0 SEEK_END 0; Ftell 25;
          Fseek 0 SEEK_SET 0;
          Fread 25
            [113; 111; 105; 102; 0; 0; 0; 2; 0; 0; 0; 1; 3; 0; 192; 165;
             136; 0; 0; 0; 0; 0; 0; 0; 1];
          Fclose 0], Ret EXIT_SUCCESS).
Proof.
  apply (main_qoi_to_png true
    (Libc (λ _ _, true) (λ _ _, 0) 25
       (λ _, [113; 111; 105; 102; 0; 0; 0; 2; 0; 0; 0; 1; 3; 0; 192; 165;
              136; 0; 0; 0; 0; 0; 0; 0; 1])
       (λ _, 0) 0 always)
    (Stb (λ _, None) (λ _ _, None) (λ _ _ _ _ _, 1))
    "qoi" "in" "out" [0; 0; 0; 5; 5; 5] (Desc 2 1 3 0) 4
    valid_image_example);
    [by right; right | reflexivity..].
Defined.

(** X26 — [main] looks at the name of the output only after it has read the
    input, and has no branch for a name of at least four characters that
    ends neither with [.png] nor with [.qoi]: after a PNG input was loaded,
    nothing is written and no message is printed, and [main] goes on to test
    the variable [encoded], which was never written (undefined behaviour,
    [Fault] in the embedding). *)
Theorem main_output_name ndebug os im a0 pre out w0 h0 c pixels w h
    channels0 :
  stbi_info im (pre +:+ ".png") = Some (w0, h0, c) →
  stbi_load im (pre +:+ ".png") (if c =? 3 then 3 else 4)
  = Some (pixels, w, h) →
  (4 ≤ String.length out)%nat →
  ¬ str_suffix ".png" out → ¬ str_suffix ".qoi" out →
  main ndebug os im [a0; pre +:+ ".png"; out] channels0 = ([], [], Fault).
Proof.
  intros Hinfo Hload Hlen Hpng Hqoi.
  unfold main, main_assert, main_read, main_write.
  rewrite !ends_with_app. simpl negb. cbv iota.
  rewrite andb_false_r, Hinfo.
  assert ((if negb (c =? 3) then 4 else c) = (if c =? 3 then 3 else 4)) as ->.
  { destruct (Z.eqb_spec c 3) as [-> | ?]; done. }
  rewrite Hload.
  destruct (ends_with_long ndebug out ".png" Hlen) as [[_ ?] | [-> _]];
    [done |].
  destruct (ends_with_long ndebug out ".qoi" Hlen) as [[_ ?] | [-> _]];
    [done |].
  done.
Qed.

Lemma main_output_name_witness :
  main true
    (Libc (λ _ _, true) (λ _ _, 0) 0 (λ _, []) (λ b, Z.of_nat (length b)) 0
       always)
    (Stb (λ _, Some (2, 1, 3)) (λ _ _, Some ([0; 0; 0; 5; 5; 5], 2, 1))
       (λ _ _ _ _ _, 1))
    ["qoi"; "in.png"; "out.jpg"] 0
  = ([], [], Fault).
Proof.
  apply (main_output_name true
    (Libc (λ _ _, true) (λ _ _, 0) 0 (λ _, []) (λ b, Z.of_nat (length b)) 0
       always)
    (Stb (λ _, Some (2, 1, 3)) (λ _ _, Some ([0; 0; 0; 5; 5; 5], 2, 1))
       (λ _ _ _ _ _, 1))
    "qoi" "in" "out.jpg" 2 1 3 [0; 0; 0; 5; 5; 5] 2 1 0);
    [reflexivity | reflexivity | simpl; lia | |].
  - by intros ?%str_suffix_offset.
  - by intros ?%str_suffix_offset.
Defined.

(** X27 — Converting a QOI file to QOI: when the input holds the stream of
    a valid image, the variable [channels] happens to hold 0 or the file's
    number of channels, and the library calls succeed, [main] reads the
    input, closes it, and writes to the output the same header fields and
    chunks, except that the colour space of the output is always
    [QOI_SRGB], whatever the input says. *)
Theorem main_qoi_to_qoi ndebug os im a0 pre pre' data desc channels0 :
  let inp := pre +:+ ".qoi" in
  let out := pre' +:+ ".qoi" in
  let stream :=
    header_bytes desc ++ chunks_of (pixels_of data desc) ++ qoi_padding in
  let desc' := Desc (width desc) (height desc) (channels desc) QOI_SRGB in
  let stream' :=
    header_bytes desc' ++ chunks_of (pixels_of data desc) ++ qoi_padding in
  valid_image data desc →
  channels0 = 0 ∨ channels0 = channels desc →
  libc_fopen os inp "rb" = true →
  libc_fopen os out "wb" = true →
  (∀ w, libc_fseek os 0 w = 0) →
  libc_ftell os = Z.of_nat (length stream) →
  libc_fread os (Z.of_nat (length stream)) = stream →
  (∀ bytes, libc_fwrite os bytes = Z.of_nat (length bytes)) →
  libc_fclose os = 0 →
  (∀ n, libc_malloc os n = true) →
  main ndebug os im [a0; inp; out] channels0
  = ([], [Fopen inp "rb" true; Fseek 0 SEEK_END 0;
          Ftell (Z.of_nat (length stream)); Fseek 0 SEEK_SET 0;
          Fread (Z.of_nat (length stream)) stream; Fclose 0;
          Fopen out "wb" true; Fwrite stream' (Z.of_nat (length stream'));
          Fclose 0], Ret EXIT_SUCCESS).
Proof.
  intros inp out stream desc' stream' Hvalid Ht Hopen Hopen' Hseek Htell Hread
    Hwrite Hclose Hm.
  destruct (pixels_of_spec data desc Hvalid) as (Hflat & _).
  pose proof Hvalid as (Hwf & Hv & Hbytes & Hlen).
  destruct (enc_valid_bounds desc Hwf Hv) as (Hw & Hh & Hwh & Hch & Hcs).
  assert (width desc < 400000000 ∧ height desc < 400000000) as [Hw' Hh']
    by nia.
  assert (valid_image data desc') as Hvalid'.
  { destruct Hwf as (? & ? & ? & ?).
    split; [| split; [| done]].
    - repeat split; simpl; unfold QOI_SRGB; lia.
    - unfold enc_invalid in *. simpl.
      apply orb_false_iff in Hv as [Hv ->].
      apply orb_false_iff in Hv as [-> _]. done. }
  assert ((if channels0 =? 0 then channels desc else channels0)
          = channels desc) as Hch0.
  { destruct Ht as [-> | ->]; [done |]. by destruct Hch as [-> | ->]. }
  assert (∀ nd, ends_with nd inp ".png" = Ret 0) as Hpng
    by (intros nd; by apply ends_with_other).
  assert (∀ nd, ends_with nd inp ".qoi" = Ret 1) as Hqoi
    by (intros nd; apply ends_with_app).
  assert (ends_with ndebug out ".png" = Ret 0) as Hout
    by (by apply ends_with_other).
  assert (ends_with ndebug out ".qoi" = Ret 1) as Hout'
    by apply ends_with_app.
  unfold main, main_assert, main_read, main_write.
  rewrite !Hpng, !Hqoi. simpl negb. cbv iota. rewrite andb_false_r.
  rewrite (qoi_read_stream ndebug os inp data desc (Desc 0 0 0 0) channels0);
    [| try done ..].
  2: { destruct Ht as [-> | ->]; [by left | right].
       by destruct Hch; [left | right]. }
  rewrite Hout, Hout'. simpl negb. cbv iota.
  rewrite Hch0, Hflat.
  assert (s32 (width desc) = width desc) as -> by (unfold s32; mod_lia).
  assert (s32 (height desc) = height desc) as -> by (unfold s32; mod_lia).
  rewrite !u32_small by lia.
  assert (u8 (channels desc) = channels desc) as ->
    by (destruct Hch as [-> | ->]; done).
  fold desc'.
  rewrite (qoi_write_run ndebug os out data desc') by done.
  unfold main_end.
  assert (pixels_of data desc' = pixels_of data desc) as -> by done.
  fold stream'.
  assert (Z.of_nat (length stream') ≠ 0) as ->%Z.eqb_neq.
  { unfold stream'. rewrite length_app, length_header_bytes. lia. }
  done.
Qed.

Lemma valid_image_linear :
  valid_image [0; 0; 0; 5; 5; 5] (Desc 2 1 3 QOI_LINEAR).
Proof.
  unfold valid_image, desc_wf, is_byte, QOI_LINEAR. simpl.
  split_and!; try lia; try reflexivity.
  repeat (apply Forall_cons; split; [lia |]). apply Forall_nil_2.
Defined.

Lemma main_qoi_to_qoi_witness :
  main true
    (Libc (λ _ _, true) (λ _ _, 0) 25
       (λ _, [113; 111; 105; 102; 0; 0; 0; 2; 0; 0; 0; 1; 3; 1; 192; 165;
              136; 0; 0; 0; 0; 0; 0; 0; 1])
       (λ b, Z.of_nat (length b)) 0 always)
    (Stb (λ _, None) (λ _ _, None) (λ _ _ _ _ _, 0))
    ["qoi"; "in.qoi"; "out.qoi"] 0
  = ([], [Fopen "in.qoi" "rb" true; Fseek 0 SEEK_END 0; Ftell 25;
          Fseek 0 SEEK_SET 0;
          Fread 25
            [113; 111; 105; 102; 0; 0; 0; 2; 0; 0; 0; 1; 3; 1; 192; 165;
             136; 0; 0; 0; 0; 0; 0; 0; 1];
          Fclose 0;
          Fopen "out.qoi" "wb" true;
          Fwrite
            [113; 111; 105; 102; 0; 0; 0; 2; 0; 0; 0; 1; 3; 0; 192; 165;
             136; 0; 0; 0; 0; 0; 0; 0; 1] 25;
          Fclose 0], Ret EXIT_SUCCESS).
Proof.
  apply (main_qoi_to_qoi true
    (Libc (λ _ _, true) (λ _ _, 0) 25
       (λ _, [113; 111; 105; 102; 0; 0; 0; 2; 0; 0; 0; 1; 3; 1; 192; 165;
              136; 0; 0; 0; 0; 0; 0; 0; 1])
       (λ b, Z.of_nat (length b)) 0 always)
    (Stb (λ _, None) (λ _ _, None) (λ _ _ _ _ _, 0))
    "qoi" "in" "out" [0; 0; 0; 5; 5; 5] (Desc 2 1 3 QOI_LINEAR) 0
    valid_image_linear);
    [by left | reflexivity..].
Defined.
